(** * PyMicroHTTP: a shallow embedding of [src/server.py]

    The development follows the source file top to bottom: the Python
    values the server handles, the built-in string operations it calls,
    the rate limiter, the route registry, the middleware chain, the
    request parser, the response writer and the per-connection worker.
    The embedding computes: every function of the source is a function
    here.  The theorems come after the definitions. *)

From Stdlib Require Import ZArith NArith Ascii String List DecimalString Lia.
From stdpp Require Import gmap strings list sorting.

Local Open Scope string_scope.
Local Open Scope list_scope.

(** ** Text and bytes

    A Python [str] is a sequence of Unicode code points: [list N].
    A Python [bytes] object is a sequence of octets: a Rocq [string]. *)

Abbreviation str := (list N) (only parsing).
Abbreviation bytes := string (only parsing).

Module Text.

(** The [str] whose characters are the (ASCII) characters of a literal. *)
Definition lit (s : string) : str :=
  map N_of_ascii (list_ascii_of_string s).

Definition CR : N := 13.
Definition LF : N := 10.
Definition crlf : str := [CR; LF].

(** [s.startswith(p)] *)
Fixpoint startswith (p s : str) : bool :=
  match p, s with
  | [], _ => true
  | _ :: _, [] => false
  | a :: p', b :: s' => if N.eqb a b then startswith p' s' else false
  end.

(** [s.find(sub)]: the index of the first occurrence, [None] for -1. *)
Fixpoint find (sub s : str) : option nat :=
  if startswith sub s then Some 0%nat
  else match s with
       | [] => None
       | _ :: s' => S <$> find sub s'
       end.

(** [sub in s] *)
Definition contains (sub s : str) : bool :=
  match find sub s with Some _ => true | None => false end.

(** [s.split(sep)] for a non-empty separator: scan left to right, cut at
    every occurrence of [sep], resume after it.  [skip] counts the
    characters of a separator still to be passed over, [cur] holds the
    piece being read, reversed. *)
Fixpoint split_aux (sep : str) (skip : nat) (cur s : str) : list str :=
  match s with
  | [] => [rev cur]
  | c :: s' =>
      match skip with
      | S k => split_aux sep k cur s'
      | O =>
          if startswith sep s
          then rev cur :: split_aux sep (length sep - 1) [] s'
          else split_aux sep 0 (c :: cur) s'
      end
  end.

Definition split (sep s : str) : list str := split_aux sep 0 [] s.

(** [sep.join(parts)] *)
Fixpoint join (sep : str) (parts : list str) : str :=
  match parts with
  | [] => []
  | [p] => p
  | p :: rest => p ++ sep ++ join sep rest
  end.

(** [str(n)] for an [int] and for a length. *)
Definition of_Z (n : Z) : str := lit (NilZero.string_of_int (Z.to_int n)).
Definition of_nat (n : nat) : str := of_Z (Z.of_nat n).

(** The characters the [re] module's [\s] matches in a [str] pattern. *)
Definition isspace (c : N) : bool :=
  ((9 <=? c) && (c <=? 13) || (28 <=? c) && (c <=? 32)
   || (c =? 133) || (c =? 160) || (c =? 5760)
   || (8192 <=? c) && (c <=? 8202)
   || (c =? 8232) || (c =? 8233) || (c =? 8239) || (c =? 8287)
   || (c =? 12288))%N.

Definition is_ascii (s : str) : bool := forallb (fun c => (c <? 128)%N) s.

(** *** UTF-8 *)

Definition is_surrogate (c : N) : bool := ((55296 <=? c) && (c <=? 57343))%N.

(** The octets of one code point; [None] where Python's encoder refuses
    (a lone surrogate) or the number is no code point at all. *)
Definition utf8_char (c : N) : option (list N) :=
  (if c <? 128 then Some [c]
   else if c <? 2048 then
     Some [N.lor 192 (N.shiftr c 6); N.lor 128 (N.land c 63)]
   else if is_surrogate c then None
   else if c <? 65536 then
     Some [N.lor 224 (N.shiftr c 12);
           N.lor 128 (N.land (N.shiftr c 6) 63);
           N.lor 128 (N.land c 63)]
   else if c <? 1114112 then
     Some [N.lor 240 (N.shiftr c 18);
           N.lor 128 (N.land (N.shiftr c 12) 63);
           N.lor 128 (N.land (N.shiftr c 6) 63);
           N.lor 128 (N.land c 63)]
   else None)%N.

Fixpoint utf8 (s : str) : option (list N) :=
  match s with
  | [] => Some []
  | c :: s' =>
      match utf8_char c, utf8 s' with
      | Some bs, Some rest => Some (bs ++ rest)
      | _, _ => None
      end
  end.

Definition is_cont (b : N) : bool := ((128 <=? b) && (b <=? 191))%N.
Definition low6 (b : N) : N := N.land b 63.

(** Strict UTF-8 decoding: shortest forms only, no surrogates, nothing
    above U+10FFFF. *)
Fixpoint utf8_decode (bs : list N) : option str :=
  match bs with
  | [] => Some []
  | b0 :: r0 =>
      if (b0 <? 128)%N then cons b0 <$> utf8_decode r0
      else
        match r0 with
        | b1 :: r1 =>
            if ((194 <=? b0) && (b0 <=? 223))%N && is_cont b1 then
              cons (N.lor (N.shiftl (N.land b0 31) 6) (low6 b1))
                <$> utf8_decode r1
            else
              match r1 with
              | b2 :: r2 =>
                  let c3 := N.lor (N.shiftl (N.land b0 15) 12)
                              (N.lor (N.shiftl (low6 b1) 6) (low6 b2)) in
                  if ((224 <=? b0) && (b0 <=? 239))%N
                     && is_cont b1 && is_cont b2
                     && (2048 <=? c3)%N && negb (is_surrogate c3)
                  then cons c3 <$> utf8_decode r2
                  else
                    match r2 with
                    | b3 :: r3 =>
                        let c4 :=
                          N.lor (N.shiftl (N.land b0 7) 18)
                            (N.lor (N.shiftl (low6 b1) 12)
                               (N.lor (N.shiftl (low6 b2) 6) (low6 b3))) in
                        if ((240 <=? b0) && (b0 <=? 244))%N
                           && is_cont b1 && is_cont b2 && is_cont b3
                           && (65536 <=? c4)%N && (c4 <? 1114112)%N
                        then cons c4 <$> utf8_decode r3
                        else None
                    | [] => None
                    end
              | [] => None
              end
        | [] => None
        end
  end.

Definition octets (b : bytes) : list N := map N_of_ascii (list_ascii_of_string b).
Definition of_octets (l : list N) : bytes := string_of_list_ascii (map ascii_of_N l).

(** [b.rstrip(b'\x00')] *)
Fixpoint rstrip_nul (b : bytes) : bytes :=
  match b with
  | EmptyString => EmptyString
  | String a b' =>
      match rstrip_nul b' with
      | EmptyString => if Ascii.eqb a zero then EmptyString else String a EmptyString
      | rest => String a rest
      end
  end.

End Text.

Import Text.

(** ** Python objects

    The values handlers receive and return.  The server inspects them with
    [isinstance(_, tuple)], [isinstance(_, dict)], [len], unpacking, [str]
    and [json.dumps]; the constructors are the cases those operations tell
    apart.  A [dict] keeps its items in insertion order.  [PObj] is an object
    of any other type (bytes, a user class, ...), given by the text [str()]
    returns for it; floats are not modelled. *)

#[local] Unset Elimination Schemes.
Inductive pyobj :=
| PNone
| PBool (b : bool)
| PInt (n : Z)
| PStr (s : str)
| PList (items : list pyobj)
| PTuple (items : list pyobj)
| PDict (items : list (pyobj * pyobj))
| PObj (text : str).
#[local] Set Elimination Schemes.

(** ** Exceptions *)

Inductive exc_class :=
| ValueError | KeyError | IndexError | TypeError | AttributeError
| UnicodeDecodeError | UnicodeEncodeError | JSONDecodeError
| UserException (name : string)
    (* any other subclass of [Exception] that keeps the [__str__] of
       [BaseException] *)
| OwnStrException (name : string) (text : str)
    (* a subclass of [Exception] whose class defines [__str__] ([OSError]
       and its subclasses, a user class): [text] is what [str()] gives
       for the instance *)
| KeyboardInterrupt | SystemExit.    (* subclasses of [BaseException] only *)

(** An exception instance: its class and its [args]. *)
Record exn := Exc { exc_class_of : exc_class; exc_args : list pyobj }.

(** Whether [except Exception] catches it. *)
Definition is_Exception (e : exn) : bool :=
  match exc_class_of e with
  | KeyboardInterrupt | SystemExit => false
  | _ => true
  end.

(** How a computation ends: with a value, or with an exception in flight. *)
Inductive outcome (A : Type) :=
| Done (a : A)
| Raised (e : exn).
Arguments Done {A} a.
Arguments Raised {A} e.

(** ** What the server takes from Python's library

    Functions and tables of the standard library that [server.py] calls and
    that are defined outside this repository. *)

Class Builtins := {
  (** [http.client.responses]: status code to reason phrase *)
  responses : Z -> option str;
  (** the reason phrases are ASCII text *)
  responses_ascii : forall code phrase,
    responses code = Some phrase -> is_ascii phrase = true;
  (** [repr(o)] *)
  py_repr : pyobj -> str;
  (** [json.loads(s)] *)
  json_loads : str -> outcome pyobj;
  (** [urllib.parse.parse_qsl(s)] *)
  parse_qsl : str -> list (str * str);
  (** [str(e)] for a [UnicodeError], which formats its own arguments: by
      the class and [args] *)
  unicode_error_str : exc_class -> list pyobj -> str;
}.

(** ** The process state and its monad

    Module-level mutable state of [server.py] that request handling can
    touch: the global [rate_limiter], the log written by [logging.error], and
    the clock read by [time.time()].  The clock is the sequence of values
    successive calls of [time.time()] return, [ticks] the number of calls made
    so far.  Time stamps are integers (a number of clock units). *)

Record RateLimiter := mkRateLimiter {
  limit : Z;
  window : Z;
  requests : gmap (list N) (list Z);
}.

Record World := mkWorld {
  clock : nat -> Z;
  ticks : nat;
  rate_limiter : RateLimiter;
  log : list str;
}.

(** A computation reads and updates a state and ends in an [outcome];
    updates made before an exception is raised stay. *)
Definition M (S A : Type) : Type := S -> outcome A * S.

Definition ret {S A} (a : A) : M S A := fun w => (Done a, w).
Definition raise {S A} (e : exn) : M S A := fun w => (Raised e, w).
Definition bind {S A B} (m : M S A) (k : A -> M S B) : M S B :=
  fun w => match m w with
           | (Done a, w') => k a w'
           | (Raised e, w') => (Raised e, w')
           end.
(** [try: m  except Exception as e: h e] *)
Definition try_except {S A} (m : M S A) (h : exn -> M S A) : M S A :=
  fun w => match m w with
           | (Raised e, w') => if is_Exception e then h e w' else (Raised e, w')
           | r => r
           end.
Definition lift {S A} (o : outcome A) : M S A := fun w => (o, w).

Declare Scope py_scope.
Delimit Scope py_scope with py.
Notation "x <- m ;; k" := (bind m (fun x => k))
  (at level 100, m at next level, right associativity) : py_scope.
Notation "m ;;; k" := (bind m (fun _ => k))
  (at level 100, right associativity) : py_scope.
Local Open Scope py_scope.

(** [time.time()] *)
Definition time_time : M World Z :=
  fun w => (Done (clock w (ticks w)),
            mkWorld (clock w) (S (ticks w)) (rate_limiter w) (log w)).

(** [logging.error(msg)] *)
Definition logging_error (msg : str) : M World unit :=
  fun w => (Done tt, mkWorld (clock w) (ticks w) (rate_limiter w) (log w ++ [msg])).

Definition get_rate_limiter : M World RateLimiter := fun w => (Done (rate_limiter w), w).
Definition set_rate_limiter (r : RateLimiter) : M World unit :=
  fun w => (Done tt, mkWorld (clock w) (ticks w) r (log w)).

(** ** [class RateLimiter] *)

(** [RateLimiter.__init__(limit=100, window=60)] *)
Definition RateLimiter_init (limit window : Z) : RateLimiter :=
  mkRateLimiter limit window ∅.

(** [self.requests[client_ip]] on the [defaultdict(list)]: a missing key
    reads as the empty list. *)
Definition requests_of (self : RateLimiter) (client_ip : str) : list Z :=
  default [] (requests self !! client_ip).

(** The body of [is_allowed] once [now = time.time()] has been read. *)
Definition is_allowed_at (now : Z) (self : RateLimiter) (client_ip : str)
  : bool * RateLimiter :=
  let kept := filter (fun t => now - t < window self)%Z (requests_of self client_ip) in
  if (Z.of_nat (length kept) <? limit self)%Z
  then (true, mkRateLimiter (limit self) (window self)
                (<[client_ip := kept ++ [now]]> (requests self)))
  else (false, mkRateLimiter (limit self) (window self)
                 (<[client_ip := kept]> (requests self))).

(** [rate_limiter.is_allowed(client_ip)] on the global limiter. *)
Definition is_allowed (client_ip : str) : M World bool :=
  now <- time_time ;;
  self <- get_rate_limiter ;;
  let (ok, self') := is_allowed_at now self client_ip in
  set_rate_limiter self' ;;;
  ret ok.

(** ** [str()], hashing and [json.dumps] on objects *)

Fixpoint hashable (o : pyobj) : bool :=
  match o with
  | PList _ | PDict _ => false
  | PTuple items => forallb hashable items
  | _ => true
  end.

Definition quote : N := 34.
Definition backslash : N := 92.

Definition hex_digit (n : N) : N := (if n <? 10 then 48 + n else 87 + n)%N.

(** ['\\u{0:04x}'.format(c)] *)
Definition u_escape (c : N) : str :=
  [backslash; 117%N;
   hex_digit (N.land (N.shiftr c 12) 15); hex_digit (N.land (N.shiftr c 8) 15);
   hex_digit (N.land (N.shiftr c 4) 15); hex_digit (N.land c 15)].

(** One character under [json.encoder.encode_basestring_ascii], the encoder
    of [json.dumps] with its default [ensure_ascii=True]. *)
Definition json_escape (c : N) : str :=
  (if c =? quote then [backslash; quote]
   else if c =? backslash then [backslash; backslash]
   else if c =? 10 then [backslash; 110]
   else if c =? 13 then [backslash; 114]
   else if c =? 9 then [backslash; 116]
   else if c =? 8 then [backslash; 98]
   else if c =? 12 then [backslash; 102]
   else if (32 <=? c) && (c <=? 126) then [c]
   else if c <? 65536 then u_escape c
   else
     let n := c - 65536 in
     u_escape (N.lor 55296 (N.land (N.shiftr n 10) 1023))
       ++ u_escape (N.lor 56320 (N.land n 1023)))%N.

Definition json_quote (s : str) : str :=
  [quote] ++ concat (map json_escape s) ++ [quote].

(** A dictionary key in JSON: [str] as is, [int], [bool] and [None] turned
    into their JSON text; any other key is a [TypeError]. *)
Definition json_key (k : pyobj) : option str :=
  match k with
  | PStr s => Some (json_quote s)
  | PInt n => Some (json_quote (of_Z n))
  | PBool true => Some (json_quote (lit "true"))
  | PBool false => Some (json_quote (lit "false"))
  | PNone => Some (json_quote (lit "null"))
  | _ => None
  end.

(** [json.dumps(o)] with the default separators; [None] is the [TypeError]
    of an object that cannot be serialised. *)
Fixpoint json_text (o : pyobj) : option str :=
  match o with
  | PNone => Some (lit "null")
  | PBool true => Some (lit "true")
  | PBool false => Some (lit "false")
  | PInt n => Some (of_Z n)
  | PStr s => Some (json_quote s)
  | PList items | PTuple items =>
      (fun parts => lit "[" ++ join (lit ", ") parts ++ lit "]")
        <$> (fix elems (l : list pyobj) : option (list str) :=
               match l with
               | [] => Some []
               | x :: r =>
                   match json_text x, elems r with
                   | Some a, Some b => Some (a :: b)
                   | _, _ => None
                   end
               end) items
  | PDict items =>
      (fun parts => lit "{" ++ join (lit ", ") parts ++ lit "}")
        <$> (fix members (l : list (pyobj * pyobj)) : option (list str) :=
               match l with
               | [] => Some []
               | (k, v) :: r =>
                   match json_key k, json_text v, members r with
                   | Some a, Some b, Some c => Some ((a ++ lit ": " ++ b) :: c)
                   | _, _, _ => None
                   end
               end) items
  | PObj _ => None
  end.

Definition json_dumps (o : pyobj) : outcome str :=
  match json_text o with
  | Some s => Done s
  | None => Raised (Exc TypeError [PStr (lit "Object is not JSON serializable")])
  end.

(** [dict(pairs)] for pairs of [str]: a later pair with a key already
    present replaces the value and keeps the key's place. *)
Definition str_eqb (a b : str) : bool := bool_decide (a = b).

Fixpoint dict_set (k v : str) (d : list (str * str)) : list (str * str) :=
  match d with
  | [] => [(k, v)]
  | (k', v') :: d' =>
      if str_eqb k' k then (k', v) :: d' else (k', v') :: dict_set k v d'
  end.

Definition dict_of_pairs (pairs : list (str * str)) : pyobj :=
  PDict (map (fun '(k, v) => (PStr k, PStr v))
           (fold_left (fun d '(k, v) => dict_set k v d) pairs [])).

Section Server.
Context `{Builtins}.

(** [str(o)] *)
Definition py_str (o : pyobj) : str :=
  match o with
  | PNone => lit "None"
  | PBool true => lit "True"
  | PBool false => lit "False"
  | PInt n => of_Z n
  | PStr s => s
  | PObj text => text
  | PList _ | PTuple _ | PDict _ => py_repr o
  end.

(** [str(e)] for an exception.  [BaseException.__str__] goes by [args];
    [KeyError] overrides it for a single argument; a [UnicodeError] formats
    its arguments itself; an exception of a class with a [__str__] of its
    own gives its text. *)
Definition exn_str (e : exn) : str :=
  match exc_class_of e with
  | OwnStrException _ text => text
  | UnicodeDecodeError | UnicodeEncodeError =>
      unicode_error_str (exc_class_of e) (exc_args e)
  | KeyError =>
      match exc_args e with
      | [] => []
      | [a] => py_repr a
      | args => py_repr (PTuple args)
      end
  | _ =>
      match exc_args e with
      | [] => []
      | [a] => py_str a
      | args => py_repr (PTuple args)
      end
  end.

(** [responses.get(code, 'Unknown')] *)
Definition responses_get (code : pyobj) : outcome str :=
  if hashable code then
    Done (match code with
          | PInt n => default (lit "Unknown") (responses n)
          | PBool b => default (lit "Unknown") (responses (if b then 1 else 0)%Z)
          | _ => lit "Unknown"
          end)
  else Raised (Exc TypeError [PStr (lit "unhashable type")]).

(** ** Requests, handlers, middlewares *)

(** The request [dict].  [__parseRequest] builds it with the first four
    keys; [__handleConnection] adds ['client_ip'] and ['parsed_body']. *)
Record Request := mkRequest {
  verb : str;
  path : str;
  headers : gmap (list N) (list N);
  body : str;
  client_ip : option str;
  parsed_body : option pyobj;
}.

Definition Handler : Type := Request -> M World pyobj.
Definition Middleware : Type := Handler -> Handler.

(** [class Server]: the class attributes [routes] and
    [beforeAllMiddlewares]. *)
Record Server := mkServer {
  routes : gmap (list N) Handler;
  beforeAllMiddlewares : list Middleware;
}.

Definition Server_init : Server := mkServer ∅ [].

(** ** The route-key pattern: a small backtracking matcher

    The constructs of the pattern in [__isPathValid]: the anchors, literal
    text, alternation, concatenation and the greedy repetition of a
    character class. *)

Inductive regex :=
| Bol                              (* ^ *)
| Eol                              (* $ *)
| Lit (text : str)
| Or (r1 r2 : regex)
| Seq (r1 r2 : regex)
| Star (class : N -> bool).        (* [class]* *)

(** Greedy: take one more character if the class allows it, and fall back
    on stopping here. *)
Fixpoint star_match (class : N -> bool) (pos : nat) (s : str)
  (k : nat -> str -> bool) : bool :=
  match s with
  | c :: s' => if class c then star_match class (S pos) s' k || k pos s
               else k pos s
  | [] => k pos s
  end.

(** [pos] is the number of characters consumed so far, [s] what is left,
    [k] the rest of the match.  Without [re.MULTILINE], [^] matches at
    position 0 only and [$] at the end of the text or just before a line
    feed that ends it. *)
Fixpoint regex_match (r : regex) (pos : nat) (s : str)
  (k : nat -> str -> bool) : bool :=
  match r with
  | Bol => match pos with O => k pos s | S _ => false end
  | Eol => match s with
           | [] => k pos s
           | [c] => if (c =? LF)%N then k pos s else false
           | _ => false
           end
  | Lit text =>
      if startswith text s then k (pos + length text)%nat (drop (length text) s)
      else false
  | Or r1 r2 => regex_match r1 pos s k || regex_match r2 pos s k
  | Seq r1 r2 => regex_match r1 pos s (fun pos' s' => regex_match r2 pos' s' k)
  | Star class => star_match class pos s k
  end.

(** [bool(re.match(pattern, text))] *)
Definition re_match (pattern : regex) (text : str) : bool :=
  regex_match pattern 0 text (fun _ _ => true).

Definition verbs : list str :=
  [lit "GET"; lit "POST"; lit "PUT"; lit "DELETE"; lit "HEAD"; lit "OPTIONS";
   lit "PATCH"].

(** [r'^(GET|POST|PUT|DELETE|HEAD|OPTIONS|PATCH) /[^\s]*$'] *)
Definition route_pattern : regex :=
  Seq Bol
    (Seq (Or (Lit (lit "GET")) (Or (Lit (lit "POST")) (Or (Lit (lit "PUT"))
           (Or (Lit (lit "DELETE")) (Or (Lit (lit "HEAD"))
              (Or (Lit (lit "OPTIONS")) (Lit (lit "PATCH"))))))))
       (Seq (Lit (lit " /"))
          (Seq (Star (fun c => negb (isspace c))) Eol))).

(** [Server.__isPathValid] *)
Definition isPathValid (path : str) : bool := re_match route_pattern path.

(** ** Registration *)

Definition invalid_path (path : str) : exn :=
  Exc ValueError [PStr (lit "invalid provided path:"); PStr path].

(** [Server.registerHandler] *)
Definition registerHandler (self : Server) (path : str) (handler : Handler)
  : outcome Server :=
  if negb (isPathValid path) then Raised (invalid_path path)
  else Done (mkServer (<[path := handler]> (routes self))
               (beforeAllMiddlewares self)).

(** [Server.__chainMiddlewares] *)
Definition chainMiddlewares (middlewares : list Middleware) (func : Handler)
  : Handler :=
  fold_left (fun func middleware => middleware func) (rev middlewares) func.

(** The [wrapper] that [register]'s decorator puts around [func];
    [name] is [func.__name__]. *)
Definition wrapper (name : str) (func : Handler) : Handler :=
  fun request =>
    try_except (func request)
      (fun e =>
         logging_error (lit "Error in " ++ name ++ lit ": " ++ exn_str e) ;;;
         ret (PTuple [PStr (lit "Internal Server Error: " ++ exn_str e);
                      PInt 500])).

(** The [middleware] argument of [register]: absent, a list, or one
    middleware. *)
Inductive middleware_arg :=
| NoMiddleware
| MiddlewareList (ms : list Middleware)
| OneMiddleware (m : Middleware).

(** The [decorator] closure [register] returns, applied to [func] when the
    registry is [self]. *)
Definition decorator (path : str) (middleware : middleware_arg)
  (name : str) (func : Handler) (self : Server) : Server :=
  let stored :=
    match middleware with
    | NoMiddleware | MiddlewareList [] => wrapper name func
    | MiddlewareList ms => chainMiddlewares ms (wrapper name func)
    | OneMiddleware m => m (wrapper name func)
    end in
  mkServer (<[path := stored]> (routes self)) (beforeAllMiddlewares self).

(** [Server.register]: the path is checked when [register] is called; the
    result is the decorator. *)
Definition register (path : str) (middleware : middleware_arg)
  : outcome (str -> Handler -> Server -> Server) :=
  if negb (isPathValid path) then Raised (invalid_path path)
  else Done (decorator path middleware).

(** [Server.beforeAll]'s decorator *)
Definition beforeAll (func : Middleware) (self : Server) : Server :=
  mkServer (routes self) (beforeAllMiddlewares self ++ [func]).

(** ** [Server.__parseRequest] *)

Definition unpack_error (expected got : nat) : exn :=
  Exc ValueError
    [PStr (if (got <? expected)%nat
           then lit "not enough values to unpack (expected " ++ of_nat expected
                  ++ lit ", got " ++ of_nat got ++ lit ")"
           else lit "too many values to unpack (expected " ++ of_nat expected
                  ++ lit ")")].

Definition substring_not_found : exn :=
  Exc ValueError [PStr (lit "substring not found")].

(** The [for line in headlines] loop. *)
Fixpoint parse_headers (headlines : list str) (headers : gmap (list N) (list N))
  : outcome (gmap (list N) (list N)) :=
  match headlines with
  | [] => Done headers
  | line :: rest =>
      match find (lit ":") line with
      | None => Raised substring_not_found
      | Some idx =>
          parse_headers rest (<[take idx line := drop (idx + 2) line]> headers)
      end
  end.

Definition parseRequest (reqstr : str) : outcome Request :=
  let sep := crlf in
  match split (sep ++ sep) reqstr with
  | [head; body] =>
      match split sep head with
      | head :: headlines =>
          match split (lit " ") head with
          | [verb; path; _] =>
              match parse_headers headlines ∅ with
              | Done headers => Done (mkRequest verb path headers body None None)
              | Raised e => Raised e
              end
          | parts => Raised (unpack_error 3 (length parts))
          end
      | [] => Raised (Exc IndexError [PStr (lit "list index out of range")])
      end
  | parts => Raised (unpack_error 2 (length parts))
  end.

(** [parse_body] *)
Definition parse_body (request : Request) : outcome pyobj :=
  let content_type := default [] (headers request !! lit "Content-Type") in
  if contains (lit "application/json") content_type
  then json_loads (body request)
  else if contains (lit "application/x-www-form-urlencoded") content_type
  then Done (dict_of_pairs (parse_qsl (body request)))
  else Done (PStr (body request)).

(** ** Writing a response *)

(** [Server.__checkIfResultIsDict] *)
Definition checkIfResultIsDict (result : pyobj) : outcome pyobj :=
  match result with
  | PDict _ => match json_dumps result with
               | Done s => Done (PStr s)
               | Raised e => Raised e
               end
  | _ => Done result
  end.

(** [s.encode()] and [b.decode()] *)
Definition encode (s : str) : outcome bytes :=
  match utf8 s with
  | Some bs => Done (of_octets bs)
  | None => Raised (Exc UnicodeEncodeError [])
  end.

Definition decode (b : bytes) : outcome str :=
  match utf8_decode (octets b) with
  | Some s => Done s
  | None => Raised (Exc UnicodeDecodeError [])
  end.

(** The header lines [__writeReponse] adds for the [headers] argument. *)
Definition extra_headers (headers : pyobj) : outcome str :=
  match headers with
  | PDict items =>
      Done (concat (map (fun '(header, value) =>
                           py_str header ++ lit ": " ++ py_str value ++ crlf)
                      items))
  | _ => Raised (Exc AttributeError [PStr (lit "object has no attribute 'items'")])
  end.

(** The text [__writeReponse] builds before encoding it. *)
Definition response_text (resp : pyobj) (code headers : pyobj)
  (contentType : str) : outcome str :=
  let resp := py_str resp in
  match responses_get code with
  | Raised e => Raised e
  | Done codeMessage =>
      let httpResp :=
        lit "HTTP/1.1 " ++ py_str code ++ lit " " ++ codeMessage ++ crlf
        ++ lit "Content-Type: " ++ contentType ++ crlf
        ++ lit "Content-Length: " ++ of_nat (length resp) ++ crlf in
      match extra_headers headers with
      | Raised e => Raised e
      | Done extra => Done ((httpResp ++ extra) ++ (crlf ++ resp))
      end
  end.

(** [Server.__writeReponse] *)
Definition writeReponse (resp : pyobj) (code headers : pyobj)
  (contentType : str) : outcome bytes :=
  match response_text resp code headers contentType with
  | Done text => encode text
  | Raised e => Raised e
  end.

(** The defaults of [code], [headers] and [contentType]. *)
Definition default_code : pyobj := PInt 200.
Definition default_headers : pyobj := PDict [].
Definition default_contentType : str := lit "application/json".

(** ** The connection worker *)

(** One accepted connection as the worker sees it: the process state, the
    chunks later calls of [conn.recv] will return ([unread]; none left
    means the peer has closed and [recv] returns [b'']), the byte strings
    passed to [conn.sendall] so far, and whether the socket is closed. *)
Record Conn := mkConn {
  world : World;
  unread : list string;
  sent : list string;
  closed : bool;
}.

(** Run a handler's computation on the process state of the connection. *)
Definition in_world {A} (m : M World A) : M Conn A :=
  fun c => let (r, w) := m (world c) in
           (r, mkConn w (unread c) (sent c) (closed c)).

(** [conn.sendall(data)] *)
Definition sendall (data : bytes) : M Conn unit :=
  fun c => (Done tt, mkConn (world c) (unread c) (sent c ++ [data]) (closed c)).

(** How one pass through the body of [while True] ends, when it does not
    raise: by reaching the end of the body, so that the loop goes round
    again, or by [return]. *)
Inductive ctl :=
| Next
| Return (v : pyobj).

Definition bad_result_len (resultLen : nat) : exn :=
  Exc ValueError
    [PStr (lit "internal server error: handler returned bad number of values:");
     PInt (Z.of_nat resultLen)].

(** [return conn.sendall(self.__writeReponse(resp, code, headers))] *)
Definition respond (resp code headers : pyobj) : M Conn ctl :=
  data <- lift (writeReponse resp code headers default_contentType) ;;
  sendall data ;;;
  ret (Return PNone).

(** Lines 182-186: the handler found in the registry is called through
    the global middlewares when there are any. *)
Definition invoke (self : Server) (handler : Handler) (parsed : Request)
  : M World pyobj :=
  match beforeAllMiddlewares self with
  | _ :: _ => chainMiddlewares (beforeAllMiddlewares self) handler parsed
  | [] => handler parsed
  end.

(** Lines 188-198: what is sent for a handler's [result]. *)
Definition deliver (result : pyobj) : M Conn ctl :=
  match result with
  | PTuple items =>
      match items with
      | [response; code; headers] =>
          resp <- lift (checkIfResultIsDict response) ;;
          respond resp code headers
      | [response; code] =>
          resp <- lift (checkIfResultIsDict response) ;;
          respond resp code default_headers
      | _ =>
          data <- lift (writeReponse (PStr []) (PInt 500) default_headers
                          default_contentType) ;;
          sendall data ;;;
          raise (bad_result_len (length items))
      end
  | _ =>
      resp <- lift (checkIfResultIsDict result) ;;
      respond resp default_code default_headers
  end.

(** The request [dict] once ['client_ip'] and ['parsed_body'] are set. *)
Definition with_client_ip (parsed : Request) (ip : str) : Request :=
  mkRequest (verb parsed) (path parsed) (headers parsed) (body parsed)
    (Some ip) (parsed_body parsed).
Definition with_parsed_body (parsed : Request) (pb : pyobj) : Request :=
  mkRequest (verb parsed) (path parsed) (headers parsed) (body parsed)
    (client_ip parsed) (Some pb).

(** [f'{parsed["verb"]} {parsed["path"]}'] *)
Definition pathkey_of (parsed : Request) : str :=
  verb parsed ++ lit " " ++ path parsed.

(** Lines 173-176: from the bytes read to the request the handler gets. *)
Definition read_request (addr : str * Z) (data : bytes) : outcome Request :=
  match decode (rstrip_nul data) with
  | Raised e => Raised e
  | Done reqstr =>
      match parseRequest reqstr with
      | Raised e => Raised e
      | Done parsed =>
          let parsed := with_client_ip parsed (fst addr) in
          match parse_body parsed with
          | Raised e => Raised e
          | Done pb => Done (with_parsed_body parsed pb)
          end
      end
  end.

(** The body of the loop in [__handleConnection] from [reqstr = ...] on,
    for a non-empty [data]. *)
Definition process (self : Server) (addr : str * Z) (data : bytes)
  : M Conn ctl :=
  parsed <- lift (read_request addr data) ;;
  let pathkey := pathkey_of parsed in
  match routes self !! pathkey with
  | Some handler =>
      result <- in_world (invoke self handler parsed) ;;
      deliver result
  | None => respond (PStr []) (PInt 404) default_headers
  end.

(** The [while True] loop.  [pending] is what the calls of [conn.recv]
    still return; each pass takes one chunk. *)
Fixpoint serve (self : Server) (addr : str * Z) (pending : list string)
  : M Conn pyobj :=
  fun c =>
    match pending with
    | [] => (Done PNone, c)                            (* [recv] gives [b'']: break *)
    | data :: rest =>
        let c := mkConn (world c) rest (sent c) (closed c) in
        if String.eqb data EmptyString then (Done PNone, c)          (* break *)
        else
          match process self addr data c with
          | (Done Next, c') => serve self addr rest c'
          | (Done (Return v), c') => (Done v, c')
          | (Raised e, c') => (Raised e, c')
          end
    end.

(** [Server.__handleConnection]: the loop inside [with conn:], which closes
    the socket however the loop ends. *)
Definition close (c : Conn) : Conn :=
  mkConn (world c) (unread c) (sent c) true.

Definition handleConnection (self : Server) (addr : str * Z) : M Conn pyobj :=
  fun c =>
    let (r, c') := serve self addr (unread c) c in
    (r, close c').

(** ** Middleware *)

Definition key_error (key : str) : exn := Exc KeyError [PStr key].

(** [rate_limit_middleware] *)
Definition rate_limit_middleware (f : Handler) : Handler :=
  fun request =>
    match client_ip request with
    | None => raise (key_error (lit "client_ip"))
    | Some client_ip =>
        allowed <- is_allowed client_ip ;;
        if allowed : bool then f request
        else ret (PTuple [PStr (lit "Rate limit exceeded"); PInt 429])
    end.

End Server.

(** * What the statements speak of *)

(** ** The layout of a response

    What a client reads when the body is ASCII text: the response with
    status [code], the default content type, no extra header, and the given
    body. *)

Definition reason `{Builtins} (code : Z) : str :=
  default (lit "Unknown") (responses code).

Definition plain_response `{Builtins} (code : Z) (body : str) : str :=
  lit "HTTP/1.1 " ++ of_Z code ++ lit " " ++ reason code ++ crlf
  ++ lit "Content-Type: application/json" ++ crlf
  ++ lit "Content-Length: " ++ of_nat (length body) ++ crlf
  ++ crlf ++ body.

(** ** The body on the wire *)

(** The octets of the body of a response whose body argument is [resp]:
    [str(resp)] under UTF-8 ([None] when it cannot be encoded). *)
Definition body_octets `{Builtins} (resp : pyobj) : option (list N) :=
  utf8 (py_str resp).

(** The number [__writeReponse] writes after [Content-Length:]. *)
Definition content_length `{Builtins} (resp : pyobj) : nat :=
  length (py_str resp).

(** ** Connections and process states after a step *)

(** The connection once [recv] has returned the first chunk still unread. *)
Definition after_recv (c : Conn) (rest : list string) : Conn :=
  mkConn (world c) rest (sent c) (closed c).

(** The connection after one more [sendall]. *)
Definition after_send (c : Conn) (data : string) : Conn :=
  mkConn (world c) (unread c) (sent c ++ [data]) (closed c).

(** The process state after one call of [rate_limiter.is_allowed(c)]. *)
Definition after_check (w : World) (c : list N) : World :=
  mkWorld (clock w) (S (ticks w))
    (snd (is_allowed_at (clock w (ticks w)) (rate_limiter w) c)) (log w).

(** The process state with more lines in the log. *)
Definition logged (w : World) (msgs : list (list N)) : World :=
  mkWorld (clock w) (ticks w) (rate_limiter w) (log w ++ msgs).

(** A middleware that records its name in the log when it is entered and
    then calls the handler it wraps: a probe for the order of execution. *)
Definition announce (name : str) : Middleware :=
  fun f request => logging_error name ;;; f request.

(** ** Runs of the rate limiter

    An allow check as the limiter sees it is a pair: the client and the value
    [time.time()] returned for it. *)

Definition run_calls (self : RateLimiter) (calls : list (list N * Z)) : RateLimiter :=
  fold_left (fun r call => snd (is_allowed_at (snd call) r (fst call))) calls self.

(** The answers [is_allowed] gives along a run. *)
Fixpoint answers (self : RateLimiter) (calls : list (list N * Z)) : list bool :=
  match calls with
  | [] => []
  | call :: rest =>
      fst (is_allowed_at (snd call) self (fst call))
        :: answers (snd (is_allowed_at (snd call) self (fst call))) rest
  end.

(** Successive calls of [rate_limiter.is_allowed] for the given clients. *)
Fixpoint check_all (clients : list (list N)) : M World (list bool) :=
  match clients with
  | [] => ret []
  | c :: rest =>
      ok <- is_allowed c ;;
      oks <- check_all rest ;;
      ret (ok :: oks)
  end.

(** The calls [check_all] makes from the state [w]: each client paired with
    the next reading of the clock. *)
Definition calls_from (w : World) (clients : list (list N)) : list (list N * Z) :=
  zip clients (map (clock w) (seq (ticks w) (length clients))).

(** The answers given to client [c] along a run that also serves others. *)
Definition answers_to (c : list N) (self : RateLimiter) (calls : list (list N * Z))
  : list bool :=
  map snd (filter (fun p => fst (fst p) = c) (zip calls (answers self calls))).

(** The clock readings of [c]'s checks in a run. *)
Definition times_of (c : list N) (calls : list (list N * Z)) : list Z :=
  map snd (filter (fun call => fst call = c) calls).

(** Readings each of which is less than [W] after every earlier one. *)
Definition within (W : Z) (times : list Z) : Prop :=
  StronglySorted (fun t u => u - t < W)%Z times.

(** ** Invariants of the runs *)

(** The state invariant behind the ordering: every stored list is sorted
    and holds only readings taken so far, none later than [hi]. *)
Definition ordered_upto (hi : Z) (self : RateLimiter) : Prop :=
  forall c, StronglySorted Z.le (requests_of self c)
            /\ Forall (fun t => t <= hi)%Z (requests_of self c).

(** Two limiter states that a run of checks for [c] cannot tell apart. *)
Definition agree_on (c : list N) (self self' : RateLimiter) : Prop :=
  limit self = limit self' /\ window self = window self'
  /\ requests_of self c = requests_of self' c.


(** The property of the limiter that no client ever holds a stale time
    stamp: after every allow check, made for any client at the reading
    [now], no stored stamp of any client is older than the window at that
    moment; and this with a clock that never goes back and a window that is
    not negative. *)
Definition stamps_never_stale : Prop :=
  forall (L W : Z) (before : list (list N * Z)) (checked c : list N)
         (now t : Z),
    (0 <= W)%Z -> Sorted Z.le (map snd (before ++ [(checked, now)])) ->
    t ∈ requests_of
          (run_calls (RateLimiter_init L W) (before ++ [(checked, now)])) c ->
    (now - t <= W)%Z.

(** ** Reading the route-key pattern

    The texts the pattern of [__isPathValid] describes, written out: one of
    the seven verbs, a space, a slash, then characters none of which is
    white space; and, as [$] allows, possibly one final line feed. *)
Definition route_key_shape (path : list N) : Prop :=
  exists verb rest,
    verb ∈ verbs
    /\ Forall (fun ch => isspace ch = false) rest
    /\ (path = verb ++ lit " /" ++ rest \/ path = verb ++ lit " /" ++ rest ++ [LF]).

(** The continuation of [$] at the end of the pattern. *)
Definition at_end : nat -> list N -> bool :=
  fun pos s => regex_match Eol pos s (fun _ _ => true).

(** The class [[^\s]]. *)
Definition not_space (c : N) : bool := negb (isspace c).

(** ** Malformed requests

    The three ways a request text can be malformed: it has no blank line
    (no two consecutive CR LF); its first line does not have exactly two
    spaces, that is, three fields; one of its header lines has no colon. *)

Definition space : N := 32.
Definition colon : N := 58.

Definition no_blank_line (s : list N) : Prop :=
  forall a b, s ≠ a ++ (crlf ++ crlf) ++ b.

Definition bad_verb_line (s : list N) : Prop :=
  exists head body,
    split (crlf ++ crlf) s = [head; body]
    /\ count_occ N.eq_dec (hd [] (split crlf head)) space ≠ 2%nat.

Definition header_without_colon (s : list N) : Prop :=
  exists head body line,
    split (crlf ++ crlf) s = [head; body]
    /\ line ∈ tail (split crlf head)
    /\ colon ∉ line.

Definition malformed (s : list N) : Prop :=
  no_blank_line s \/ bad_verb_line s \/ header_without_colon s.

(** The property of the worker that no fault of the parser escapes it:
    whatever malformed request arrives, [__handleConnection] ends without an
    exception in flight. *)
Definition parse_faults_contained : Prop :=
  forall (B : Builtins) (self : Server) (addr : list N * Z) (c : Conn)
         (data : string) (rest : list string) (reqstr : list N),
    unread c = data :: rest -> data ≠ EmptyString ->
    decode (rstrip_nul data) = Done reqstr -> malformed reqstr ->
    exists v c', handleConnection self addr c = (Done v, c').

(** The property of the worker that a request without a route is always
    answered: whatever request arrives whose text can be parsed, if the
    registry holds nothing under its key, the empty 404 response is sent
    and the worker returns. *)
Definition unrouted_requests_get_404 : Prop :=
  forall (B : Builtins) (self : Server) (addr : list N * Z) (c : Conn)
         (data : string) (rest : list string) (reqstr : list N)
         (parsed : Request),
    unread c = data :: rest -> data ≠ EmptyString ->
    decode (rstrip_nul data) = Done reqstr ->
    parseRequest reqstr = Done parsed ->
    routes self !! pathkey_of parsed = None ->
    handleConnection self addr c
    = (Done PNone,
       close (after_send (after_recv c rest) (of_octets (plain_response 404 [])))).

(** ** Induction on objects

    The principle for [pyobj] that reaches inside lists, tuples and
    dictionaries. *)
Section PyobjInduction.
Variable P : pyobj -> Prop.
Hypothesis HNone : P PNone.
Hypothesis HBool : forall b, P (PBool b).
Hypothesis HInt : forall n, P (PInt n).
Hypothesis HStr : forall s, P (PStr s).
Hypothesis HList : forall items, Forall P items -> P (PList items).
Hypothesis HTuple : forall items, Forall P items -> P (PTuple items).
Hypothesis HDict :
  forall items, Forall (fun kv => P (fst kv) /\ P (snd kv)) items -> P (PDict items).
Hypothesis HObj : forall text, P (PObj text).

Fixpoint pyobj_induction (o : pyobj) : P o :=
  match o with
  | PNone => HNone
  | PBool b => HBool b
  | PInt n => HInt n
  | PStr s => HStr s
  | PList items =>
      HList items
        ((fix all (l : list pyobj) : Forall P l :=
            match l with
            | [] => List.Forall_nil P
            | x :: r => List.Forall_cons P x r (pyobj_induction x) (all r)
            end) items)
  | PTuple items =>
      HTuple items
        ((fix all (l : list pyobj) : Forall P l :=
            match l with
            | [] => List.Forall_nil P
            | x :: r => List.Forall_cons P x r (pyobj_induction x) (all r)
            end) items)
  | PDict items =>
      HDict items
        ((fix all (l : list (pyobj * pyobj))
            : Forall (fun kv => P (fst kv) /\ P (snd kv)) l :=
            match l with
            | [] => List.Forall_nil _
            | (k, v) :: r =>
                List.Forall_cons (fun kv => P (fst kv) /\ P (snd kv)) (k, v) r
                  (conj (pyobj_induction k) (pyobj_induction v)) (all r)
            end) items)
  | PObj text => HObj text
  end.
End PyobjInduction.

(** ** Concrete data for examples *)

Module Example.

(** Four entries of Python's table of reason phrases. *)
Definition sample_responses (code : Z) : option str :=
  if (code =? 200)%Z then Some (lit "OK")
  else if (code =? 404)%Z then Some (lit "Not Found")
  else if (code =? 429)%Z then Some (lit "Too Many Requests")
  else if (code =? 500)%Z then Some (lit "Internal Server Error")
  else None.

Lemma sample_responses_ascii (code : Z) (phrase : str) :
  sample_responses code = Some phrase -> is_ascii phrase = true.
Proof.
  unfold sample_responses. intros Hp.
  repeat (case_match; [by simplify_eq|]). discriminate.
Qed.

(** A runtime for examples: the four reason phrases, and fixed answers for
    the functions the examples of this module never call. *)
Definition sample_builtins : Builtins := {|
  responses := sample_responses;
  responses_ascii := sample_responses_ascii;
  py_repr := fun _ => lit "<object>";
  json_loads := fun _ => Raised (Exc JSONDecodeError []);
  parse_qsl := fun _ => [];
  unicode_error_str := fun _ _ => lit "<codec error>";
|}.

#[local] Existing Instance sample_builtins.

Definition CRLF : string :=
  String (ascii_of_nat 13) (String (ascii_of_nat 10) EmptyString).

(** [GET / HTTP/1.1] and [GET /hello HTTP/1.1], each with a [Host]
    header and no body. *)
Definition get_root : string :=
  "GET / HTTP/1.1" ++ CRLF ++ "Host: localhost" ++ CRLF ++ CRLF.
Definition get_hello : string :=
  "GET /hello HTTP/1.1" ++ CRLF ++ "Host: localhost" ++ CRLF ++ CRLF.
Definition get_missing : string :=
  "GET /nowhere HTTP/1.1" ++ CRLF ++ "Host: localhost" ++ CRLF ++ CRLF.

(** A request line and a header, but no blank line. *)
Definition no_blank : string := "GET / HTTP/1.1" ++ CRLF ++ "Host: localhost".

Definition home : Handler := fun _ => ret (PStr (lit "Welcome to the server!")).
Definition hello : Handler := fun _ => ret (PStr (lit "hello")).
(** A handler whose body is the one character U+00E9. *)
Definition cafe : Handler := fun _ => ret (PStr [233%N]).
(** A handler that returns a tuple of four. *)
Definition four : Handler :=
  fun _ => ret (PTuple [PStr (lit "a"); PInt 200; PDict []; PNone]).

(** The registry after [registerHandler('GET /', home)] and
    [registerHandler('GET /hello', hello)], with no global middleware. *)
Definition server : Server :=
  mkServer (<[lit "GET /hello" := hello]> (<[lit "GET /" := home]> ∅)) [].

Definition addr : list N * Z := (lit "127.0.0.1", 50000%Z).

(** A clock that advances by one unit per reading; the default limiter. *)
Definition world0 : World :=
  mkWorld (fun n => Z.of_nat n) 0 (RateLimiter_init 100 60) [].

(** A connection on which the peer sends the given chunks, then closes. *)
Definition connection (chunks : list string) : Conn :=
  mkConn world0 chunks [] false.

(** What the worker does with two requests arriving in two reads. *)
Definition two_requests : outcome pyobj * Conn :=
  handleConnection server addr (connection [get_root; get_hello]).

(** The request [dict] the worker builds from [get_root] and from
    [get_missing]. *)
Definition root_request : Request :=
  mkRequest (lit "GET") (lit "/") (<[lit "Host" := lit "localhost"]> ∅) []
    (Some (lit "127.0.0.1")) (Some (PStr [])).
Definition missing_request : Request :=
  mkRequest (lit "GET") (lit "/nowhere") (<[lit "Host" := lit "localhost"]> ∅) []
    (Some (lit "127.0.0.1")) (Some (PStr [])).

(** The text of [no_blank]. *)
Definition no_blank_text : list N :=
  lit "GET / HTTP/1.1" ++ crlf ++ lit "Host: localhost".

(** A registry whose root route returns a tuple of four. *)
Definition server_four : Server := mkServer (<[lit "GET /" := four]> ∅) [].

(** A registry with two announcing global middlewares and a root route
    registered with one announcing middleware of its own. *)
Definition server_announcing : Server :=
  mkServer
    (<[lit "GET /" := chainMiddlewares [announce (lit "route")] home]> ∅)
    [announce (lit "first"); announce (lit "second")].

(** A small limiter and a run in which client [a] makes two checks, with
    one of client [b] in between. *)
Definition small_limiter : RateLimiter := RateLimiter_init 2 60.
Definition run_a_b_a : list (list N * Z) :=
  [(lit "a", 0%Z); (lit "b", 5%Z); (lit "a", 10%Z)].

End Example.

(** ** The route that answers with one non-ASCII character *)

Module Cafe.
Import Example.
#[local] Existing Instance sample_builtins.

(** A registry whose root route answers with the character U+00E9. *)
Definition server : Server := mkServer (<[lit "GET /" := cafe]> ∅) [].

(** One request for the root route. *)
Definition one_request : outcome pyobj * Conn :=
  handleConnection server addr (connection [get_root]).

(** The response text up to and including the blank line, as it is sent
    for that request. *)
Definition head_sent : list N :=
  lit "HTTP/1.1 200 OK" ++ crlf
  ++ lit "Content-Type: application/json" ++ crlf
  ++ lit "Content-Length: 1" ++ crlf ++ crlf.
End Cafe.

(** * Further notions

    The rest of the source file, and the vocabulary of the properties
    proved about it at the end. *)

(** ** The rate limiter: allowed checks *)

(** The clock readings of the checks of [c] that were allowed along a run. *)
Definition allowed_times (c : list N) (self : RateLimiter)
  (calls : list (list N * Z)) : list Z :=
  map (fun p => snd (fst p))
    (filter (fun p => fst (fst p) = c /\ snd p = true)
       (zip calls (answers self calls))).

(** The reading of the latest check of [c] in a run ([0] when there is none). *)
Definition last_check (c : list N) (calls : list (list N * Z)) : Z :=
  List.last (times_of c calls) 0%Z.

Module Busy.
Import Example.

(** Client [a] checked at 0, 10, 20, 30 and 64, client [b] once in between. *)
Definition busy_run : list (list N * Z) :=
  [(lit "a", 0%Z); (lit "a", 10%Z); (lit "a", 20%Z); (lit "b", 25%Z);
   (lit "a", 30%Z); (lit "a", 64%Z)].

(** The same checks of [a] without those of [b]. *)
Definition quiet_run : list (list N * Z) :=
  [(lit "a", 0%Z); (lit "a", 10%Z); (lit "a", 20%Z); (lit "a", 30%Z);
   (lit "a", 64%Z)].

End Busy.

(** ** Requests as a client writes them *)

(** A header line: the name, a colon, a space, the value. *)
Definition header_line (h : list N * list N) : list N :=
  fst h ++ lit ": " ++ snd h.

(** A header line as the parser takes it apart: a name, a colon, and what
    follows the colon. *)
Definition colon_line (h : list N * list N) : list N :=
  fst h ++ lit ":" ++ snd h.

(** The text of a request: the request line, further lines, an empty line,
    the body. *)
Definition request_lines (verb path version : list N)
  (lines : list (list N)) (body : list N) : list N :=
  join crlf (join (lit " ") [verb; path; version] :: lines)
  ++ (crlf ++ crlf) ++ body.

(** The same with well-formed header lines. *)
Definition request_text (verb path version : list N)
  (hs : list (list N * list N)) (body : list N) : list N :=
  request_lines verb path version (map header_line hs) body.

(** The [headers] dict for a list of headers: a later header replaces an
    earlier one of the same name. *)
Definition headers_of (hs : list (list N * list N)) : gmap (list N) (list N) :=
  fold_left (fun m h => <[fst h := snd h]> m) hs ∅.

(** The [headers] dict for lines given by name and by what follows the
    colon: the first character after the colon is left out. *)
Definition headers_after_colon (raws : list (list N * list N))
  : gmap (list N) (list N) :=
  headers_of (map (fun h => (fst h, drop 1 (snd h))) raws).

(** A field of the request line: no carriage return and no space in it. *)
Definition field (s : list N) : Prop := (CR ∉ s) /\ (space ∉ s).

(** A header the parser can take apart: no carriage return in the name or
    in the value, no colon in the name. *)
Definition plain_header (h : list N * list N) : Prop :=
  (CR ∉ fst h) /\ (colon ∉ fst h) /\ (CR ∉ snd h).

(** The value of the last header named [name] in a list of headers. *)
Definition last_named (name : list N) (hs : list (list N * list N))
  : option (list N) :=
  snd <$> last (filter (fun h => fst h = name) hs).

Module Upload.
Import Example.

(** A request whose body holds an empty line. *)
Definition two_paragraphs : string :=
  "POST /notes HTTP/1.1" ++ CRLF ++ "Host: localhost" ++ CRLF ++ CRLF
  ++ "first paragraph" ++ CRLF ++ CRLF ++ "second paragraph".

(** Its request line and header. *)
Definition two_paragraphs_head : list N :=
  lit "POST /notes HTTP/1.1" ++ crlf ++ lit "Host: localhost".

(** Headers written with and without a space after the colon, and one
    repeated. *)
Definition some_headers : list (list N * list N) :=
  [(lit "Host", lit "localhost"); (lit "Accept", lit "text/html");
   (lit "Accept", lit "*/*")].
Definition some_colon_lines : list (list N * list N) :=
  [(lit "Host", lit "localhost"); (lit "Accept", lit "  text/html");
   (lit "X-Empty", [])].

End Upload.

(** ** Setting up the registry *)

Section Registrations.
Context `{Builtins}.

(** The calls that change the registry: [registerHandler(path, handler)],
    [register(path, middleware)(func)] with [func.__name__ = name], and
    [beforeAll()(func)]. *)
Inductive registration :=
| RegisterHandler (path : list N) (handler : Handler)
| Register (path : list N) (middleware : middleware_arg) (name : list N)
    (func : Handler)
| BeforeAll (func : Middleware).

Definition perform (self : Server) (r : registration) : outcome Server :=
  match r with
  | RegisterHandler path handler => registerHandler self path handler
  | Register path middleware name func =>
      match register path middleware with
      | Done decorate => Done (decorate name func self)
      | Raised e => Raised e
      end
  | BeforeAll func => Done (beforeAll func self)
  end.

(** The registry after a sequence of such calls, made one after the other
    on a new registry; a call that raises leaves the registry as it was. *)
Definition registered (rs : list registration) : Server :=
  fold_left (fun self r => match perform self r with
                           | Done self' => self'
                           | Raised _ => self
                           end) rs Server_init.

(** The functions given to [beforeAll], in the order of the calls. *)
Definition global_middlewares (rs : list registration) : list Middleware :=
  omap (fun r => match r with BeforeAll func => Some func | _ => None end) rs.

End Registrations.

(** What has been sent grows by one message at most. *)
Definition one_more (before after : list string) : Prop :=
  after = before \/ exists data, after = before ++ [data].

(** [n] octets of value zero. *)
Fixpoint nuls (n : nat) : string :=
  match n with
  | O => EmptyString
  | S n' => String zero (nuls n')
  end.

Module Faulty.
Import Example.
#[local] Existing Instance sample_builtins.

(** A handler that raises [RuntimeError('no database')]. *)
Definition broken : Handler :=
  fun _ => raise (Exc (UserException "RuntimeError") [PStr (lit "no database")]).

(** [broken] registered through [register], and stored as it is. *)
Definition server_wrapped : Server :=
  mkServer (<[lit "GET /" := wrapper (lit "broken") broken]> ∅) [].
Definition server_bare : Server := mkServer (<[lit "GET /" := broken]> ∅) [].

(** A handler that opens a file that is not there, registered through
    [register]: [str()] of the [FileNotFoundError] names the file, which is
    not among its [args]. *)
Definition no_such_file : exn :=
  Exc (OwnStrException "FileNotFoundError"
         (lit "[Errno 2] No such file or directory: 'data.csv'"))
    [PInt 2; PStr (lit "No such file or directory")].
Definition reader : Handler := fun _ => raise no_such_file.
Definition server_reader : Server :=
  mkServer (<[lit "GET /" := wrapper (lit "reader") reader]> ∅) [].

(** A request with a verb that no route can have. *)
Definition trace_root : string :=
  "TRACE / HTTP/1.1" ++ CRLF ++ "Host: localhost" ++ CRLF ++ CRLF.
Definition trace_request : Request :=
  mkRequest (lit "TRACE") (lit "/") (<[lit "Host" := lit "localhost"]> ∅) []
    (Some (lit "127.0.0.1")) (Some (PStr [])).

(** A registry set up by calls of which one is refused. *)
Definition setup : list registration :=
  [RegisterHandler (lit "GET /") home;
   RegisterHandler (lit "TRACE /") home;
   BeforeAll (announce (lit "first"));
   Register (lit "GET /hello") NoMiddleware (lit "hello") hello].

(** A handler that answers with a lone surrogate. *)
Definition surrogate : Handler := fun _ => ret (PStr [55296%N]).
Definition server_surrogate : Server :=
  mkServer (<[lit "GET /" := surrogate]> ∅) [].

(** A chunk that is not UTF-8: the octet E9 on its own. *)
Definition latin1 : string := String (ascii_of_nat 233) EmptyString.

End Faulty.

(** The items of a [dict] whose keys and values are [str]. *)
Definition str_items (items : list (list N * list N)) : list (pyobj * pyobj) :=
  map (fun '(k, v) => (PStr k, PStr v)) items.

Module Forms.
Import Example.

(** A runtime whose [json.loads] refuses everything and whose [parse_qsl]
    gives a field twice. *)
Definition refusing_builtins : Builtins := {|
  responses := sample_responses;
  responses_ascii := sample_responses_ascii;
  py_repr := fun _ => lit "<object>";
  json_loads := fun _ => Raised (Exc JSONDecodeError []);
  parse_qsl := fun _ => [(lit "a", lit "1"); (lit "b", lit "2"); (lit "a", lit "3")];
  unicode_error_str := fun _ _ => lit "<codec error>";
|}.

(** A request that announces a JSON body. *)
Definition json_headers : list (list N * list N) :=
  [(lit "Host", lit "localhost");
   (lit "Content-Type", lit "application/json; charset=utf-8")].
Definition post_json : string :=
  "POST /nowhere HTTP/1.1" ++ CRLF ++ "Host: localhost" ++ CRLF
  ++ "Content-Type: application/json; charset=utf-8" ++ CRLF ++ CRLF
  ++ "{not json".

(** Its text, and what the parser makes of it. *)
Definition post_json_text : list N :=
  lit "POST /nowhere HTTP/1.1" ++ crlf ++ lit "Host: localhost" ++ crlf
  ++ lit "Content-Type: application/json; charset=utf-8" ++ crlf ++ crlf
  ++ lit "{not json".
Definition post_json_parsed : Request :=
  mkRequest (lit "POST") (lit "/nowhere") (headers_of json_headers)
    (lit "{not json") None None.

End Forms.

(** ** [cors_middleware]

    The middleware applies [len], indexing and [update] to what the handler
    returned.  On the objects of the model these are the operations of
    Python's built-in types.  On an object of another type they are the
    business of its class: a parameter.

    The model has values, not references: a result is described by the
    values of its components, taken to be distinct objects, so that the
    [update] of the headers changes nothing else in the result. *)

Class Foreign := {
  (** [len(o)] *)
  foreign_len : list N -> outcome nat;
  (** [o[i]] *)
  foreign_getitem : list N -> nat -> outcome pyobj;
  (** [o.update(d)], giving the object as it is afterwards *)
  foreign_update : list N -> list (list N * pyobj) -> outcome pyobj;
  (** whether the object, as a key of a [dict], is the key [i], the key [s] *)
  foreign_eq_int : list N -> nat -> bool;
  foreign_eq_str : list N -> list N -> bool;
}.

(** [type(o).__name__] for the built-in types. *)
Definition type_name (o : pyobj) : list N :=
  match o with
  | PNone => lit "NoneType"
  | PBool _ => lit "bool"
  | PInt _ => lit "int"
  | PStr _ => lit "str"
  | PList _ => lit "list"
  | PTuple _ => lit "tuple"
  | PDict _ => lit "dict"
  | PObj _ => lit "object"
  end.

Definition no_len (o : pyobj) : exn :=
  Exc TypeError
    [PStr (lit "object of type '" ++ type_name o ++ lit "' has no len()")].
Definition not_subscriptable (o : pyobj) : exn :=
  Exc TypeError [PStr (lit "'" ++ type_name o ++ lit "' object is not subscriptable")].
Definition index_out_of_range (o : pyobj) : exn :=
  Exc IndexError
    [PStr (match o with
           | PStr _ => lit "string"
           | _ => type_name o
           end ++ lit " index out of range")].
Definition no_update (o : pyobj) : exn :=
  Exc AttributeError
    [PStr (lit "'" ++ type_name o ++ lit "' object has no attribute 'update'")].

Section Cors.
Context `{Foreign}.

(** [len(o)] *)
Definition py_len (o : pyobj) : outcome nat :=
  match o with
  | PStr s => Done (length s)
  | PList items | PTuple items => Done (length items)
  | PDict items => Done (length items)
  | PObj text => foreign_len text
  | PNone | PBool _ | PInt _ => Raised (no_len o)
  end.

(** Whether a key of a [dict] is the key [i], an [int]: [True] is the key
    [1] and [False] the key [0]. *)
Definition key_is_int (i : nat) (k : pyobj) : bool :=
  match k with
  | PInt n => (n =? Z.of_nat i)%Z
  | PBool b => ((if b then 1 else 0) =? i)%nat
  | PObj text => foreign_eq_int text i
  | _ => false
  end.

(** Whether a key of a [dict] is the key [s], a [str]. *)
Definition key_is_str (s : list N) (k : pyobj) : bool :=
  match k with
  | PStr s' => str_eqb s' s
  | PObj text => foreign_eq_str text s
  | _ => false
  end.

(** [o[i]] for an index written as a literal that is not negative. *)
Definition py_getitem (o : pyobj) (i : nat) : outcome pyobj :=
  match o with
  | PStr s =>
      match s !! i with
      | Some ch => Done (PStr [ch])
      | None => Raised (index_out_of_range o)
      end
  | PList items | PTuple items =>
      match items !! i with
      | Some x => Done x
      | None => Raised (index_out_of_range o)
      end
  | PDict items =>
      match list_find (fun kv => key_is_int i (fst kv) = true) items with
      | Some (_, kv) => Done (snd kv)
      | None => Raised (Exc KeyError [PInt (Z.of_nat i)])
      end
  | PObj text => foreign_getitem text i
  | PNone | PBool _ | PInt _ => Raised (not_subscriptable o)
  end.

(** [d[k] = v] on the items of a [dict], for a [str] key: the value of the
    key is replaced where the key is, a new key goes to the end. *)
Fixpoint dict_setitem (k : list N) (v : pyobj) (d : list (pyobj * pyobj))
  : list (pyobj * pyobj) :=
  match d with
  | [] => [(PStr k, v)]
  | (k', v') :: d' =>
      if key_is_str k k' then (k', v) :: d' else (k', v') :: dict_setitem k v d'
  end.

(** [o.update(new)] for a [dict] literal [new] with [str] keys, giving the
    object as it is afterwards. *)
Definition py_update (o : pyobj) (new : list (list N * pyobj)) : outcome pyobj :=
  match o with
  | PDict items =>
      Done (PDict (fold_left (fun d '(k, v) => dict_setitem k v d) new items))
  | PObj text => foreign_update text new
  | _ => Raised (no_update o)
  end.

(** The [dict] literal of [cors_middleware]. *)
Definition cors_headers : list (list N * pyobj) :=
  [(lit "Access-Control-Allow-Origin", PStr (lit "*"));
   (lit "Access-Control-Allow-Methods",
    PStr (lit "GET, POST, PUT, DELETE, OPTIONS"));
   (lit "Access-Control-Allow-Headers", PStr (lit "Content-Type"))].

(** [cors_middleware] *)
Definition cors_middleware (f : Handler) : Handler :=
  fun request =>
    response <- f request ;;
    n <- lift (py_len response) ;;
    headers <- lift (if (n =? 3)%nat then py_getitem response 2
                     else Done (PDict [])) ;;
    headers <- lift (py_update headers cors_headers) ;;
    first <- lift (py_getitem response 0) ;;
    second <- lift (py_getitem response 1) ;;
    ret (PTuple [first; second; headers]).

End Cors.

(** A [dict] whose keys are [str], by its items in order. *)
Definition str_keyed (named : list (list N * pyobj)) : list (pyobj * pyobj) :=
  map (fun kv => (PStr (fst kv), snd kv)) named.

(** [d[k] = v] on such items. *)
Fixpoint named_set (k : list N) (v : pyobj) (d : list (list N * pyobj))
  : list (list N * pyobj) :=
  match d with
  | [] => [(k, v)]
  | (k', v') :: d' =>
      if str_eqb k' k then (k', v) :: d' else (k', v') :: named_set k v d'
  end.

(** [d.get(k)] on such items. *)
Fixpoint named_get (k : list N) (d : list (list N * pyobj)) : option pyobj :=
  match d with
  | [] => None
  | (k', v') :: d' => if str_eqb k' k then Some v' else named_get k d'
  end.

(** The items with the headers of [cors_middleware] set. *)
Definition with_cors (named : list (list N * pyobj)) : list (list N * pyobj) :=
  fold_left (fun d '(k, v) => named_set k v d) cors_headers named.

(** The header lines of [cors_middleware] as they are written. *)
Definition cors_lines : list N :=
  lit "Access-Control-Allow-Origin: *" ++ crlf
  ++ lit "Access-Control-Allow-Methods: GET, POST, PUT, DELETE, OPTIONS" ++ crlf
  ++ lit "Access-Control-Allow-Headers: Content-Type" ++ crlf.

Module Shared.
Import Example.

(** No object of another type is used in the examples. *)
Definition no_foreign : Foreign := {|
  foreign_len := fun _ => Raised (Exc TypeError []);
  foreign_getitem := fun _ _ => Raised (Exc TypeError []);
  foreign_update := fun _ _ => Raised (Exc AttributeError []);
  foreign_eq_int := fun _ _ => false;
  foreign_eq_str := fun _ _ => false;
|}.

(** The handler of the example in the source: it answers with a [dict]. *)
Definition get_data : Handler :=
  fun _ => ret (PDict (str_keyed [(lit "message",
                                   PStr (lit "This is some API data"))])).

(** The registry of the example: [register('GET /')] around
    [cors_middleware] around [get_data]. *)
Definition server_cors : Server :=
  mkServer
    (<[lit "GET /" :=
         wrapper (H := sample_builtins) (lit "get_data")
           (cors_middleware (H := no_foreign) get_data)]> ∅) [].

(** A state whose limiter allows nothing. *)
Definition world_closed : World :=
  mkWorld (fun n => Z.of_nat n) 0 (RateLimiter_init 0 60) [].

End Shared.

(** The text of a response with the headers of [cors_middleware] and no
    others, for a body that is a [str]. *)
Definition cors_response `{Builtins} (code : Z) (body : list N) : list N :=
  lit "HTTP/1.1 " ++ of_Z code ++ lit " " ++ reason code ++ crlf
  ++ lit "Content-Type: application/json" ++ crlf
  ++ lit "Content-Length: " ++ of_nat (length body) ++ crlf
  ++ cors_lines ++ crlf ++ body.

(** ** Static files

    [serve_static] asks the file system whether a path exists, reads a
    file and asks [mimetypes] for its type.  These, and the directory of
    the configuration, are parameters. *)

Class Files := {
  (** [config.STATIC_DIR] *)
  STATIC_DIR : list N;
  (** [os.path.exists(p)] *)
  path_exists : list N -> bool;
  (** [open(p, 'rb')] followed by [file.read()] *)
  read_file : list N -> outcome string;
  (** the first component of [mimetypes.guess_type(p)] *)
  guess_type : list N -> option (list N);
}.

Definition slash : N := 47.

(** [os.path.join(a, b)] of [posixpath]. *)
Definition path_join (a b : list N) : list N :=
  if startswith [slash] b then b
  else match a with
       | [] => b
       | _ => if (List.last a 0 =? slash)%N then a ++ b else a ++ [slash] ++ b
       end.

(** One octet in the [repr] of a [bytes] object delimited by [q]. *)
Definition repr_byte (q c : N) : list N :=
  (if (c =? q) || (c =? backslash) then [backslash; c]
   else if c =? 9 then [backslash; 116]
   else if c =? 10 then [backslash; 110]
   else if c =? 13 then [backslash; 114]
   else if (c <? 32) || (127 <=? c)
        then [backslash; 120; hex_digit (N.shiftr (N.land c 240) 4);
              hex_digit (N.land c 15)]
   else [c])%N.

(** [repr(b)], which is also [str(b)], for a [bytes] object: [b'...'], with
    double quotes when the content has a single quote and no double one. *)
Definition bytes_repr (b : string) : list N :=
  let bs := octets b in
  let q := (if existsb (N.eqb 39) bs && negb (existsb (N.eqb 34) bs)
            then 34 else 39)%N in
  [98%N; q] ++ concat (map (repr_byte q) bs) ++ [q].

Section Static.
Context `{Builtins} `{Files}.

(** [serve_static] *)
Definition serve_static (path : list N) : outcome pyobj :=
  let full_path := path_join STATIC_DIR path in
  if path_exists full_path then
    match read_file full_path with
    | Raised e => Raised e
    | Done content =>
        let content_type := guess_type full_path in
        Done (PTuple
                [PObj (bytes_repr content); PInt 200;
                 PDict [(PStr (lit "Content-Type"),
                         PStr (match content_type with
                               | Some (ch :: s) => ch :: s
                               | _ => lit "application/octet-stream"
                               end))]])
    end
  else Done (PTuple [PStr (lit "File not found"); PInt 404]).

(** The [static_handler] of [Server.static]. *)
Definition static_handler (file_path : list N) : Handler :=
  fun request => lift (serve_static file_path).

(** [Server.static] *)
Definition static (self : Server) (url_path file_path : list N)
  : outcome Server :=
  match register (lit "GET " ++ url_path) NoMiddleware with
  | Raised e => Raised e
  | Done decorate =>
      Done (decorate (lit "static_handler") (static_handler file_path) self)
  end.

(** The text of the response for a file: the two [Content-Type] lines, and
    the [repr] of the content as the body. *)
Definition file_response (content_type : list N) (content : string) : list N :=
  lit "HTTP/1.1 200 " ++ reason 200 ++ crlf
  ++ lit "Content-Type: application/json" ++ crlf
  ++ lit "Content-Length: " ++ of_nat (length (bytes_repr content)) ++ crlf
  ++ lit "Content-Type: " ++ content_type ++ crlf
  ++ crlf ++ bytes_repr content.

End Static.

Module Site.
Import Example.

(** A directory [static] with one file, [static/hello.txt], five octets
    long, and a directory [static/private], which [open] refuses with an
    [IsADirectoryError]. *)
Definition one_file : Files := {|
  STATIC_DIR := lit "static";
  path_exists := fun p => str_eqb p (lit "static/hello.txt")
                          || str_eqb p (lit "static/private");
  read_file := fun p =>
    if str_eqb p (lit "static/hello.txt") then Done "hello"
    else Raised (Exc (OwnStrException "IsADirectoryError"
                        (lit "[Errno 21] Is a directory: 'static/private'"))
                   [PInt 21; PStr (lit "Is a directory")]);
  guess_type := fun p =>
    if str_eqb p (lit "static/hello.txt") then Some (lit "text/plain") else None;
|}.

Definition get_file : string :=
  "GET /hello HTTP/1.1" ++ CRLF ++ "Host: localhost" ++ CRLF ++ CRLF.
Definition file_request : Request :=
  mkRequest (lit "GET") (lit "/hello") (<[lit "Host" := lit "localhost"]> ∅) []
    (Some (lit "127.0.0.1")) (Some (PStr [])).

(** The registry after [static('/hello', 'hello.txt')], and after
    [static('/hello', 'missing.txt')]. *)
Definition server : Server :=
  mkServer
    (<[lit "GET /hello" :=
         wrapper (H := sample_builtins) (lit "static_handler")
           (static_handler (H0 := one_file) (lit "hello.txt"))]> ∅) [].
Definition server_missing : Server :=
  mkServer
    (<[lit "GET /hello" :=
         wrapper (H := sample_builtins) (lit "static_handler")
           (static_handler (H0 := one_file) (lit "missing.txt"))]> ∅) [].

(** The registry after [static('/hello', 'private')], and the exception
    that reading the directory raises. *)
Definition server_private : Server :=
  mkServer
    (<[lit "GET /hello" :=
         wrapper (H := sample_builtins) (lit "static_handler")
           (static_handler (H0 := one_file) (lit "private"))]> ∅) [].
Definition is_a_directory : exn :=
  Exc (OwnStrException "IsADirectoryError"
         (lit "[Errno 21] Is a directory: 'static/private'"))
    [PInt 21; PStr (lit "Is a directory")].

End Site.

(** * Theorems *)

(** ** Text: prefixes, cutting at a separator, searching, UTF-8 *)

Section Prefixes.

Lemma startswith_iff (p s : list N) :
  startswith p s = true <-> exists r, s = p ++ r.
Proof.
  revert s. induction p as [|a p IH]; intros s; simpl.
  - split; [eauto | done].
  - destruct s as [|b s].
    + split; [done | intros [r Hr]; discriminate].
    + destruct (N.eqb_spec a b) as [->|Hne].
      * rewrite IH. split; intros [r Hr]; exists r; [by rewrite Hr | by simplify_eq].
      * split; [done | intros [r Hr]; by simplify_eq].
Qed.

Lemma startswith_app (p r : list N) : startswith p (p ++ r) = true.
Proof. apply startswith_iff. eauto. Qed.

Lemma startswith_drop (p s : list N) :
  startswith p s = true -> s = p ++ drop (length p) s.
Proof.
  intros Hp. apply startswith_iff in Hp as [r ->].
  by rewrite drop_app_length.
Qed.

End Prefixes.

Section Splitting.

Lemma split_aux_nonempty (sep : list N) skip cur (s : list N) :
  split_aux sep skip cur s ≠ [].
Proof.
  revert skip cur. induction s as [|c s IH]; intros skip cur; simpl; [done|].
  destruct skip; [|apply IH]. by case_match.
Qed.

(** Without an occurrence of the separator there is one piece. *)
Lemma split_aux_absent (sep cur s : list N) :
  (forall a b, s ≠ a ++ sep ++ b) -> split_aux sep 0 cur s = [rev cur ++ s].
Proof.
  revert cur. induction s as [|c s IH]; intros cur Habs; simpl.
  - by rewrite app_nil_r.
  - destruct (startswith sep (c :: s)) eqn:Hs.
    + apply startswith_iff in Hs as [r Hr]. by destruct (Habs [] r).
    + rewrite IH.
      * simpl. by rewrite <- app_assoc.
      * intros a b ->. by apply (Habs (c :: a) b).
Qed.

Lemma split_absent (sep s : list N) :
  (forall a b, s ≠ a ++ sep ++ b) -> split sep s = [s].
Proof. intros Habs. unfold split. by rewrite split_aux_absent. Qed.

(** Cutting at one character gives one piece more than there are
    occurrences of it. *)
Lemma split_aux_char_length (x : N) (cur s : list N) :
  length (split_aux [x] 0 cur s) = S (count_occ N.eq_dec s x).
Proof.
  revert cur. induction s as [|c s IH]; intros cur; [done|].
  cbn [split_aux startswith length Nat.sub count_occ].
  destruct (N.eqb_spec x c) as [->|Hne].
  - destruct (N.eq_dec c c); [|done]. simpl. by rewrite IH.
  - destruct (N.eq_dec c x); [by subst|]. apply IH.
Qed.

Lemma split_char_length (x : N) (s : list N) :
  length (split [x] s) = S (count_occ N.eq_dec s x).
Proof. apply split_aux_char_length. Qed.

Lemma find_char_absent (x : N) (s : list N) : x ∉ s -> find [x] s = None.
Proof.
  induction s as [|c s IH]; intros Hx; [done|].
  cbn [find startswith].
  destruct (N.eqb_spec x c) as [->|Hne].
  - exfalso. apply Hx. constructor.
  - rewrite IH; [done|]. intros Hin. apply Hx. by constructor.
Qed.

End Splitting.

Section Searching.

Lemma find_None_startswith (sep s : list N) :
  find sep s = None -> startswith sep s = false.
Proof. destruct s; simpl; destruct (startswith sep _); done. Qed.

Lemma find_None_absent (sep s : list N) :
  find sep s = None -> forall a b, s ≠ a ++ sep ++ b.
Proof.
  intros Hf a. revert s Hf. induction a as [|x a IH]; intros s Hf b Hs.
  - subst s. apply find_None_startswith in Hf. simpl in Hf.
    by rewrite startswith_app in Hf.
  - subst s. pose proof (find_None_startswith _ _ Hf) as Hst.
    cbn [app find] in Hf. cbn [app] in Hst. rewrite Hst in Hf.
    destruct (find sep (a ++ sep ++ b)) eqn:E; [done|].
    by apply (IH _ E b).
Qed.

End Searching.

Section Encoding.

Lemma is_ascii_app (a b : list N) : is_ascii (a ++ b) = is_ascii a && is_ascii b.
Proof. unfold is_ascii. apply forallb_app. Qed.

Lemma utf8_ascii (s : list N) : is_ascii s = true -> utf8 s = Some s.
Proof.
  induction s as [|c s IH]; [done|]. simpl. intros Hc.
  apply andb_true_iff in Hc as [Hc Hs]. rewrite (IH Hs).
  unfold utf8_char. by rewrite Hc.
Qed.

Lemma utf8_char_length (c : N) (bs : list N) :
  utf8_char c = Some bs ->
  (1 <= length bs)%nat /\ ((128 <= c)%N -> (2 <= length bs)%nat).
Proof.
  unfold utf8_char. intros Hc.
  repeat (case_match; simplify_eq); simpl; split; try lia.
  intros Hge. rewrite N.ltb_lt in *. lia.
Qed.

(** The encoded text is at least as long as the text, and longer as soon
    as one character is not ASCII. *)
Lemma utf8_length (s bs : list N) :
  utf8 s = Some bs ->
  (length s <= length bs)%nat
  /\ (is_ascii s = false -> (length s < length bs)%nat).
Proof.
  revert bs. induction s as [|c s IH]; intros bs Hs; simpl in *.
  - simplify_eq. split; [done | discriminate].
  - destruct (utf8_char c) as [cs|] eqn:Ec; [|done].
    destruct (utf8 s) as [rest|] eqn:Er; [|done]. simplify_eq.
    destruct (IH rest eq_refl) as [Hle Hlt].
    destruct (utf8_char_length c cs Ec) as [H1 H2].
    rewrite length_app. split; [lia|].
    intros Hna. apply andb_false_iff in Hna as [Hc|Hs'].
    + apply N.ltb_ge in Hc. specialize (H2 Hc). lia.
    + specialize (Hlt Hs'). lia.
Qed.

Lemma utf8_app (a b : list N) :
  utf8 (a ++ b) = match utf8 a, utf8 b with
                  | Some x, Some y => Some (x ++ y)
                  | _, _ => None
                  end.
Proof.
  induction a as [|c a IH]; simpl.
  - by destruct (utf8 b).
  - rewrite IH. destruct (utf8_char c), (utf8 a), (utf8 b); simpl; try done.
    by rewrite app_assoc.
Qed.

(** Decimal numerals are ASCII. *)
Lemma string_of_uint_ascii (d : Decimal.uint) :
  is_ascii (lit (NilEmpty.string_of_uint d)) = true.
Proof. induction d; simpl; done. Qed.

Lemma of_Z_ascii (n : Z) : is_ascii (of_Z n) = true.
Proof.
  unfold of_Z, NilZero.string_of_int.
  destruct (Z.to_int n) as [d|d]; unfold NilZero.string_of_uint.
  - destruct d; try apply string_of_uint_ascii; done.
  - change (is_ascii (lit (String "-" (match d with Decimal.Nil => "0" | _ => NilEmpty.string_of_uint d end))) = true).
    destruct d; try apply (string_of_uint_ascii); done.
Qed.

Lemma of_nat_ascii (n : nat) : is_ascii (of_nat n) = true.
Proof. apply of_Z_ascii. Qed.

End Encoding.

(** ** Responses and their length header *)

Section Responses.
Context `{Builtins}.

Lemma encode_ascii (s : list N) : is_ascii s = true -> encode s = Done (of_octets s).
Proof. intros Hs. unfold encode. by rewrite utf8_ascii. Qed.

Lemma reason_ascii (code : Z) : is_ascii (reason code) = true.
Proof.
  unfold reason. destruct (responses code) as [phrase|] eqn:E; simpl.
  - by apply (responses_ascii code).
  - done.
Qed.

Lemma response_text_plain (code : Z) (body : list N) :
  response_text (PStr body) (PInt code) default_headers default_contentType
  = Done (plain_response code body).
Proof.
  unfold response_text, responses_get, plain_response, reason.
  cbn [hashable py_str extra_headers default_headers map concat].
  f_equal. rewrite app_nil_r. repeat rewrite <- app_assoc. reflexivity.
Qed.

Lemma plain_response_ascii (code : Z) (body : list N) :
  is_ascii body = true -> is_ascii (plain_response code body) = true.
Proof.
  intros Hb. unfold plain_response.
  repeat rewrite is_ascii_app.
  by rewrite of_Z_ascii, reason_ascii, of_nat_ascii, Hb.
Qed.

Lemma writeReponse_plain (code : Z) (body : list N) :
  is_ascii body = true ->
  writeReponse (PStr body) (PInt code) default_headers default_contentType
  = Done (of_octets (plain_response code body)).
Proof.
  intros Hb. unfold writeReponse. rewrite response_text_plain.
  by apply encode_ascii, plain_response_ascii.
Qed.

Lemma respond_plain (code : Z) (body : list N) (c : Conn) :
  is_ascii body = true ->
  respond (PStr body) (PInt code) default_headers c
  = (Done (Return PNone), after_send c (of_octets (plain_response code body))).
Proof.
  intros Hb. unfold respond, bind, lift. by rewrite writeReponse_plain.
Qed.

Lemma deliver_pair_plain (code : Z) (body : list N) (c : Conn) :
  is_ascii body = true ->
  deliver (PTuple [PStr body; PInt code]) c
  = (Done (Return PNone), after_send c (of_octets (plain_response code body))).
Proof.
  intros Hb. unfold deliver, bind, lift. simpl. by apply respond_plain.
Qed.

End Responses.

Section ContentLength.
Context `{Builtins}.

Lemma Done_inj {A} (a b : A) : Done a = Done b -> a = b.
Proof. by intros [= ->]. Qed.

(** The layout of every response: the status line and the content type,
    then the length of [str(resp)] in characters, the extra headers, a
    blank line, and [str(resp)]. *)
Lemma response_text_layout resp code headers contentType text :
  response_text resp code headers contentType = Done text ->
  exists status extra,
    text = status ++ lit "Content-Length: " ++ of_nat (content_length resp)
           ++ crlf ++ extra ++ crlf ++ py_str resp.
Proof.
  unfold response_text. intros Ht.
  destruct (responses_get code) as [codeMessage|]; [|done].
  destruct (extra_headers headers) as [extra|]; [|done].
  apply Done_inj in Ht. subst text.
  exists (lit "HTTP/1.1 " ++ py_str code ++ lit " " ++ codeMessage ++ crlf
          ++ lit "Content-Type: " ++ contentType ++ crlf), extra.
  unfold content_length. by repeat rewrite <- app_assoc.
Qed.

(** What is sent ends with the octets of the body, and these are as many
    as the header says exactly when the body text is ASCII. *)
Lemma writeReponse_body resp code headers contentType out :
  writeReponse resp code headers contentType = Done out ->
  exists head bs,
    out = of_octets (head ++ bs)
    /\ body_octets resp = Some bs
    /\ (content_length resp <= length bs)%nat
    /\ (is_ascii (py_str resp) = true -> content_length resp = length bs)
    /\ (is_ascii (py_str resp) = false -> (content_length resp < length bs)%nat).
Proof.
  unfold writeReponse. intros Hout.
  destruct (response_text resp code headers contentType) as [text|] eqn:Ht;
    [|done].
  destruct (response_text_layout _ _ _ _ _ Ht) as (status & extra & ->).
  unfold encode in Hout.
  assert (Hshape : status ++ lit "Content-Length: " ++ of_nat (content_length resp)
                     ++ crlf ++ extra ++ crlf ++ py_str resp
                   = (status ++ lit "Content-Length: " ++ of_nat (content_length resp)
                        ++ crlf ++ extra ++ crlf) ++ py_str resp).
  { by repeat rewrite <- app_assoc. }
  rewrite Hshape, utf8_app in Hout.
  destruct (utf8 (status ++ _)) as [head|]; [|done].
  destruct (utf8 (py_str resp)) as [bs|] eqn:Hbs; [|done].
  apply Done_inj in Hout. subst out. exists head, bs.
  destruct (utf8_length _ _ Hbs) as [Hle Hlt].
  unfold body_octets, content_length. repeat split; try done.
  intros Hascii. rewrite (utf8_ascii _ Hascii) in Hbs. congruence.
Qed.

End ContentLength.

Section JsonAscii.

Lemma hex_digit_ascii (x : N) : (hex_digit (N.land x 15) <? 128)%N = true.
Proof.
  assert (Hlt : (N.land x 15 < 16)%N).
  { change 15%N with (N.ones 4). rewrite N.land_ones. by apply N.mod_lt. }
  unfold hex_digit. apply N.ltb_lt. case_match; lia.
Qed.

Lemma u_escape_ascii (c : N) : is_ascii (u_escape c) = true.
Proof. unfold u_escape, is_ascii. simpl. by rewrite !hex_digit_ascii. Qed.

Lemma json_escape_ascii (c : N) : is_ascii (json_escape c) = true.
Proof.
  unfold json_escape.
  repeat (case_match; [done|]).
  case_match eqn:Hprint.
  - apply andb_true_iff in Hprint as [_ Hle]. apply N.leb_le in Hle.
    simpl. rewrite andb_true_r. apply N.ltb_lt. lia.
  - case_match; [apply u_escape_ascii|].
    cbv zeta. by rewrite is_ascii_app, !u_escape_ascii.
Qed.

Lemma json_quote_ascii (s : list N) : is_ascii (json_quote s) = true.
Proof.
  unfold json_quote. rewrite !is_ascii_app. simpl.
  rewrite andb_true_r. induction s as [|c s IH]; [done|].
  simpl. by rewrite is_ascii_app, json_escape_ascii.
Qed.

Lemma join_ascii (sep : list N) (parts : list (list N)) :
  is_ascii sep = true -> Forall (fun p => is_ascii p = true) parts ->
  is_ascii (join sep parts) = true.
Proof.
  intros Hsep. induction 1 as [|p parts Hp Hall IH]; [done|].
  cbn [join]. destruct parts as [|q parts]; [done|].
  by rewrite !is_ascii_app, Hp, Hsep, IH.
Qed.

Lemma json_key_ascii (k : pyobj) (s : list N) :
  json_key k = Some s -> is_ascii s = true.
Proof.
  destruct k as [|[|]| | | | | |]; simpl; intros [= <-]; try done;
    apply json_quote_ascii.
Qed.

(** The step shared by lists, tuples and dictionaries: the text is the
    pieces, joined, between two brackets; [Hs] says so, and what is left to
    prove is that the pieces are ASCII. *)
Ltac bracketed Hs s parts open close :=
  change (Some (lit open ++ join (lit ", ") parts ++ lit close) = Some s) in Hs;
  apply (inj Some) in Hs; subst s;
  rewrite !is_ascii_app; simpl; rewrite andb_true_r;
  apply join_ascii; [done|].

Lemma elems_ascii (items : list pyobj) (parts : list (list N)) :
  Forall (fun o => forall s, json_text o = Some s -> is_ascii s = true) items ->
  (fix elems (l : list pyobj) : option (list (list N)) :=
     match l with
     | [] => Some []
     | x :: r =>
         match json_text x, elems r with
         | Some a, Some b => Some (a :: b)
         | _, _ => None
         end
     end) items = Some parts ->
  Forall (fun p => is_ascii p = true) parts.
Proof.
  intros IH. revert parts. induction IH as [|x r Hx Hr IHr]; intros parts Hparts.
  - injection Hparts as <-. constructor.
  - destruct (json_text x) as [a|] eqn:Ha; [|done].
    match type of Hparts with context [?f r] => destruct (f r) as [b|] eqn:Hb end;
      [|done].
    injection Hparts as <-. constructor; [by apply Hx | by apply IHr].
Qed.

(** Whatever [json.dumps] produces is ASCII text. *)
Lemma json_text_ascii (o : pyobj) : forall s, json_text o = Some s -> is_ascii s = true.
Proof.
  induction o as [|b|n|s0|items IH|items IH|items IH|text] using pyobj_induction;
    intros s Hs.
  - by injection Hs as <-.
  - destruct b; by injection Hs as <-.
  - injection Hs as <-. apply of_Z_ascii.
  - injection Hs as <-. apply json_quote_ascii.
  - cbn [json_text] in Hs.
    match type of Hs with context [?f items] =>
      destruct (f items) as [parts|] eqn:Hparts; [|done] end.
    bracketed Hs s parts "[" "]". by apply (elems_ascii items).
  - cbn [json_text] in Hs.
    match type of Hs with context [?f items] =>
      destruct (f items) as [parts|] eqn:Hparts; [|done] end.
    bracketed Hs s parts "[" "]". by apply (elems_ascii items).
  - cbn [json_text] in Hs.
    match type of Hs with context [?f items] =>
      set (members := f) in *; destruct (members items) as [parts|] eqn:Hparts;
      [|done] end.
    bracketed Hs s parts "{" "}". clear -IH Hparts.
    revert parts Hparts. induction IH as [|[k v] r [Hk Hv] Hr IHr]; intros parts Hparts.
    + injection Hparts as <-. constructor.
    + simpl in Hparts. destruct (json_key k) as [a|] eqn:Ha; [|done].
      destruct (json_text v) as [b|] eqn:Hb; [|done].
      fold members in Hparts. destruct (members r) as [c|] eqn:Hc; [|done].
      injection Hparts as <-. constructor; [|by apply IHr].
      rewrite !is_ascii_app, (json_key_ascii k a Ha). simpl. by apply Hv.
  - done.
Qed.

End JsonAscii.

Section MappingBodies.
Context `{Builtins}.

(** For a mapping body the header is right: the JSON text is ASCII, so
    its characters are its octets. *)
Lemma mapping_content_length (items : list (pyobj * pyobj)) (resp : pyobj)
  (code headers : pyobj) (contentType : list N) (out : string) :
  checkIfResultIsDict (PDict items) = Done resp ->
  writeReponse resp code headers contentType = Done out ->
  exists head bs,
    out = of_octets (head ++ bs)
    /\ body_octets resp = Some bs
    /\ content_length resp = length bs.
Proof.
  intros Hchk Hout. unfold checkIfResultIsDict, json_dumps in Hchk.
  destruct (json_text (PDict items)) as [s|] eqn:Hs; [|done].
  apply Done_inj in Hchk. subst resp.
  destruct (writeReponse_body _ _ _ _ _ Hout) as (head & bs & -> & Hb & _ & Heq & _).
  exists head, bs. repeat split; [done|].
  apply Heq. simpl. by apply (json_text_ascii (PDict items)).
Qed.

End MappingBodies.

(** C4, at the input where it fails.  For the body "é" (the one character
    U+00E9) [__writeReponse] writes [Content-Length: 1] and then the two
    octets C3 A9: the header counts characters, the body has more octets.
    The same happens end to end for a route whose handler returns that
    text. *)
Theorem content_length_counts_characters `{Builtins} :
  writeReponse (PStr [233%N]) default_code default_headers default_contentType
  = Done (of_octets
            ((lit "HTTP/1.1 200 " ++ reason 200 ++ crlf
              ++ lit "Content-Type: application/json" ++ crlf
              ++ lit "Content-Length: 1" ++ crlf ++ crlf)
             ++ [195; 169]%N))
  /\ content_length (PStr [233%N]) = 1%nat
  /\ body_octets (PStr [233%N]) = Some [195; 169]%N
  /\ Cafe.one_request
     = (Done PNone,
        mkConn Example.world0 [] [of_octets (Cafe.head_sent ++ [195; 169]%N)] true).
Proof.
  split; [|split; [done|split; [done|by vm_compute]]].
  unfold writeReponse, default_code. rewrite response_text_plain.
  unfold encode, plain_response.
  assert (Hhead : is_ascii (lit "HTTP/1.1 " ++ of_Z 200 ++ lit " " ++ reason 200 ++ crlf
                            ++ lit "Content-Type: application/json" ++ crlf
                            ++ lit "Content-Length: " ++ of_nat 1 ++ crlf ++ crlf) = true).
  { repeat rewrite is_ascii_app. by rewrite reason_ascii. }
  replace (lit "HTTP/1.1 " ++ of_Z 200 ++ lit " " ++ reason 200 ++ crlf
           ++ lit "Content-Type: application/json" ++ crlf
           ++ lit "Content-Length: " ++ of_nat (length [233%N]) ++ crlf ++ crlf ++ [233%N])
    with ((lit "HTTP/1.1 " ++ of_Z 200 ++ lit " " ++ reason 200 ++ crlf
           ++ lit "Content-Type: application/json" ++ crlf
           ++ lit "Content-Length: " ++ of_nat 1 ++ crlf ++ crlf) ++ [233%N])
    by (simpl length; repeat rewrite <- app_assoc; reflexivity).
  rewrite utf8_app, (utf8_ascii _ Hhead). simpl utf8. reflexivity.
Qed.

(** A route returning the mapping [{"message": "hi"}] answers with status
    200, the JSON content type and the JSON text as body. *)
Example mapping_scenario :
  deliver (H := Example.sample_builtins)
    (PDict [(PStr (lit "message"), PStr (lit "hi"))]) (Example.connection [])
  = (Done (Return PNone),
     after_send (Example.connection [])
       (of_octets
          (plain_response (H := Example.sample_builtins) 200
             (lit "{" ++ [quote] ++ lit "message" ++ [quote] ++ lit ": "
              ++ [quote] ++ lit "hi" ++ [quote] ++ lit "}")))).
Proof. vm_compute. reflexivity. Qed.

(** ** The rate limiter *)

Section RateLimiterFacts.
Implicit Types (self : RateLimiter) (c : list N) (now : Z).

Lemma is_allowed_at_limit now self c :
  limit (snd (is_allowed_at now self c)) = limit self.
Proof. unfold is_allowed_at. by case_match. Qed.

Lemma is_allowed_at_window now self c :
  window (snd (is_allowed_at now self c)) = window self.
Proof. unfold is_allowed_at. by case_match. Qed.

Lemma is_allowed_at_same now self c :
  requests_of (snd (is_allowed_at now self c)) c
  = filter (fun t => now - t < window self)%Z (requests_of self c)
      ++ (if fst (is_allowed_at now self c) then [now] else []).
Proof.
  unfold is_allowed_at. case_match; unfold requests_of; simpl;
    rewrite lookup_insert_eq; simpl; [done | by rewrite app_nil_r].
Qed.

Lemma is_allowed_at_other now self c c' :
  c' ≠ c ->
  requests_of (snd (is_allowed_at now self c)) c' = requests_of self c'.
Proof.
  intros Hne. unfold is_allowed_at. case_match; unfold requests_of; simpl;
    by rewrite lookup_insert_ne.
Qed.

Lemma is_allowed_at_answer now self c :
  fst (is_allowed_at now self c) = true
  <-> (Z.of_nat (length (filter (fun t => now - t < window self)%Z
                          (requests_of self c))) < limit self)%Z.
Proof.
  unfold is_allowed_at. case_match eqn:E; simpl.
  - apply Z.ltb_lt in E. tauto.
  - apply Z.ltb_ge in E. split; [done | lia].
Qed.
End RateLimiterFacts.

Section RateLimiterRuns.
Implicit Types (self : RateLimiter) (c : list N) (now : Z).

Lemma run_calls_snoc self calls call :
  run_calls self (calls ++ [call])
  = snd (is_allowed_at (snd call) (run_calls self calls) (fst call)).
Proof. unfold run_calls. by rewrite fold_left_app. Qed.

Lemma run_calls_limit self calls : limit (run_calls self calls) = limit self.
Proof.
  revert self. induction calls as [|call calls IH]; intros self; [done|].
  cbn. change (limit (run_calls (snd (is_allowed_at (snd call) self (fst call))) calls) = limit self).
  by rewrite IH, is_allowed_at_limit.
Qed.

Lemma run_calls_window self calls : window (run_calls self calls) = window self.
Proof.
  revert self. induction calls as [|call calls IH]; intros self; [done|].
  change (window (run_calls (snd (is_allowed_at (snd call) self (fst call))) calls) = window self).
  by rewrite IH, is_allowed_at_window.
Qed.

(** Pruning only removes entries, and appending happens below the limit. *)
Lemma is_allowed_at_length now self c c' :
  (Z.of_nat (length (requests_of self c')) <= limit self)%Z ->
  (Z.of_nat (length (requests_of (snd (is_allowed_at now self c)) c'))
   <= limit self)%Z.
Proof.
  intros Hle. destruct (decide (c' = c)) as [->|Hne].
  - rewrite is_allowed_at_same.
    pose proof (length_filter (fun t => now - t < window self)%Z (requests_of self c)) as Hf.
    destruct (fst (is_allowed_at now self c)) eqn:E.
    + apply is_allowed_at_answer in E. rewrite length_app. simpl. lia.
    + rewrite app_nil_r. lia.
  - by rewrite is_allowed_at_other.
Qed.

Lemma run_calls_length self calls :
  (forall c, (Z.of_nat (length (requests_of self c)) <= limit self)%Z) ->
  forall c, (Z.of_nat (length (requests_of (run_calls self calls) c)) <= limit self)%Z.
Proof.
  induction calls as [|call calls IH] using rev_ind; intros Hinv c; [by apply Hinv|].
  rewrite run_calls_snoc.
  rewrite <- (run_calls_limit self calls).
  apply is_allowed_at_length. rewrite run_calls_limit. by apply IH.
Qed.

Lemma requests_of_init L W c : requests_of (RateLimiter_init L W) c = [].
Proof. unfold requests_of, RateLimiter_init. simpl. by rewrite lookup_empty. Qed.
End RateLimiterRuns.

(** C10.  On a limiter created with a limit [L] that is not negative, after
    any sequence of allow checks, for any clients and clock readings, no
    client's stored list of time stamps is longer than [L]. *)
Theorem requests_never_exceed_limit (L W : Z) (calls : list (list N * Z)) (c : list N) :
  (0 <= L)%Z ->
  (Z.of_nat (length (requests_of (run_calls (RateLimiter_init L W) calls) c)) <= L)%Z.
Proof.
  intros HL.
  change L with (limit (RateLimiter_init L W)) at 2.
  apply run_calls_length. intros c'. rewrite requests_of_init. simpl. lia.
Qed.

(** On the small limiter, after the run of [a], [b], [a]. *)
Lemma requests_never_exceed_limit_witness :
  (Z.of_nat (length (requests_of
                       (run_calls Example.small_limiter Example.run_a_b_a)
                       (lit "a"))) <= 2)%Z.
Proof.
  apply (requests_never_exceed_limit 2 60 Example.run_a_b_a (lit "a")). lia.
Defined.

Section RateLimiterOrder.
Implicit Types (self : RateLimiter) (c : list N) (now : Z).

Lemma StronglySorted_filter_le (P : Z -> Prop) `{forall t, Decision (P t)} (l : list Z) :
  StronglySorted Z.le l -> StronglySorted Z.le (filter P l).
Proof.
  induction 1 as [|t l Hs IH Hall]; [constructor|].
  rewrite filter_cons. case_decide; [|done].
  constructor; [done|].
  apply Forall_forall. intros u Hu. apply list_elem_of_filter in Hu as [_ Hu].
  rewrite Forall_forall in Hall. by apply Hall.
Qed.

Lemma StronglySorted_snoc_le (l : list Z) (x : Z) :
  StronglySorted Z.le l -> Forall (fun t => t <= x)%Z l ->
  StronglySorted Z.le (l ++ [x]).
Proof.
  induction 1 as [|t l Hs IH Hall]; intros Hb; simpl.
  - repeat constructor.
  - inversion Hb as [|? ? Ht Hb']; subst. constructor; [by apply IH|].
    apply Forall_app. split; [done | by constructor].
Qed.

Lemma is_allowed_at_ordered hi now self c :
  (hi <= now)%Z -> ordered_upto hi self ->
  ordered_upto now (snd (is_allowed_at now self c)).
Proof.
  intros Hhi Hinv c'. destruct (Hinv c') as [Hs Hb].
  assert (Hb' : Forall (fun t => t <= now)%Z (requests_of self c')).
  { eapply Forall_impl; [exact Hb|]. intros t Ht. simpl in Ht. lia. }
  destruct (decide (c' = c)) as [->|Hne]; [|by rewrite is_allowed_at_other].
  rewrite is_allowed_at_same.
  set (kept := filter _ _).
  assert (Hks : StronglySorted Z.le kept) by by apply StronglySorted_filter_le.
  assert (Hkb : Forall (fun t => t <= now)%Z kept).
  { apply Forall_forall. intros t Ht. apply list_elem_of_filter in Ht as [_ Ht].
    rewrite Forall_forall in Hb'. by apply Hb'. }
  destruct (fst _).
  - split; [by apply StronglySorted_snoc_le|].
    apply Forall_app. split; [done|]. constructor; [simpl; lia | constructor].
  - by rewrite app_nil_r.
Qed.

Lemma run_calls_ordered hi self calls :
  ordered_upto hi self ->
  StronglySorted Z.le (hi :: map snd calls) ->
  exists hi', ordered_upto hi' (run_calls self calls).
Proof.
  revert hi self. induction calls as [|[c now] calls IH]; intros hi self Hinv Hs.
  - by exists hi.
  - change (run_calls self ((c, now) :: calls))
      with (run_calls (snd (is_allowed_at now self c)) calls).
    inversion Hs as [|? ? Hs' Hall]; subst.
    assert (hi <= now)%Z by (by inversion Hall).
    apply (IH now); [by apply (is_allowed_at_ordered hi) | exact Hs'].
Qed.

(** After a check at [now], what is stored for the checked client is
    inside the window. *)
Lemma is_allowed_at_fresh now self c t :
  (0 <= window self)%Z ->
  t ∈ requests_of (snd (is_allowed_at now self c)) c ->
  (now - t <= window self)%Z.
Proof.
  intros HW. rewrite is_allowed_at_same. intros Ht.
  apply elem_of_app in Ht as [Ht|Ht].
  - apply list_elem_of_filter in Ht as [Ht _]. simpl in Ht. lia.
  - destruct (fst (is_allowed_at now self c)).
    + apply list_elem_of_singleton in Ht as ->. lia.
    + by apply elem_of_nil in Ht.
Qed.
End RateLimiterOrder.

Section RateLimiterWindow.
Implicit Types (self : RateLimiter) (c : list N) (now : Z).

Lemma is_allowed_at_agree now c self self' :
  agree_on c self self' ->
  fst (is_allowed_at now self c) = fst (is_allowed_at now self' c)
  /\ agree_on c (snd (is_allowed_at now self c)) (snd (is_allowed_at now self' c)).
Proof.
  intros (Hl & Hw & Hr).
  assert (Hfst : fst (is_allowed_at now self c) = fst (is_allowed_at now self' c)).
  { unfold is_allowed_at. rewrite Hl, Hw, Hr. by case_match. }
  split; [done|]. repeat split.
  - by rewrite !is_allowed_at_limit.
  - by rewrite !is_allowed_at_window.
  - by rewrite !is_allowed_at_same, Hfst, Hw, Hr.
Qed.

Lemma is_allowed_at_agree_other now c c' self :
  c' ≠ c -> agree_on c (snd (is_allowed_at now self c')) self.
Proof.
  intros Hne. repeat split.
  - apply is_allowed_at_limit.
  - apply is_allowed_at_window.
  - by apply is_allowed_at_other.
Qed.

Lemma answers_agree c self self' (times : list Z) :
  agree_on c self self' ->
  answers self (map (pair c) times) = answers self' (map (pair c) times).
Proof.
  revert self self'. induction times as [|t times IH]; intros self self' Hag; [done|].
  simpl. destruct (is_allowed_at_agree t c self self' Hag) as [-> Hag'].
  f_equal. by apply IH.
Qed.

(** Checks for other clients do not change what [c] is told. *)
Lemma answers_to_own c self calls :
  answers_to c self calls = answers self (map (pair c) (times_of c calls)).
Proof.
  revert self. induction calls as [|[c' t] calls IH]; intros self; [done|].
  unfold answers_to, times_of in *. simpl zip. rewrite !filter_cons. simpl.
  case_decide as Hc.
  - subst c'. simpl. f_equal. apply IH.
  - rewrite IH. apply answers_agree. by apply is_allowed_at_agree_other.
Qed.



(** Readings in non-decreasing order whose last is less than [W] after the
    first are pairwise less than [W] apart. *)
Lemma sorted_span_within (W first : Z) (times : list Z) (final : Z) :
  Sorted Z.le (first :: times ++ [final]) ->
  (final - first < W)%Z ->
  within W (first :: times ++ [final]).
Proof.
  intros Hs Hspan. unfold within.
  apply Sorted_StronglySorted in Hs; [|intros x y z; lia].
  assert (Hall : Forall (fun t => first <= t /\ t <= final)%Z (first :: times ++ [final])).
  { inversion Hs as [|? ? Hs' Hf]; subst.
    assert (first <= final)%Z.
    { rewrite Forall_app in Hf. destruct Hf as [_ Hf]. by inversion Hf. }
    constructor; [lia|].
    apply Forall_forall. intros t Ht. split.
    - rewrite Forall_forall in Hf. by apply Hf.
    - clear -Hs' Ht. induction times as [|a times IH]; simpl in *.
      + apply list_elem_of_singleton in Ht. lia.
      + inversion Hs' as [|? ? Hs'' Hf']; subst.
        apply elem_of_cons in Ht as [->|Ht]; [|by apply IH].
        rewrite Forall_app in Hf'. destruct Hf' as [_ Hf']. by inversion Hf'. }
  revert Hs Hall. generalize (first :: times ++ [final]) as l.
  induction l as [|a l IH]; intros Hs Hall; [constructor|].
  inversion Hs; subst. inversion Hall; subst.
  constructor; [by apply IH|].
  eapply Forall_impl; [eassumption|]. intros u Hu. simpl in Hu. lia.
Qed.




(** The state of [c] after a run is the state after [c]'s own checks. *)
Lemma run_calls_own c self calls :
  agree_on c (run_calls self calls)
    (run_calls self (map (pair c) (times_of c calls))).
Proof.
  revert self. induction calls as [|[c' t] calls IH]; intros self.
  - done.
  - change (run_calls self ((c', t) :: calls))
      with (run_calls (snd (is_allowed_at t self c')) calls).
    unfold times_of. rewrite filter_cons. simpl. case_decide as Hc.
    + subst c'. apply IH.
    + destruct (IH (snd (is_allowed_at t self c'))) as (Hl & Hw & Hr).
      fold (times_of c calls) in *.
      assert (Hag : agree_on c (snd (is_allowed_at t self c')) self)
        by by apply is_allowed_at_agree_other.
      clear IH. revert Hag Hl Hw Hr.
      generalize (snd (is_allowed_at t self c')) as self'. intros self' Hag Hl Hw Hr.
      assert (Hgo : forall ts s s', agree_on c s s' ->
                 agree_on c (run_calls s (map (pair c) ts)) (run_calls s' (map (pair c) ts))).
      { induction ts as [|u ts IHts]; intros s s' Hss; [done|].
        apply IHts. by apply is_allowed_at_agree. }
      destruct (Hgo (times_of c calls) self' self Hag) as (Hl' & Hw' & Hr').
      repeat split; congruence.
Qed.
End RateLimiterWindow.

Section Middleware.

Lemma is_allowed_run (c : list N) (w : World) :
  is_allowed c w
  = (Done (fst (is_allowed_at (clock w (ticks w)) (rate_limiter w) c)),
     after_check w c).
Proof.
  unfold is_allowed, bind, time_time, get_rate_limiter, set_rate_limiter, ret,
    after_check. simpl.
  by destruct (is_allowed_at (clock w (ticks w)) (rate_limiter w) c).
Qed.

Lemma rate_limit_middleware_run (f : Handler) (req : Request) (c : list N) (w : World) :
  client_ip req = Some c ->
  rate_limit_middleware f req w
  = if fst (is_allowed_at (clock w (ticks w)) (rate_limiter w) c)
    then f req (after_check w c)
    else (Done (PTuple [PStr (lit "Rate limit exceeded"); PInt 429]),
          after_check w c).
Proof.
  intros Hip. unfold rate_limit_middleware. rewrite Hip.
  unfold bind. rewrite is_allowed_run. by case_match.
Qed.

(** [check_all] is the run over the calls it makes. *)
Lemma check_all_run (clients : list (list N)) : forall w,
  let calls := calls_from w clients in
  fst (check_all clients w) = Done (answers (rate_limiter w) calls)
  /\ rate_limiter (snd (check_all clients w)) = run_calls (rate_limiter w) calls
  /\ ticks (snd (check_all clients w)) = (ticks w + length clients)%nat
  /\ clock (snd (check_all clients w)) = clock w.
Proof.
  induction clients as [|c clients IH]; intros w.
  - simpl. repeat split. lia.
  - destruct (IH (after_check w c)) as (Ha & Hr & Ht & Hc).
    destruct (check_all clients (after_check w c)) as [[oks|e] w'] eqn:E;
      simpl in Ha; [|discriminate].
    assert (Heq : check_all (c :: clients) w
                  = (Done (fst (is_allowed_at (clock w (ticks w)) (rate_limiter w) c)
                             :: oks), w')).
    { cbn [check_all]. unfold bind. by rewrite is_allowed_run, E. }
    rewrite Heq. injection Ha as ->. simpl in *.
    unfold calls_from in *. simpl.
    repeat split; first [lia | done].
Qed.

End Middleware.

Section RateLimiterContract.
Implicit Types (self : RateLimiter) (c : list N).

Lemma answers_app self (l1 l2 : list (list N * Z)) :
  answers self (l1 ++ l2) = answers self l1 ++ answers (run_calls self l1) l2.
Proof.
  revert self. induction l1 as [|call l1 IH]; intros self; [done|].
  simpl. f_equal. apply IH.
Qed.

Lemma times_of_snoc c calls (t : Z) :
  times_of c (calls ++ [(c, t)]) = times_of c calls ++ [t].
Proof.
  unfold times_of. rewrite filter_app, map_app. f_equal.
  by rewrite filter_cons_True.
Qed.



End RateLimiterContract.



(** C9.  With a clock that does not run backwards and a window that is not
    negative, after every allow check, that is, after any run of checks on a
    new limiter, and for every client: the client's stored time stamps are in
    non-decreasing order, and each of them was no older than the window when
    the client was last checked.  For the client of the check just made,
    that is now. *)
Theorem timestamps_ordered_and_fresh (L W : Z) (calls : list (list N * Z)) :
  (0 <= W)%Z ->
  Sorted Z.le (map snd calls) ->
  let r := run_calls (RateLimiter_init L W) calls in
  (forall c,
     Sorted Z.le (requests_of r c)
     /\ (forall t, t ∈ requests_of r c ->
                   exists checked, last (times_of c calls) = Some checked
                                   /\ (checked - t <= W)%Z))
  /\ (forall before c now,
        calls = before ++ [(c, now)] ->
        forall t, t ∈ requests_of r c -> (now - t <= W)%Z).
Proof.
  intros HW Hclock r.
  assert (Hsorted : forall c, Sorted Z.le (requests_of r c)).
  { intros c. apply StronglySorted_Sorted.
    apply Sorted_StronglySorted in Hclock; [|intros x y z; lia].
    destruct (map snd calls) as [|t0 ts] eqn:E.
    { destruct calls; [|discriminate]. subst r. simpl.
      rewrite requests_of_init. constructor. }
    destruct (run_calls_ordered t0 (RateLimiter_init L W) calls) as [hi Hord].
    - intros c'. rewrite requests_of_init. split; constructor.
    - rewrite E. constructor; [done|]. constructor; [lia|]. by inversion Hclock.
    - apply Hord. }
  assert (Hfresh : forall c t, t ∈ requests_of r c ->
             exists checked, last (times_of c calls) = Some checked
                             /\ (checked - t <= W)%Z).
  { intros c t Ht. subst r.
    destruct (run_calls_own c (RateLimiter_init L W) calls) as (_ & _ & Heq).
    rewrite Heq in Ht. clear Heq.
    destruct (times_of c calls) as [|checked ts _] using rev_ind.
    - simpl in Ht. rewrite requests_of_init in Ht. by apply elem_of_nil in Ht.
    - exists checked. split; [apply last_snoc|].
      rewrite map_app in Ht. simpl map in Ht. rewrite run_calls_snoc in Ht.
      simpl in Ht. apply is_allowed_at_fresh in Ht;
        rewrite run_calls_window in *; simpl in *; lia. }
  split; [by split; [apply Hsorted | apply Hfresh]|].
  intros before c now -> t Ht.
  destruct (Hfresh c t Ht) as (checked & Hlast & Hle).
  rewrite times_of_snoc, last_snoc in Hlast. by injection Hlast as <-.
Qed.

(** On a limiter with limit 2 and window 60, after the run of [a], [b],
    [a] and one more check of [a] at time 70. *)
Lemma timestamps_ordered_and_fresh_witness :
  (forall c,
     Sorted Z.le
       (requests_of
          (run_calls (RateLimiter_init 2 60)
             (Example.run_a_b_a ++ [(lit "a", 70%Z)])) c)
     /\ (forall t,
           t ∈ requests_of
                 (run_calls (RateLimiter_init 2 60)
                    (Example.run_a_b_a ++ [(lit "a", 70%Z)])) c ->
           exists checked,
             last (times_of c (Example.run_a_b_a ++ [(lit "a", 70%Z)]))
             = Some checked
             /\ (checked - t <= 60)%Z))
  /\ (forall before c now,
        Example.run_a_b_a ++ [(lit "a", 70%Z)] = before ++ [(c, now)] ->
        forall t,
          t ∈ requests_of
                (run_calls (RateLimiter_init 2 60)
                   (Example.run_a_b_a ++ [(lit "a", 70%Z)])) c ->
          (now - t <= 60)%Z).
Proof.
  apply (timestamps_ordered_and_fresh 2 60
           (Example.run_a_b_a ++ [(lit "a", 70%Z)])).
  - lia.
  - simpl. repeat constructor; lia.
Defined.

(** *** Remarks on the hypotheses *)

(** A client that makes no further check keeps its time stamps, however
    old: pruning happens at that client's own checks only. *)
Example idle_client_keeps_old_stamps :
  requests_of
    (run_calls (RateLimiter_init 100 60) [(lit "a", 0%Z); (lit "b", 1000%Z)])
    (lit "a")
  = [0%Z].
Proof. vm_compute. reflexivity. Qed.

(** So a stamp goes stale while its client is idle: after [a] was checked
    at 0 and [b] at 1000, with a window of 60 and a clock that never went
    back, the list of [a] still holds the stamp 0, which is 1000 old when
    the check of [b] is made. *)
Lemma idle_client_stamp_goes_stale :
  requests_of
    (run_calls (RateLimiter_init 100 60) [(lit "a", 0%Z); (lit "b", 1000%Z)])
    (lit "a")
  = [0%Z]
  /\ Sorted Z.le (map snd [(lit "a", 0%Z); (lit "b", 1000%Z)])
  /\ ~ (1000 - 0 <= 60)%Z
  /\ ~ stamps_never_stale.
Proof.
  assert (Hheld : requests_of
                    (run_calls (RateLimiter_init 100 60)
                       [(lit "a", 0%Z); (lit "b", 1000%Z)]) (lit "a")
                  = [0%Z]) by (vm_compute; reflexivity).
  assert (Hclock : Sorted Z.le (map snd [(lit "a", 0%Z); (lit "b", 1000%Z)])).
  { simpl. repeat constructor. lia. }
  split; [done|]. split; [done|]. split; [lia|].
  intros Hc.
  pose proof (Hc 100%Z 60%Z [(lit "a", 0%Z)] (lit "b") (lit "a") 1000%Z 0%Z
                ltac:(lia) Hclock) as Hfresh.
  change ([(lit "a", 0%Z)] ++ [(lit "b", 1000%Z)])
    with [(lit "a", 0%Z); (lit "b", 1000%Z)] in Hfresh.
  rewrite Hheld in Hfresh.
  assert (1000 - 0 <= 60)%Z by (apply Hfresh; by left). lia.
Qed.

(** When the clock is set back between two checks, the list is no longer
    in non-decreasing order. *)
Example clock_set_back_breaks_order :
  requests_of
    (run_calls (RateLimiter_init 100 60) [(lit "a", 10%Z); (lit "a", 5%Z)])
    (lit "a")
  = [10%Z; 5%Z].
Proof. vm_compute. reflexivity. Qed.

(** With a negative limit nothing is ever allowed, and the empty list is
    longer than the limit. *)
Example negative_limit_allows_nothing :
  answers (RateLimiter_init (-1) 60) [(lit "a", 0%Z); (lit "a", 1%Z)]
  = [false; false].
Proof. vm_compute. reflexivity. Qed.

(** ** Middleware chains and dispatch *)

Section Chain.
Implicit Types (ms : list Middleware) (h : Handler).

Lemma chainMiddlewares_foldr ms h :
  chainMiddlewares ms h = foldr (fun m f => m f) h ms.
Proof.
  induction ms as [|m ms IH]; [done|].
  simpl foldr. rewrite <- IH. unfold chainMiddlewares.
  simpl rev. by rewrite fold_left_app.
Qed.

Lemma chainMiddlewares_cons (m1 : Middleware) ms h :
  chainMiddlewares (m1 :: ms) h = m1 (chainMiddlewares ms h).
Proof. by rewrite !chainMiddlewares_foldr. Qed.

Lemma chainMiddlewares_app ms ms' h :
  chainMiddlewares (ms ++ ms') h = chainMiddlewares ms (chainMiddlewares ms' h).
Proof. by rewrite !chainMiddlewares_foldr, foldr_app. Qed.

Lemma chainMiddlewares_snoc ms (mn : Middleware) h :
  chainMiddlewares (ms ++ [mn]) h = chainMiddlewares ms (mn h).
Proof. by rewrite chainMiddlewares_app. Qed.

Lemma logged_logged (w : World) (a b : list (list N)) :
  logged (logged w a) b = logged w (a ++ b).
Proof. unfold logged. simpl. by rewrite app_assoc. Qed.

Lemma logged_nil (w : World) : logged w [] = w.
Proof. unfold logged. rewrite app_nil_r. by destruct w. Qed.

(** Announcing middlewares are entered in the order of the list, and the
    handler runs after the last of them. *)
Lemma chain_announce (names : list (list N)) h (request : Request) (w : World) :
  chainMiddlewares (map announce names) h request w = h request (logged w names).
Proof.
  revert w. induction names as [|name names IH]; intros w.
  - by rewrite logged_nil.
  - simpl map. rewrite chainMiddlewares_cons.
    unfold announce at 1. unfold bind, logging_error.
    rewrite IH. fold (logged w [name]). by rewrite logged_logged.
Qed.

Lemma invoke_chain (self : Server) h (parsed : Request) :
  invoke self h parsed = chainMiddlewares (beforeAllMiddlewares self) h parsed.
Proof. unfold invoke. by destruct (beforeAllMiddlewares self). Qed.

End Chain.

Section Dispatch.
Context `{Builtins}.

Lemma process_routed (self : Server) addr data (request : Request) (h : Handler) (c : Conn) :
  read_request addr data = Done request ->
  routes self !! pathkey_of request = Some h ->
  process self addr data c
  = (result <- in_world (invoke self h request) ;; deliver result)%py c.
Proof.
  intros Hreq Hroute. unfold process, bind at 1, lift. by rewrite Hreq, Hroute.
Qed.

Lemma process_unrouted (self : Server) addr data (request : Request) (c : Conn) :
  read_request addr data = Done request ->
  routes self !! pathkey_of request = None ->
  process self addr data c
  = (Done (Return PNone), after_send c (of_octets (plain_response 404 []))).
Proof.
  intros Hreq Hroute. unfold process, bind at 1, lift. rewrite Hreq, Hroute.
  by apply respond_plain.
Qed.

Lemma process_unreadable (self : Server) addr data (e : exn) (c : Conn) :
  read_request addr data = Raised e ->
  process self addr data c = (Raised e, c).
Proof. intros Hreq. unfold process, bind, lift. by rewrite Hreq. Qed.

End Dispatch.

(** C3.  [__chainMiddlewares] on [m1, ..., mn] and [h] wraps from the last
    middleware to the first, so that the result is [m1 (m2 (... (mn h)))]:
    [mn] is applied to [h] itself and [m1] is applied last.  Run on a
    request, middlewares that announce themselves are entered in list order
    and [h] runs after them all.  A dispatched request calls the handler [h]
    stored under its key through the global list, whatever the route, so
    that the global middlewares come before those [register] chained around
    the route's function. *)
Theorem middleware_order `{Builtins} (ms : list Middleware) (h : Handler)
  (self : Server) (addr : list N * Z) (data : string) (request : Request)
  (c : Conn) :
  read_request addr data = Done request ->
  routes self !! pathkey_of request = Some h ->
  chainMiddlewares ms h = foldr (fun m f => m f) h ms
  /\ (forall mn, chainMiddlewares (ms ++ [mn]) h = chainMiddlewares ms (mn h))
  /\ (forall m1, chainMiddlewares (m1 :: ms) h = m1 (chainMiddlewares ms h))
  /\ (forall names req w,
        chainMiddlewares (map announce names) h req w = h req (logged w names))
  /\ process self addr data c
     = (result <- in_world
                    (chainMiddlewares (beforeAllMiddlewares self) h request) ;;
        deliver result)%py c
  /\ (forall name func,
        h = chainMiddlewares ms (wrapper name func) ->
        invoke self h request
        = chainMiddlewares (beforeAllMiddlewares self ++ ms) (wrapper name func)
            request)
  /\ (forall globals locals g w,
        beforeAllMiddlewares self = map announce globals ->
        h = chainMiddlewares (map announce locals) g ->
        invoke self h request w = g request (logged w (globals ++ locals))).
Proof.
  intros Hreq Hroute. repeat split.
  - apply chainMiddlewares_foldr.
  - intros mn. apply chainMiddlewares_snoc.
  - intros m1. apply chainMiddlewares_cons.
  - intros names req w. apply chain_announce.
  - rewrite (process_routed self addr data request h c Hreq Hroute).
    unfold bind, in_world. by rewrite invoke_chain.
  - intros name func ->. by rewrite invoke_chain, chainMiddlewares_app.
  - intros globals locals g w Hg ->.
    by rewrite invoke_chain, Hg, !chain_announce, logged_logged.
Qed.

(** On the registry with announcing middlewares, for a request of the
    root route. *)
Lemma middleware_order_witness :
  process (H := Example.sample_builtins) Example.server_announcing Example.addr
    Example.get_root (Example.connection [])
  = (result <- in_world
                 (chainMiddlewares
                    (beforeAllMiddlewares Example.server_announcing)
                    (chainMiddlewares [announce (lit "route")] Example.home)
                    Example.root_request) ;;
     deliver (H := Example.sample_builtins) result)%py (Example.connection []).
Proof.
  refine (proj1 (proj2 (proj2 (proj2 (proj2
    (middleware_order (H := Example.sample_builtins) [announce (lit "route")]
       (chainMiddlewares [announce (lit "route")] Example.home)
       Example.server_announcing Example.addr Example.get_root
       Example.root_request (Example.connection []) _ _)))))).
  - vm_compute. reflexivity.
  - vm_compute. reflexivity.
Defined.

(** ** The connection worker *)

Section Worker.
Context `{Builtins}.

Lemma respond_shape resp code headers (c : Conn) :
  (exists data, respond resp code headers c = (Done (Return PNone), after_send c data))
  \/ (exists e, respond resp code headers c = (Raised e, c)).
Proof.
  unfold respond, bind, lift.
  destruct (writeReponse resp code headers default_contentType) as [data|e]; eauto.
Qed.

(** A pass through the loop body that does not raise ends in [return]:
    no path through it reaches the end of the body. *)
Lemma deliver_returns result (c : Conn) : fst (deliver result c) ≠ Done Next.
Proof.
  unfold deliver.
  assert (Hresp : forall resp code headers c',
             fst (respond resp code headers c') ≠ Done Next).
  { intros resp code headers c'.
    destruct (respond_shape resp code headers c') as [[d ->]|[e ->]]; done. }
  assert (Hchk : forall r code headers,
             fst ((resp <- lift (checkIfResultIsDict r) ;; respond resp code headers)%py c)
             ≠ Done Next).
  { intros r code headers. unfold bind, lift.
    destruct (checkIfResultIsDict r); [apply Hresp | done]. }
  destruct result as [| | | | |items| |]; try apply Hchk.
  destruct items as [|a [|b [|d [|e items]]]]; try apply Hchk;
    unfold bind, lift, sendall, raise;
    by destruct (writeReponse _ _ _ _).
Qed.

Lemma process_returns (self : Server) addr data (c : Conn) :
  fst (process self addr data c) ≠ Done Next.
Proof.
  unfold process, bind at 1, lift.
  destruct (read_request addr data) as [request|e]; [|done].
  destruct (routes self !! pathkey_of request) as [h|].
  - unfold bind, in_world.
    destruct (invoke self h request (world c)) as [[result|e] w]; [|done].
    apply deliver_returns.
  - destruct (respond_shape (PStr []) (PInt 404) default_headers c) as [[d ->]|[e ->]]; done.
Qed.

(** The first pass through the loop decides how the connection ends. *)
Lemma handleConnection_first (self : Server) addr (c : Conn) data rest :
  unread c = data :: rest -> data ≠ EmptyString ->
  handleConnection self addr c
  = (fst (match process self addr data (after_recv c rest) with
          | (Done Next, c') => (Done PNone, c')
          | (Done (Return v), c') => (Done v, c')
          | (Raised e, c') => (Raised e, c')
          end),
     close (snd (process self addr data (after_recv c rest)))).
Proof.
  intros Hun Hne. unfold handleConnection. rewrite Hun. cbn [serve].
  apply String.eqb_neq in Hne. rewrite Hne. fold (after_recv c rest).
  pose proof (process_returns self addr data (after_recv c rest)) as Hret.
  destruct (process self addr data (after_recv c rest)) as [[[|v]|e] c']; simpl in *; done.
Qed.

End Worker.

(** C5.  A request that the worker reads without error is looked up under
    the key made of its verb, one space and its path.  When the registry
    holds a handler under exactly that key, that handler is what is called:
    through the chain of the global middlewares, which is the handler
    itself when there are none.  What the chain returns is what is
    delivered, a text with status 200; an exception of the chain leaves the
    worker as it is.  No other entry of the registry counts: two registries
    with the same entry under the key and the same global middlewares
    treat the request alike.  Right after [registerHandler] the entry is
    the handler registered.  When the registry holds nothing under the key,
    the status 404 with an empty body is sent and the worker returns. *)
Theorem route_dispatch `{Builtins} (self : Server) (addr : list N * Z)
  (data : string) (request : Request) (c : Conn) :
  read_request addr data = Done request ->
  pathkey_of request = verb request ++ lit " " ++ path request
  /\ (forall h,
        routes self !! pathkey_of request = Some h ->
        let chain := chainMiddlewares (beforeAllMiddlewares self) h in
        invoke self h request = chain request
        /\ (beforeAllMiddlewares self = [] -> invoke self h request = h request)
        /\ process self addr data c
           = (result <- in_world (invoke self h request) ;; deliver result)%py c
        /\ (forall result w',
              chain request (world c) = (Done result, w') ->
              process self addr data c
              = deliver result (mkConn w' (unread c) (sent c) (closed c)))
        /\ (forall e w',
              chain request (world c) = (Raised e, w') ->
              process self addr data c
              = (Raised e, mkConn w' (unread c) (sent c) (closed c)))
        /\ (forall text w',
              chain request (world c) = (Done (PStr text), w') ->
              is_ascii text = true ->
              let c' := mkConn w' (unread c) (sent c) (closed c) in
              process self addr data c
              = (Done (Return PNone),
                 after_send c' (of_octets (plain_response 200 text)))
              /\ forall c0 rest,
                   unread c0 = data :: rest -> data ≠ EmptyString ->
                   c = after_recv c0 rest ->
                   handleConnection self addr c0
                   = (Done PNone,
                      close (after_send c' (of_octets (plain_response 200 text))))))
  /\ (forall self',
        routes self' !! pathkey_of request = routes self !! pathkey_of request ->
        beforeAllMiddlewares self' = beforeAllMiddlewares self ->
        process self' addr data c = process self addr data c)
  /\ (forall self0 h,
        registerHandler self0 (pathkey_of request) h = Done self ->
        routes self !! pathkey_of request = Some h)
  /\ (routes self !! pathkey_of request = None ->
      process self addr data c
      = (Done (Return PNone), after_send c (of_octets (plain_response 404 [])))
      /\ plain_response 404 []
         = lit "HTTP/1.1 404 " ++ reason 404 ++ crlf
           ++ lit "Content-Type: application/json" ++ crlf
           ++ lit "Content-Length: 0" ++ crlf ++ crlf
      /\ forall c0 rest,
           unread c0 = data :: rest -> data ≠ EmptyString ->
           c = after_recv c0 rest ->
           handleConnection self addr c0
           = (Done PNone,
              close (after_send c (of_octets (plain_response 404 []))))).
Proof.
  intros Hreq. split; [done|]. split; [|split; [|split]].
  - intros h Hroute chain.
    assert (Hinv : invoke self h request = chain request) by apply invoke_chain.
    assert (Hp : process self addr data c
                 = (result <- in_world (invoke self h request) ;; deliver result)%py c)
      by by apply (process_routed self addr data request).
    split; [done|]. split.
    { intros Hnone. unfold invoke. by rewrite Hnone. }
    split; [done|]. split; [|split].
    + intros result w' Hrun. rewrite Hp, Hinv. unfold bind, in_world.
      by rewrite Hrun.
    + intros e w' Hrun. rewrite Hp, Hinv. unfold bind, in_world.
      by rewrite Hrun.
    + intros text w' Hrun Hascii c'.
      assert (Hsent : process self addr data c
                      = (Done (Return PNone),
                         after_send c' (of_octets (plain_response 200 text)))).
      { rewrite Hp, Hinv. unfold bind at 1, in_world. rewrite Hrun. fold c'.
        unfold deliver, bind, lift. cbn [checkIfResultIsDict].
        by apply respond_plain. }
      split; [done|]. intros c0 rest Hun Hne Hc.
      rewrite (handleConnection_first self addr c0 data rest Hun Hne).
      rewrite <- Hc. by rewrite Hsent.
  - intros self' Hsame Hglobal.
    destruct (routes self !! pathkey_of request) as [h|] eqn:Hroute.
    + rewrite (process_routed self' addr data request h c Hreq Hsame).
      rewrite (process_routed self addr data request h c Hreq Hroute).
      by rewrite !invoke_chain, Hglobal.
    + rewrite (process_unrouted self' addr data request c Hreq Hsame).
      by rewrite (process_unrouted self addr data request c Hreq Hroute).
  - intros self0 h Hreg. unfold registerHandler in Hreg.
    destruct (negb (isPathValid (pathkey_of request))); [discriminate|].
    injection Hreg as <-. simpl. apply lookup_insert_eq.
  - intros Hnone.
    assert (Hp : process self addr data c
                 = (Done (Return PNone),
                    after_send c (of_octets (plain_response 404 []))))
      by by apply (process_unrouted self addr data request).
    split; [done|]. split.
    + unfold plain_response. simpl length. by rewrite app_nil_r.
    + intros c0 rest Hun Hne ->.
      rewrite (handleConnection_first self addr c0 data rest Hun Hne).
      by rewrite Hp.
Qed.

(** On the registry with two announcing global middlewares and one around
    the root route, a request for the root: the three are entered in order,
    the handler's text is sent with status 200.  On the example registry, a
    request for a route that is not registered: the empty 404. *)
Lemma route_dispatch_witness :
  handleConnection (H := Example.sample_builtins) Example.server_announcing
    Example.addr (Example.connection [Example.get_root])
  = (Done PNone,
     close (after_send
              (mkConn (logged Example.world0
                         [lit "first"; lit "second"; lit "route"])
                 [] [] false)
              (of_octets
                 (plain_response (H := Example.sample_builtins) 200
                    (lit "Welcome to the server!")))))
  /\ process (H := Example.sample_builtins) Example.server Example.addr
       Example.get_missing (Example.connection [])
     = (Done (Return PNone),
        after_send (Example.connection [])
          (of_octets (plain_response (H := Example.sample_builtins) 404 []))).
Proof.
  split.
  - destruct (route_dispatch (H := Example.sample_builtins)
                Example.server_announcing Example.addr Example.get_root
                Example.root_request
                (after_recv (Example.connection [Example.get_root]) []))
      as (_ & Hhit & _).
    { vm_compute. reflexivity. }
    destruct (Hhit (chainMiddlewares [announce (lit "route")] Example.home))
      as (_ & _ & _ & _ & _ & Htext).
    { vm_compute. reflexivity. }
    destruct (Htext (lit "Welcome to the server!")
                (logged Example.world0 [lit "first"; lit "second"; lit "route"]))
      as [_ Hconn]; [reflexivity | reflexivity |].
    apply (Hconn (Example.connection [Example.get_root]) []);
      [reflexivity | discriminate | reflexivity].
  - refine (proj1 (proj2 (proj2 (proj2 (proj2
      (route_dispatch (H := Example.sample_builtins) Example.server Example.addr
         Example.get_missing Example.missing_request (Example.connection []) _))))
      _)).
    + vm_compute. reflexivity.
    + vm_compute. reflexivity.
Defined.

(** A request for a route that is not registered, with a body announced as
    JSON that [json.loads] refuses: its text parses, the registry holds
    nothing under its key, and yet no 404 is sent.  The exception of
    [parse_body] leaves the worker before the registry is looked at. *)
Lemma unreadable_body_gets_no_404 :
  decode (rstrip_nul Forms.post_json) = Done Forms.post_json_text
  /\ parseRequest Forms.post_json_text = Done Forms.post_json_parsed
  /\ routes Example.server !! pathkey_of Forms.post_json_parsed = None
  /\ handleConnection (H := Forms.refusing_builtins) Example.server Example.addr
       (Example.connection [Forms.post_json])
     = (Raised (Exc JSONDecodeError []), mkConn Example.world0 [] [] true)
  /\ ~ unrouted_requests_get_404.
Proof.
  assert (Hdec : decode (rstrip_nul Forms.post_json) = Done Forms.post_json_text)
    by (vm_compute; reflexivity).
  assert (Hparse : parseRequest Forms.post_json_text = Done Forms.post_json_parsed)
    by (vm_compute; reflexivity).
  assert (Hnone : routes Example.server !! pathkey_of Forms.post_json_parsed = None)
    by (vm_compute; reflexivity).
  assert (Hrun : handleConnection (H := Forms.refusing_builtins) Example.server
                   Example.addr (Example.connection [Forms.post_json])
                 = (Raised (Exc JSONDecodeError []),
                    mkConn Example.world0 [] [] true))
    by (vm_compute; reflexivity).
  repeat (split; [assumption|]).
  intros Hc.
  pose proof (Hc Forms.refusing_builtins Example.server Example.addr
                (Example.connection [Forms.post_json]) Forms.post_json []
                Forms.post_json_text Forms.post_json_parsed eq_refl
                ltac:(discriminate) Hdec Hparse Hnone) as Hsent.
  rewrite Hrun in Hsent. discriminate.
Qed.

(** C7.  When the handler called for a dispatched request returns a tuple
    whose length is neither 2 nor 3, the worker first sends a response with
    status 500 and an empty body, and then raises a [ValueError] that
    carries the length: the connection ends with the response sent and the
    exception in flight. *)
Theorem bad_tuple_double_fault `{Builtins} (self : Server) (addr : list N * Z)
  (data : string) (request : Request) (h : Handler) (c : Conn)
  (items : list pyobj) (w' : World) :
  read_request addr data = Done request ->
  routes self !! pathkey_of request = Some h ->
  invoke self h request (world c) = (Done (PTuple items), w') ->
  length items ≠ 2%nat -> length items ≠ 3%nat ->
  let c' := mkConn w' (unread c) (sent c) (closed c) in
  process self addr data c
  = (Raised (bad_result_len (length items)),
     after_send c' (of_octets (plain_response 500 [])))
  /\ forall c0 rest,
       unread c0 = data :: rest -> data ≠ EmptyString ->
       c = after_recv c0 rest ->
       handleConnection self addr c0
       = (Raised (bad_result_len (length items)),
          close (after_send c' (of_octets (plain_response 500 [])))).
Proof.
  intros Hreq Hroute Hinv H2 H3 c'.
  assert (Hp : process self addr data c
               = (Raised (bad_result_len (length items)),
                  after_send c' (of_octets (plain_response 500 [])))).
  { rewrite (process_routed self addr data request h c Hreq Hroute).
    unfold bind at 1, in_world. rewrite Hinv. fold c'.
    unfold deliver.
    destruct items as [|a [|b [|d [|e items]]]]; try done;
      unfold bind, lift, sendall, raise;
      by rewrite writeReponse_plain. }
  split; [done|].
  intros c0 rest Hun Hne ->.
  rewrite (handleConnection_first self addr c0 data rest Hun Hne).
  by rewrite Hp.
Qed.

(** On the registry whose root route returns a tuple of four. *)
Lemma bad_tuple_double_fault_witness :
  process (H := Example.sample_builtins) Example.server_four Example.addr
    Example.get_root (Example.connection [])
  = (Raised (bad_result_len 4),
     after_send (Example.connection [])
       (of_octets (plain_response (H := Example.sample_builtins) 500 []))).
Proof.
  refine (proj1
    (bad_tuple_double_fault (H := Example.sample_builtins) Example.server_four
       Example.addr Example.get_root Example.root_request Example.four
       (Example.connection [])
       [PStr (lit "a"); PInt 200; PDict []; PNone] Example.world0 _ _ _ _ _)).
  - vm_compute. reflexivity.
  - vm_compute. reflexivity.
  - reflexivity.
  - simpl. lia.
  - simpl. lia.
Defined.

Section OneResponse.
Context `{Builtins}.

(** The loop body writes at most one response and reads nothing. *)
Lemma respond_sent resp code headers (c : Conn) :
  unread (snd (respond resp code headers c)) = unread c
  /\ (length (sent (snd (respond resp code headers c))) <= S (length (sent c)))%nat.
Proof.
  destruct (respond_shape resp code headers c) as [[d ->]|[e ->]]; simpl.
  - rewrite length_app. simpl. split; [done | lia].
  - split; [done | lia].
Qed.

Lemma deliver_sent result (c : Conn) :
  unread (snd (deliver result c)) = unread c
  /\ (length (sent (snd (deliver result c))) <= S (length (sent c)))%nat.
Proof.
  assert (Hchk : forall r code headers,
             let m := (resp <- lift (checkIfResultIsDict r) ;; respond resp code headers)%py in
             unread (snd (m c)) = unread c
             /\ (length (sent (snd (m c))) <= S (length (sent c)))%nat).
  { intros r code headers. unfold bind, lift.
    destruct (checkIfResultIsDict r); [apply respond_sent | simpl; split; [done | lia]]. }
  unfold deliver.
  destruct result as [| | | | |items| |]; try apply Hchk.
  destruct items as [|a [|b [|d [|e items]]]]; try apply Hchk;
    unfold bind, lift, sendall, raise;
    destruct (writeReponse _ _ _ _); simpl; rewrite ?length_app; simpl;
    split; first [done | lia].
Qed.

Lemma process_sent (self : Server) addr data (c : Conn) :
  unread (snd (process self addr data c)) = unread c
  /\ (length (sent (snd (process self addr data c))) <= S (length (sent c)))%nat.
Proof.
  destruct (read_request addr data) as [request|e] eqn:Hreq.
  - destruct (routes self !! pathkey_of request) as [h|] eqn:Hroute.
    + rewrite (process_routed self addr data request h c Hreq Hroute).
      unfold bind, in_world.
      destruct (invoke self h request (world c)) as [[result|e] w];
        [|simpl; split; [done | lia]].
      apply (deliver_sent result (mkConn w (unread c) (sent c) (closed c))).
    + rewrite (process_unrouted self addr data request c Hreq Hroute).
      simpl. rewrite length_app. simpl. split; [done | lia].
  - rewrite (process_unreadable self addr data e c Hreq).
    simpl. split; [done | lia].
Qed.

(** Whatever arrives, the worker reads one chunk, writes at most one
    response, and leaves: what the peer sent after the first chunk stays
    unread. *)
Lemma at_most_one_response (self : Server) addr (c : Conn) data rest :
  unread c = data :: rest -> data ≠ EmptyString ->
  unread (snd (handleConnection self addr c)) = rest
  /\ (length (sent (snd (handleConnection self addr c))) <= S (length (sent c)))%nat
  /\ closed (snd (handleConnection self addr c)) = true.
Proof.
  intros Hun Hne. rewrite (handleConnection_first self addr c data rest Hun Hne).
  destruct (process_sent self addr data (after_recv c rest)) as [Hu Hs].
  simpl. split; [by rewrite Hu|]. split; [exact Hs | done].
Qed.

End OneResponse.

(** C8.  On a connection that delivers two well-formed requests for
    registered routes in two reads, the worker answers the first and
    returns: one response is sent, the second request is never read, and the
    socket is closed. *)
Theorem second_request_unanswered :
  Example.two_requests
  = (Done PNone,
     mkConn Example.world0 [Example.get_hello]
       [of_octets
          (@plain_response Example.sample_builtins 200
             (lit "Welcome to the server!"))]
       true).
Proof. vm_compute. reflexivity. Qed.

(** ** Registration and the route-key pattern *)

Section Pattern.

Lemma at_end_iff pos (s : list N) : at_end pos s = true <-> s = [] \/ s = [LF].
Proof.
  unfold at_end. simpl. destruct s as [|ch [|ch' s]].
  - split; auto.
  - destruct (N.eqb_spec ch LF) as [->|Hne].
    + split; auto.
    + split; [done|]. intros [?|?]; by simplify_eq.
  - split; [done|]. intros [?|?]; discriminate.
Qed.

Lemma star_at_end (class : N -> bool) pos (s : list N) :
  star_match class pos s at_end = true
  <-> exists rest, Forall (fun ch => class ch = true) rest
                   /\ (s = rest \/ s = rest ++ [LF]).
Proof.
  revert pos. induction s as [|ch s IH]; intros pos.
  - simpl. split; [|done]. intros _. exists []. split; [constructor | by left].
  - cbn [star_match]. destruct (class ch) eqn:Ech.
    + rewrite orb_true_iff, IH, at_end_iff. split.
      * intros [(rest & Hall & Hs)|[?|Hs]]; [| discriminate |].
        -- exists (ch :: rest). split; [by constructor|].
           destruct Hs as [->| ->]; [by left | by right].
        -- simplify_eq. exists []. split; [constructor | by right].
      * intros (rest & Hall & Hs). destruct rest as [|r rest].
        -- right. destruct Hs as [?|Hs]; [discriminate|]. by right.
        -- left. inversion Hall; subst. exists rest. split; [done|].
           destruct Hs as [Hs|Hs]; simpl in Hs; injection Hs as _ Hs; auto.
    + rewrite at_end_iff. split.
      * intros [?|Hs]; [discriminate|]. simplify_eq.
        exists []. split; [constructor | by right].
      * intros (rest & Hall & Hs). destruct rest as [|r rest].
        -- destruct Hs as [?|Hs]; [discriminate|]. by right.
        -- inversion Hall as [|? ? Hr Hall']; subst. simpl in Hr.
           destruct Hs as [Hs|Hs]; simpl in Hs; injection Hs as -> _; congruence.
Qed.

(** One branch of the alternation: the verb [v], then the rest of the
    pattern. *)
Lemma verb_branch (v path : list N) :
  regex_match (Lit v) 0 path
    (fun pos s =>
       regex_match (Seq (Lit (lit " /")) (Seq (Star not_space) Eol)) pos s
         (fun _ _ => true)) = true
  <-> exists rest,
        Forall (fun ch => isspace ch = false) rest
        /\ (path = v ++ lit " /" ++ rest \/ path = v ++ lit " /" ++ rest ++ [LF]).
Proof.
  cbn [regex_match].
  change (fun (pos' : nat) (s' : list N) => match s' with
            | [] => true
            | [c] => if (c =? LF)%N then true else false
            | _ => false end) with at_end.
  assert (Hcls : forall rest, Forall (fun ch => not_space ch = true) rest
                              <-> Forall (fun ch => isspace ch = false) rest).
  { intros rest. apply Forall_proper; [|done]. intros ch. unfold not_space.
    by rewrite negb_true_iff. }
  split.
  - intros Hm. destruct (startswith v path) eqn:Hv; [|done].
    apply startswith_drop in Hv.
    destruct (startswith (lit " /") (drop (length v) path)) eqn:Hs; [|done].
    apply startswith_drop in Hs.
    apply star_at_end in Hm as (rest & Hall & Hrest).
    exists rest. split; [by apply Hcls|].
    rewrite Hv, Hs. destruct Hrest as [-> | ->]; [by left | by right].
  - intros (rest & Hall & Hp).
    assert (Hpath : exists tail, path = v ++ lit " /" ++ tail
                                 /\ (tail = rest \/ tail = rest ++ [LF])).
    { destruct Hp as [-> | ->]; eauto. }
    destruct Hpath as (tail & -> & Htail).
    rewrite startswith_app, drop_app_length, startswith_app.
    rewrite drop_app_length. apply star_at_end.
    exists rest. split; [by apply Hcls | done].
Qed.

(** [__isPathValid] accepts exactly the texts of [route_key_shape]. *)
Lemma isPathValid_shape (path : list N) :
  isPathValid path = true <-> route_key_shape path.
Proof.
  unfold isPathValid, re_match, route_pattern, route_key_shape.
  cbn [regex_match].
  change (fun c : N => negb (isspace c)) with not_space.
  repeat rewrite orb_true_iff.
  pose proof (fun v => verb_branch v path) as Hb. cbn [regex_match] in Hb.
  rewrite !Hb. unfold verbs. split.
  - intros Hcases.
    repeat (destruct Hcases as [(rest & Hall & Hp)|Hcases];
            [eexists _, rest; split; [|done]; repeat constructor|]).
    destruct Hcases as (rest & Hall & Hp). eexists _, rest. split; [|done].
    repeat constructor.
  - intros (verb & rest & Hv & Hall & Hp).
    repeat (apply elem_of_cons in Hv as [->|Hv]; [eauto 10|]).
    by apply elem_of_nil in Hv.
Qed.

End Pattern.

(** C6.  [__isPathValid] accepts a key exactly when it has the shape the
    pattern describes.  With a key it rejects, [registerHandler] and
    [register] raise [ValueError] at the call and store nothing.  With a key
    it accepts, [registerHandler] stores the handler under the key, in
    place of whatever was there, and leaves the other keys and the global
    middlewares alone; [register] returns its decorator, which stores the
    wrapped function under the key in the same way. *)
Theorem registration_validates `{Builtins} (self : Server) (path : list N)
  (handler : Handler) (middleware : middleware_arg) (name : list N)
  (func : Handler) :
  (isPathValid path = true <-> route_key_shape path)
  /\ (isPathValid path = false ->
      registerHandler self path handler = Raised (invalid_path path)
      /\ register path middleware = Raised (invalid_path path)
      /\ exc_class_of (invalid_path path) = ValueError)
  /\ (isPathValid path = true ->
      (exists self',
         registerHandler self path handler = Done self'
         /\ routes self' !! path = Some handler
         /\ (forall key, key ≠ path -> routes self' !! key = routes self !! key)
         /\ beforeAllMiddlewares self' = beforeAllMiddlewares self)
      /\ (exists decorate,
            register path middleware = Done decorate
            /\ routes (decorate name func self) !! path
               = Some (match middleware with
                       | NoMiddleware => wrapper name func
                       | MiddlewareList ms => chainMiddlewares ms (wrapper name func)
                       | OneMiddleware m => m (wrapper name func)
                       end)
            /\ (forall key, key ≠ path ->
                  routes (decorate name func self) !! key = routes self !! key)
            /\ beforeAllMiddlewares (decorate name func self)
               = beforeAllMiddlewares self)).
Proof.
  split; [apply isPathValid_shape|]. split.
  - intros Hbad. unfold registerHandler, register. by rewrite Hbad.
  - intros Hok. unfold registerHandler, register. rewrite Hok. simpl. split.
    + eexists. split; [done|]. simpl. split; [apply lookup_insert_eq|].
      split; [|done]. intros key Hne. by apply lookup_insert_ne.
    + eexists. split; [done|]. unfold decorator. simpl. split.
      * rewrite lookup_insert_eq. f_equal.
        destruct middleware as [|[|m ms]|m]; done.
      * split; [|done]. intros key Hne. by apply lookup_insert_ne.
Qed.

Example key_with_final_newline_is_valid :
  isPathValid (lit "GET /a" ++ [LF]) = true.
Proof. reflexivity. Qed.

Example key_with_space_in_path_is_invalid :
  isPathValid (lit "GET /a b") = false.
Proof. reflexivity. Qed.

Example key_with_unknown_verb_is_invalid :
  isPathValid (lit "TRACE /") = false.
Proof. reflexivity. Qed.

(** ** Malformed requests *)

Section Parsing.
Context `{Builtins}.

Lemma unpack_error_class expected got :
  exc_class_of (unpack_error expected got) = ValueError.
Proof. done. Qed.

(** The header loop stops at the first line without a colon. *)
Lemma parse_headers_without_colon (lines : list (list N)) (line : list N) :
  line ∈ lines -> colon ∉ line ->
  forall acc, exists e,
    parse_headers lines acc = Raised e /\ exc_class_of e = ValueError.
Proof.
  induction lines as [|l lines IH]; intros Hin Hno acc.
  - by apply elem_of_nil in Hin.
  - cbn [parse_headers].
    destruct (find (lit ":") l) as [idx|] eqn:Hf.
    + apply elem_of_cons in Hin as [->|Hin].
      * change (lit ":") with [colon] in Hf. by rewrite find_char_absent in Hf.
      * by apply IH.
    + by exists substring_not_found.
Qed.

Lemma parseRequest_no_blank_line (s : list N) :
  no_blank_line s -> parseRequest s = Raised (unpack_error 2 1).
Proof.
  intros Hno. unfold parseRequest. by rewrite split_absent.
Qed.

Lemma parseRequest_bad_verb_line (s : list N) :
  bad_verb_line s ->
  exists e, parseRequest s = Raised e /\ exc_class_of e = ValueError.
Proof.
  intros (head & body & Hsplit & Hcount). unfold parseRequest. rewrite Hsplit.
  destruct (split crlf head) as [|first headlines] eqn:Hlines.
  { by destruct (split_aux_nonempty crlf 0 [] head). }
  simpl in Hcount.
  pose proof (split_char_length space first) as Hlen.
  change [space] with (lit " ") in Hlen.
  destruct (split (lit " ") first) as [|a [|b [|d [|e parts]]]];
    simpl in Hlen; try (eexists; split; [reflexivity | done]).
  lia.
Qed.

Lemma parseRequest_header_without_colon (s : list N) :
  header_without_colon s ->
  exists e, parseRequest s = Raised e /\ exc_class_of e = ValueError.
Proof.
  intros (head & body & line & Hsplit & Hin & Hno). unfold parseRequest.
  rewrite Hsplit.
  destruct (split crlf head) as [|first headlines] eqn:Hlines.
  { by destruct (split_aux_nonempty crlf 0 [] head). }
  simpl in Hin.
  destruct (parse_headers_without_colon headlines line Hin Hno ∅) as (e & -> & He).
  destruct (split (lit " ") first) as [|a [|b [|d [|e' parts]]]];
    eexists; split; try reflexivity; done.
Qed.

Lemma parseRequest_malformed (s : list N) :
  malformed s ->
  exists e, parseRequest s = Raised e /\ exc_class_of e = ValueError.
Proof.
  intros [Hno|[Hverb|Hhdr]].
  - exists (unpack_error 2 1). split; [by apply parseRequest_no_blank_line | done].
  - by apply parseRequest_bad_verb_line.
  - by apply parseRequest_header_without_colon.
Qed.

End Parsing.

(** C1, as the code has it.  A request text that is malformed, in any of
    the three ways, makes [__parseRequest] raise a [ValueError].  The worker
    does not catch it: nothing is sent, the [with] block closes the socket,
    and the exception leaves [__handleConnection]. *)
Theorem malformed_request_raises `{Builtins} (self : Server) (addr : list N * Z)
  (c : Conn) (data : string) (rest : list string) (reqstr : list N) :
  unread c = data :: rest -> data ≠ EmptyString ->
  decode (rstrip_nul data) = Done reqstr ->
  malformed reqstr ->
  exists e,
    parseRequest reqstr = Raised e
    /\ exc_class_of e = ValueError
    /\ handleConnection self addr c = (Raised e, close (after_recv c rest)).
Proof.
  intros Hun Hne Hdec Hbad.
  destruct (parseRequest_malformed reqstr Hbad) as (e & Hparse & Hclass).
  exists e. split; [done|]. split; [done|].
  rewrite (handleConnection_first self addr c data rest Hun Hne).
  rewrite (process_unreadable self addr data e); [done|].
  unfold read_request. by rewrite Hdec, Hparse.
Qed.

(** On the example registry, for the request without a blank line. *)
Lemma malformed_request_raises_witness :
  exists e,
    parseRequest Example.no_blank_text = Raised e
    /\ exc_class_of e = ValueError
    /\ handleConnection (H := Example.sample_builtins) Example.server Example.addr
         (Example.connection [Example.no_blank])
       = (Raised e, close (after_recv (Example.connection [Example.no_blank]) [])).
Proof.
  apply (malformed_request_raises (H := Example.sample_builtins) Example.server
           Example.addr (Example.connection [Example.no_blank]) Example.no_blank []
           Example.no_blank_text).
  - reflexivity.
  - vm_compute. discriminate.
  - vm_compute. reflexivity.
  - left. unfold no_blank_line. apply find_None_absent. vm_compute. reflexivity.
Defined.

(** C1, the counterexample.  A request with a request line and one header
    but no blank line is malformed; the worker ends with the parser's
    [ValueError] in flight, having sent nothing.  So the faults of the
    parser are not contained. *)
Lemma parse_fault_escapes :
  malformed Example.no_blank_text
  /\ handleConnection (H := Example.sample_builtins) Example.server Example.addr
       (Example.connection [Example.no_blank])
     = (Raised (unpack_error 2 1),
        mkConn Example.world0 [] [] true)
  /\ ~ parse_faults_contained.
Proof.
  assert (Hbad : malformed Example.no_blank_text).
  { left. unfold no_blank_line. apply find_None_absent. vm_compute. reflexivity. }
  assert (Hrun : handleConnection (H := Example.sample_builtins) Example.server
                   Example.addr (Example.connection [Example.no_blank])
                 = (Raised (unpack_error 2 1), mkConn Example.world0 [] [] true)).
  { vm_compute. reflexivity. }
  split; [done|]. split; [done|].
  intros Hc.
  destruct (Hc Example.sample_builtins Example.server Example.addr
              (Example.connection [Example.no_blank]) Example.no_blank []
              Example.no_blank_text) as (v & c' & Hdone).
  - reflexivity.
  - vm_compute. discriminate.
  - vm_compute. reflexivity.
  - exact Hbad.
  - rewrite Hrun in Hdone. discriminate.
Qed.

(** A body that itself contains a blank line makes the first [split] return
    three pieces, and unpacking them into two names raises. *)
Example blank_line_in_body_raises :
  parseRequest
    (lit "POST /x HTTP/1.1" ++ crlf ++ crlf ++ lit "a" ++ crlf ++ crlf ++ lit "b")
  = Raised (unpack_error 2 3).
Proof. vm_compute. reflexivity. Qed.

(** A well-formed request, parsed. *)
Example parse_get_root :
  read_request (H := Example.sample_builtins) Example.addr Example.get_root
  = Done Example.root_request.
Proof. vm_compute. reflexivity. Qed.

(** * Further properties *)

(** ** The rate limiter *)

Section AllowedChecks.
Implicit Types (self : RateLimiter) (c : list N) (now : Z).

Lemma answers_length self calls : length (answers self calls) = length calls.
Proof.
  revert self. induction calls as [|call calls IH]; intros self; [done|].
  simpl. by rewrite IH.
Qed.

Lemma answers_snoc self calls call :
  answers self (calls ++ [call])
  = answers self calls
    ++ [fst (is_allowed_at (snd call) (run_calls self calls) (fst call))].
Proof. by rewrite answers_app. Qed.

Lemma allowed_times_snoc c self calls c' now :
  allowed_times c self (calls ++ [(c', now)])
  = allowed_times c self calls
    ++ (if decide (c' = c /\ fst (is_allowed_at now (run_calls self calls) c') = true)
        then [now] else []).
Proof.
  unfold allowed_times. rewrite answers_snoc. simpl.
  rewrite zip_with_app by (by rewrite answers_length).
  rewrite filter_app, map_app. f_equal. simpl.
  rewrite filter_cons, filter_nil. simpl. by repeat case_decide.
Qed.

Lemma allowed_times_checked c self calls t :
  t ∈ allowed_times c self calls -> t ∈ times_of c calls.
Proof.
  induction calls as [|[c' now] calls IH] using rev_ind; [by intros ?%elem_of_nil|].
  rewrite allowed_times_snoc. unfold times_of in *. rewrite filter_app, map_app.
  intros [Hin|Hin]%elem_of_app; apply elem_of_app; [left; by apply IH|right].
  case_decide as Hd; [|by apply elem_of_nil in Hin].
  destruct Hd as [-> _]. by rewrite filter_cons_True.
Qed.

Lemma times_of_app c (l1 l2 : list (list N * Z)) :
  times_of c (l1 ++ l2) = times_of c l1 ++ times_of c l2.
Proof. unfold times_of. by rewrite filter_app, map_app. Qed.

Lemma times_of_other c c' calls (t : Z) :
  c' ≠ c -> times_of c (calls ++ [(c', t)]) = times_of c calls.
Proof.
  intros Hne. rewrite times_of_app. unfold times_of at 2.
  rewrite filter_cons_False by done. simpl. by rewrite app_nil_r.
Qed.

Lemma times_of_in c calls (t : Z) : t ∈ times_of c calls -> t ∈ map snd calls.
Proof.
  unfold times_of. intros (call & -> & Hin)%list_elem_of_fmap.
  apply list_elem_of_filter in Hin as [_ Hin].
  apply list_elem_of_fmap. eauto.
Qed.

Lemma filter_length_mono {A} (P Q : A -> Prop) `{forall x, Decision (P x)}
  `{forall x, Decision (Q x)} (l : list A) :
  (forall x, P x -> Q x) -> (length (filter P l) <= length (filter Q l))%nat.
Proof.
  intros HPQ. induction l as [|x l IH]; [done|].
  rewrite !filter_cons. destruct (decide (P x)) as [HP|HP].
  - rewrite decide_True by auto. simpl. lia.
  - case_decide; simpl; lia.
Qed.

Lemma last_check_le c calls now :
  (forall t, t ∈ map snd calls -> (t <= now)%Z) ->
  times_of c calls ≠ [] -> (last_check c calls <= now)%Z.
Proof.
  intros Hle Hne. apply Hle, (times_of_in c). unfold last_check.
  destruct (exists_last Hne) as (l & t & ->). rewrite last_last.
  apply elem_of_app. right. by apply list_elem_of_singleton.
Qed.

Lemma sorted_snoc_le (l : list Z) (now : Z) :
  Sorted Z.le (l ++ [now]) ->
  Sorted Z.le l /\ forall t, t ∈ l -> (t <= now)%Z.
Proof.
  intros Hs. apply Sorted_StronglySorted in Hs; [|intros x y z; lia].
  apply StronglySorted_app in Hs as (Hle & Hl & _). split.
  - by apply StronglySorted_Sorted.
  - intros t Ht. apply (Hle t now Ht). by apply list_elem_of_singleton.
Qed.

Lemma last_check_snoc c calls (t : Z) : last_check c (calls ++ [(c, t)]) = t.
Proof. unfold last_check. by rewrite times_of_snoc, last_last. Qed.

Lemma last_check_other c c' calls (t : Z) :
  c' ≠ c -> last_check c (calls ++ [(c', t)]) = last_check c calls.
Proof. intros Hne. unfold last_check. by rewrite times_of_other. Qed.

(** What the limiter holds for a client at any moment of a run: the times
    of its allowed checks, as far as they were still inside the window when
    the client was last checked. *)
Lemma stored_is_recent_allowed (L W : Z) c calls :
  (0 < W)%Z -> Sorted Z.le (map snd calls) ->
  requests_of (run_calls (RateLimiter_init L W) calls) c
  = filter (fun t => last_check c calls - t < W)%Z
      (allowed_times c (RateLimiter_init L W) calls).
Proof.
  intros HW. set (init := RateLimiter_init L W).
  induction calls as [|[c' now] calls IH] using rev_ind; intros Hclock.
  - unfold init. simpl. by rewrite requests_of_init.
  - rewrite map_app in Hclock. simpl in Hclock.
    apply sorted_snoc_le in Hclock as [Hbefore Hle].
    specialize (IH Hbefore).
    rewrite run_calls_snoc, allowed_times_snoc. simpl.
    destruct (decide (c' = c)) as [->|Hne].
    + rewrite is_allowed_at_same, IH, last_check_snoc, filter_app.
      replace (window (run_calls init calls)) with W
        by (by rewrite run_calls_window).
      f_equal.
      * rewrite list_filter_filter.
        destruct (decide (times_of c calls = [])) as [Hnil|Hsome].
        -- assert (Hno : allowed_times c init calls = []).
           { destruct (allowed_times c init calls) as [|t l] eqn:E; [done|].
             assert (Hin : t ∈ times_of c calls).
             { apply (allowed_times_checked c init). rewrite E. by left. }
             rewrite Hnil in Hin. by apply elem_of_nil in Hin. }
           by rewrite Hno.
        -- pose proof (last_check_le c calls now Hle Hsome) as Hlast.
           apply list_filter_iff. intros t. split; [by intros [? _]|].
           intros Ht. split; [done|]. lia.
      * destruct (fst (is_allowed_at now (run_calls init calls) c)).
        -- rewrite decide_True by done. by rewrite filter_cons_True by lia.
        -- by rewrite decide_False by (by intros [_ ?]).
    + rewrite is_allowed_at_other by done. rewrite IH.
      rewrite decide_False by (by intros [? _]). rewrite app_nil_r.
      by rewrite last_check_other.
Qed.
End AllowedChecks.

Section SlidingWindow.
Implicit Types (self : RateLimiter) (c : list N) (now : Z).

(** What a check of [c] keeps of the stored stamps is what it would keep of
    all the allowed checks of [c]. *)
Lemma kept_is_recent_allowed (L W : Z) c calls now :
  (0 < W)%Z -> Sorted Z.le (map snd calls ++ [now]) ->
  filter (fun t => now - t < W)%Z
    (requests_of (run_calls (RateLimiter_init L W) calls) c)
  = filter (fun t => now - t < W)%Z
      (allowed_times c (RateLimiter_init L W) calls).
Proof.
  intros HW [Hbefore Hle]%sorted_snoc_le.
  rewrite stored_is_recent_allowed by done. rewrite list_filter_filter.
  destruct (allowed_times c (RateLimiter_init L W) calls) as [|t0 l] eqn:E; [done|].
  assert (Hsome : times_of c calls ≠ []).
  { intros Hnil. assert (Hin : t0 ∈ times_of c calls).
    { apply (allowed_times_checked c (RateLimiter_init L W)). rewrite E. by left. }
    rewrite Hnil in Hin. by apply elem_of_nil in Hin. }
  pose proof (last_check_le c calls now Hle Hsome) as Hlast.
  apply list_filter_iff. intros t. split; [by intros [? _]|].
  intros Ht. split; [done|]. lia.
Qed.

End SlidingWindow.

(** X1.  The sliding-window guarantee of [RateLimiter.is_allowed]: on a
    limiter created with a limit [L] that is not negative and a positive
    window [W], along any run of checks whose clock readings never
    decrease, the checks of one client that are allowed and whose readings
    fall in a span [T <= t < T + W] number at most [L], whatever [T] and
    whatever the other clients do. *)
Theorem window_admits_at_most_limit (L W : Z) (c : list N)
  (calls : list (list N * Z)) (T : Z) :
  (0 <= L)%Z -> (0 < W)%Z -> Sorted Z.le (map snd calls) ->
  (Z.of_nat (length (filter (fun t => T <= t < T + W)%Z
                       (allowed_times c (RateLimiter_init L W) calls))) <= L)%Z.
Proof.
  intros HL HW. set (init := RateLimiter_init L W).
  induction calls as [|[c' now] calls IH] using rev_ind; intros Hclock.
  - simpl. lia.
  - rewrite map_app in Hclock. simpl in Hclock.
    pose proof Hclock as [Hbefore Hle]%sorted_snoc_le.
    specialize (IH Hbefore).
    rewrite allowed_times_snoc, filter_app, length_app.
    case_decide as Hd; [|simpl; lia].
    destruct Hd as [-> Hyes].
    destruct (decide (T <= now < T + W)%Z) as [Hin|Hout].
    + rewrite filter_cons_True by done. simpl.
      apply is_allowed_at_answer in Hyes.
      rewrite run_calls_window, run_calls_limit in Hyes. simpl in Hyes.
      unfold init in Hyes. rewrite kept_is_recent_allowed in Hyes by done.
      assert (Hmono : (length (filter (fun t => T <= t < T + W)%Z
                                 (allowed_times c (RateLimiter_init L W) calls))
                       <= length (filter (fun t => now - t < W)%Z
                                    (allowed_times c (RateLimiter_init L W) calls)))%nat).
      { apply filter_length_mono. intros t Ht. simpl in *. lia. }
      unfold init. lia.
    + rewrite filter_cons_False by done. simpl. lia.
Qed.

(** With limit 2 and window 60, the span of 60 seconds from time 5 in a
    run where [a] is checked at 0, 10, 20, 30 and 64. *)
Lemma window_admits_at_most_limit_witness :
  (Z.of_nat (length (filter (fun t => 5 <= t < 5 + 60)%Z
                       (allowed_times (lit "a") (RateLimiter_init 2 60)
                          Busy.busy_run))) <= 2)%Z.
Proof.
  apply (window_admits_at_most_limit 2 60 (lit "a") Busy.busy_run 5);
    [lia | lia |].
  unfold Busy.busy_run. simpl.
  repeat first [apply Sorted_cons | apply Sorted_nil | apply HdRel_cons
               | apply HdRel_nil | lia].
Defined.

(** X2.  What the limiter stores: with a positive window and clock readings
    that never decrease, the stamps held for a client are exactly the
    readings of its allowed checks that were less than [W] old when the
    client was last checked, in the order of the checks.  A refused check
    leaves no stamp, and so does a check of another client. *)
Theorem stored_stamps_are_recent_allowed_checks (L W : Z) (c : list N)
  (calls : list (list N * Z)) :
  (0 < W)%Z -> Sorted Z.le (map snd calls) ->
  requests_of (run_calls (RateLimiter_init L W) calls) c
  = filter (fun t => last_check c calls - t < W)%Z
      (allowed_times c (RateLimiter_init L W) calls).
Proof. apply stored_is_recent_allowed. Qed.

Lemma stored_stamps_are_recent_allowed_checks_witness :
  requests_of (run_calls (RateLimiter_init 2 60) Busy.busy_run) (lit "a")
  = filter (fun t => last_check (lit "a") Busy.busy_run - t < 60)%Z
      (allowed_times (lit "a") (RateLimiter_init 2 60) Busy.busy_run).
Proof.
  apply (stored_stamps_are_recent_allowed_checks 2 60 (lit "a")
           Busy.busy_run); [lia|].
  unfold Busy.busy_run. simpl.
  repeat first [apply Sorted_cons | apply Sorted_nil | apply HdRel_cons
               | apply HdRel_nil | lia].
Defined.

Section Isolation.
Implicit Types (self : RateLimiter) (c : list N).

Lemma first_answers c (ts : list Z) self (n : nat) :
  (Z.of_nat (length (requests_of self c)) + Z.of_nat n <= limit self)%Z ->
  take n (answers self (map (pair c) ts))
  = repeat true (Nat.min n (length ts)).
Proof.
  revert self n. induction ts as [|now ts IH]; intros self n Hroom.
  - by destruct n.
  - destruct n as [|n]; [done|]. simpl.
    pose proof (length_filter (fun t => now - t < window self)%Z
                  (requests_of self c)) as Hkept.
    assert (Hyes : fst (is_allowed_at now self c) = true).
    { apply is_allowed_at_answer. lia. }
    rewrite Hyes. f_equal. apply IH.
    rewrite is_allowed_at_same, is_allowed_at_limit, Hyes, length_app. simpl. lia.
Qed.
End Isolation.

(** X3.  Clients do not affect each other in [RateLimiter.is_allowed]: the
    answers a client gets, and the stamps stored for it, depend only on the
    clock readings of its own checks.  Two runs that check [c] at the same
    readings give [c] the same answers and leave the same list for [c],
    whatever else the runs contain. *)
Theorem clients_are_isolated (self : RateLimiter) (c : list N)
  (calls calls' : list (list N * Z)) :
  times_of c calls = times_of c calls' ->
  answers_to c self calls = answers_to c self calls'
  /\ requests_of (run_calls self calls) c
     = requests_of (run_calls self calls') c.
Proof.
  intros Hsame. split.
  - by rewrite !answers_to_own, Hsame.
  - pose proof (run_calls_own c self calls) as H1.
    pose proof (run_calls_own c self calls') as H2.
    rewrite Hsame in H1. unfold agree_on in *.
    destruct H1 as (_ & _ & ->). by destruct H2 as (_ & _ & ->).
Qed.

(** X4.  No client is refused before it has made [limit] checks: on a new
    limiter the first [L] checks of every client are allowed, whatever the
    clock readings (even readings that go backwards) and whatever the
    window. *)
Theorem first_checks_are_allowed (L W : Z) (c : list N)
  (calls : list (list N * Z)) :
  take (Z.to_nat L) (answers_to c (RateLimiter_init L W) calls)
  = repeat true (Nat.min (Z.to_nat L) (length (times_of c calls))).
Proof.
  rewrite answers_to_own.
  destruct (decide (0 <= L)%Z) as [HL|HL].
  - apply first_answers. rewrite requests_of_init. simpl. lia.
  - replace (Z.to_nat L) with 0%nat by lia. done.
Qed.

Lemma clients_are_isolated_witness :
  answers_to (lit "a") (RateLimiter_init 2 60) Busy.busy_run
  = answers_to (lit "a") (RateLimiter_init 2 60) Busy.quiet_run
  /\ requests_of (run_calls (RateLimiter_init 2 60) Busy.busy_run) (lit "a")
     = requests_of (run_calls (RateLimiter_init 2 60) Busy.quiet_run) (lit "a").
Proof.
  apply (clients_are_isolated (RateLimiter_init 2 60) (lit "a") Busy.busy_run
           Busy.quiet_run).
  reflexivity.
Defined.

(** ** Cutting a text *)

Section Cutting.
Implicit Types (sep cur s p r : list N).

Lemma split_aux_skip sep (k : nat) cur s :
  split_aux sep k cur s = split_aux sep 0 cur (drop k s).
Proof.
  revert k. induction s as [|c s IH]; intros k.
  - by rewrite drop_nil.
  - destruct k as [|k]; [done|]. simpl. apply IH.
Qed.

Lemma split_aux_at sep cur r :
  sep ≠ [] -> split_aux sep 0 cur (sep ++ r) = rev cur :: split_aux sep 0 [] r.
Proof.
  destruct sep as [|x sep']; [done|]. intros _.
  change ((x :: sep') ++ r) with (x :: (sep' ++ r)).
  cbn [split_aux].
  change (x :: sep' ++ r) with ((x :: sep') ++ r). rewrite startswith_app.
  f_equal. rewrite split_aux_skip. simpl. rewrite Nat.sub_0_r.
  by rewrite drop_app_length.
Qed.

Lemma split_aux_walk (x : N) sep' p cur r :
  x ∉ p ->
  split_aux (x :: sep') 0 cur (p ++ r) = split_aux (x :: sep') 0 (rev p ++ cur) r.
Proof.
  revert cur. induction p as [|a p IH]; intros cur Hx; [done|].
  apply not_elem_of_cons in Hx as [Hne Hx].
  change ((a :: p) ++ r) with (a :: (p ++ r)). cbn [split_aux startswith].
  destruct (N.eqb_spec x a) as [->|_]; [done|].
  rewrite IH by done. simpl. by rewrite <- app_assoc.
Qed.

Lemma split_aux_join (x : N) sep' cur p (parts : list (list N)) :
  Forall (fun p => x ∉ p) (p :: parts) ->
  split_aux (x :: sep') 0 cur (join (x :: sep') (p :: parts))
  = (rev cur ++ p) :: parts.
Proof.
  revert cur p. induction parts as [|q parts IH]; intros cur p Hall.
  - apply Forall_cons in Hall as [Hp _]. simpl.
    rewrite <- (app_nil_r p) at 1. rewrite split_aux_walk by done. simpl.
    by rewrite rev_app_distr, rev_involutive.
  - apply Forall_cons in Hall as [Hp Hall].
    change (join (x :: sep') (p :: q :: parts))
      with (p ++ (x :: sep') ++ join (x :: sep') (q :: parts)).
    rewrite split_aux_walk by done. rewrite split_aux_at by done.
    rewrite rev_app_distr, rev_involutive. f_equal.
    by rewrite IH.
Qed.

(** Cutting a joined text gives the parts back, when none of them holds the
    first character of the separator. *)
Lemma split_join (x : N) sep' p (parts : list (list N)) :
  Forall (fun p => x ∉ p) (p :: parts) ->
  split (x :: sep') (join (x :: sep') (p :: parts)) = p :: parts.
Proof. intros Hall. unfold split. by rewrite split_aux_join. Qed.

Lemma find_char_first (x : N) p r : x ∉ p -> find [x] (p ++ x :: r) = Some (length p).
Proof.
  induction p as [|a p IH]; intros Hx.
  - simpl. by rewrite N.eqb_refl.
  - apply not_elem_of_cons in Hx as [Hne Hx].
    change ((a :: p) ++ x :: r) with (a :: (p ++ x :: r)). cbn [find startswith].
    destruct (N.eqb_spec x a) as [->|_]; [done|].
    by rewrite IH.
Qed.

Lemma find_startswith sep s : startswith sep s = true -> find sep s = Some 0%nat.
Proof. intros Hs. destruct s; simpl; by rewrite Hs. Qed.

(** [find] gives the leftmost occurrence. *)
Lemma find_occurrence sep a b :
  exists i, find sep (a ++ sep ++ b) = Some i /\ (i <= length a)%nat.
Proof.
  induction a as [|x a (i & Hi & Hle)].
  - exists 0%nat. split; [|done].
    change ([] ++ sep ++ b) with (sep ++ b). apply find_startswith, startswith_app.
  - change ((x :: a) ++ sep ++ b) with (x :: (a ++ sep ++ b)). cbn [find].
    destruct (startswith sep (x :: a ++ sep ++ b)).
    + exists 0%nat. split; [done|simpl; lia].
    + exists (S i). rewrite Hi. split; [done|simpl; lia].
Qed.

(** The first cut of [split] is at the place [find] gives. *)
Lemma split_aux_find sep cur s (i : nat) :
  sep ≠ [] -> find sep s = Some i ->
  split_aux sep 0 cur s
  = (rev cur ++ take i s) :: split_aux sep 0 [] (drop (i + length sep) s).
Proof.
  intros Hsep. revert cur i. induction s as [|c s IH]; intros cur i Hf.
  - destruct sep; [done|]. discriminate.
  - cbn [find] in Hf. cbn [split_aux].
    destruct (startswith sep (c :: s)) eqn:Hs.
    + injection Hf as <-. rewrite app_nil_r. f_equal.
      rewrite split_aux_skip. destruct sep; [done|]. simpl.
      by rewrite Nat.sub_0_r.
    + destruct (find sep s) as [j|] eqn:Hj; [|done]. injection Hf as <-.
      rewrite (IH (c :: cur) j) by done. simpl. by rewrite <- app_assoc.
Qed.

(** Two occurrences of the separator that do not overlap give three pieces
    at least. *)
Lemma split_two_occurrences sep a b1 b2 :
  sep ≠ [] ->
  (3 <= length (split sep (a ++ sep ++ b1 ++ sep ++ b2)))%nat.
Proof.
  intros Hsep. unfold split.
  destruct (find_occurrence sep a (b1 ++ sep ++ b2)) as (i & Hi & Hle).
  rewrite (split_aux_find sep [] _ i) by done.
  assert (Hrest : exists a', drop (i + length sep) (a ++ sep ++ b1 ++ sep ++ b2)
                             = a' ++ sep ++ b2).
  { exists (drop (i + length sep) (a ++ sep) ++ b1).
    rewrite <- app_assoc.
    replace (a ++ sep ++ b1 ++ sep ++ b2) with ((a ++ sep) ++ b1 ++ sep ++ b2)
      by by rewrite <- app_assoc.
    rewrite drop_app_le; [done|]. rewrite length_app. lia. }
  destruct Hrest as (a' & ->).
  destruct (find_occurrence sep a' b2) as (j & Hj & _).
  rewrite (split_aux_find sep [] _ j) by done.
  pose proof (split_aux_nonempty sep 0 []
                (drop (j + length sep) (a' ++ sep ++ b2))) as Hne.
  destruct (split_aux sep 0 [] (drop (j + length sep) (a' ++ sep ++ b2)));
    [done|]. simpl. lia.
Qed.

Lemma split_aux_line_end cur (y : N) r :
  y ≠ CR ->
  split_aux (crlf ++ crlf) 0 cur (CR :: LF :: y :: r)
  = split_aux (crlf ++ crlf) 0 (LF :: CR :: cur) (y :: r).
Proof.
  intros Hy. change (crlf ++ crlf) with [CR; LF; CR; LF].
  cbn [split_aux startswith].
  change (N.eqb CR CR) with true. change (N.eqb LF LF) with true.
  change (N.eqb CR LF) with false. cbn iota.
  by destruct (N.eqb_spec CR y) as [<-|_].
Qed.

(** The first empty line of a text made of lines is the one after the last
    of them, when the lines after the first are not empty and hold no
    carriage return. *)
Lemma split_aux_lines (lines : list (list N)) cur first body :
  CR ∉ first -> Forall (fun l => (CR ∉ l) /\ l ≠ []) lines ->
  split_aux (crlf ++ crlf) 0 cur
    (join crlf (first :: lines) ++ (crlf ++ crlf) ++ body)
  = (rev cur ++ join crlf (first :: lines))
    :: split_aux (crlf ++ crlf) 0 [] body.
Proof.
  revert cur first. induction lines as [|l lines IH]; intros cur first Hfirst Hall.
  - cbn [join]. change (crlf ++ crlf) with (CR :: [LF; CR; LF]).
    rewrite split_aux_walk by done. rewrite split_aux_at by done.
    by rewrite rev_app_distr, rev_involutive.
  - apply Forall_cons in Hall as [[Hl Hne] Hall].
    change (join crlf (first :: l :: lines))
      with (first ++ crlf ++ join crlf (l :: lines)).
    set (J := join crlf (l :: lines)).
    replace ((first ++ crlf ++ J) ++ (crlf ++ crlf) ++ body)
      with (first ++ CR :: LF :: (J ++ (crlf ++ crlf) ++ body))
      by (by rewrite <- !app_assoc).
    change (crlf ++ crlf) with (CR :: [LF; CR; LF]) at 1.
    rewrite split_aux_walk by done.
    change (CR :: [LF; CR; LF]) with (crlf ++ crlf).
    assert (Hstep : split_aux (crlf ++ crlf) 0 (rev first ++ cur)
                      (CR :: LF :: (J ++ (crlf ++ crlf) ++ body))
                    = split_aux (crlf ++ crlf) 0 (LF :: CR :: rev first ++ cur)
                        (J ++ (crlf ++ crlf) ++ body)).
    { destruct l as [|y l']; [done|].
      assert (Hy : y ≠ CR) by (intros ->; apply Hl; by left).
      assert (Hj : exists tl, J = y :: tl).
      { unfold J. destruct lines; simpl; eauto. }
      destruct Hj as [tl ->].
      by apply split_aux_line_end. }
    rewrite Hstep. unfold J. rewrite IH by done. f_equal.
    simpl. rewrite rev_app_distr, rev_involutive. by rewrite <- !app_assoc.
Qed.

End Cutting.

(** ** Parsing what a client wrote *)

Section WellFormed.
Context `{Builtins}.

Lemma header_line_colon (h : list N * list N) :
  header_line h = colon_line (fst h, space :: snd h).
Proof. done. Qed.

Lemma request_line_one_line (verb path version : list N) :
  field verb -> field path -> field version ->
  CR ∉ join (lit " ") [verb; path; version].
Proof.
  intros [Hv _] [Hp _] [Hr _]. cbn [join].
  rewrite !elem_of_app. change (lit " ") with [space].
  rewrite list_elem_of_singleton. intros [?|[?|[?|[?|?]]]]; done.
Qed.

(** The header loop on lines that each hold a colon. *)
Lemma parse_headers_colon_lines (raws : list (list N * list N))
  (acc : gmap (list N) (list N)) :
  Forall (fun h => colon ∉ fst h) raws ->
  parse_headers (map colon_line raws) acc
  = Done (fold_left (fun m h => <[fst h := drop 1 (snd h)]> m) raws acc).
Proof.
  revert acc. induction raws as [|[name rest] raws IH]; intros acc Hall; [done|].
  apply Forall_cons in Hall as [Hname Hall]. simpl in Hname.
  cbn [map parse_headers].
  change (colon_line (name, rest)) with (name ++ colon :: rest).
  change (lit ":") with [colon].
  rewrite find_char_first by done. cbv beta iota.
  rewrite take_app_length.
  replace (drop (length name + 2) (name ++ colon :: rest)) with (drop 1 rest).
  - by rewrite IH.
  - rewrite drop_app_add'; done.
Qed.

(** The parser on a request made of a request line, lines and a body. *)
Lemma parseRequest_lines (verb path version : list N) (lines : list (list N))
  (body : list N) :
  field verb -> field path -> field version ->
  Forall (fun l => (CR ∉ l) /\ l ≠ []) lines ->
  no_blank_line body ->
  parseRequest (request_lines verb path version lines body)
  = match parse_headers lines ∅ with
    | Done headers => Done (mkRequest verb path headers body None None)
    | Raised e => Raised e
    end.
Proof.
  intros Hv Hp Hr Hlines Hbody.
  pose proof (request_line_one_line verb path version Hv Hp Hr) as Hfirst.
  unfold parseRequest, request_lines, split.
  rewrite split_aux_lines by done.
  rewrite (split_aux_absent (crlf ++ crlf) [] body) by exact Hbody.
  cbn [rev app].
  change crlf with (CR :: [LF]) at 1.
  change (join crlf) with (join (CR :: [LF])).
  rewrite split_aux_join.
  2:{ constructor; [done|]. eapply Forall_impl; [exact Hlines|]. by intros l [? _]. }
  cbn [rev app].
  change (lit " ") with (space :: []).
  rewrite split_aux_join.
  2:{ destruct Hv as [_ ?], Hp as [_ ?], Hr as [_ ?]. by repeat constructor. }
  done.
Qed.

Lemma colon_lines_one_line (raws : list (list N * list N)) :
  Forall (fun h => (CR ∉ fst h) /\ (colon ∉ fst h) /\ (CR ∉ snd h)) raws ->
  Forall (fun l => (CR ∉ l) /\ l ≠ []) (map colon_line raws).
Proof.
  intros Hall. apply Forall_fmap. eapply Forall_impl; [exact Hall|].
  intros [name rest] (Hn & _ & Hr). simpl in *. unfold colon_line. simpl.
  change (lit ":" ++ rest) with (colon :: rest). split.
  - rewrite elem_of_app, elem_of_cons. intros [?|[?|?]]; done.
  - by destruct name.
Qed.

Lemma parseRequest_colon_lines (verb path version : list N)
  (raws : list (list N * list N)) (body : list N) :
  field verb -> field path -> field version ->
  Forall (fun h => (CR ∉ fst h) /\ (colon ∉ fst h) /\ (CR ∉ snd h)) raws ->
  no_blank_line body ->
  parseRequest (request_lines verb path version (map colon_line raws) body)
  = Done (mkRequest verb path
            (fold_left (fun m h => <[fst h := drop 1 (snd h)]> m) raws ∅)
            body None None).
Proof.
  intros Hv Hp Hr Hall Hbody.
  rewrite parseRequest_lines by (done || by apply colon_lines_one_line).
  rewrite parse_headers_colon_lines; [done|].
  eapply Forall_impl; [exact Hall|]. by intros h (_ & ? & _).
Qed.

Lemma parseRequest_request_text (verb path version : list N)
  (hs : list (list N * list N)) (body : list N) :
  field verb -> field path -> field version ->
  Forall plain_header hs -> no_blank_line body ->
  parseRequest (request_text verb path version hs body)
  = Done (mkRequest verb path (headers_of hs) body None None).
Proof.
  intros Hv Hp Hr Hall Hbody. unfold request_text.
  replace (map header_line hs)
    with (map colon_line (map (fun h => (fst h, space :: snd h)) hs)).
  2:{ rewrite map_map. apply map_ext. intros h. by rewrite header_line_colon. }
  rewrite parseRequest_colon_lines; try done.
  - do 2 f_equal. unfold headers_of. generalize (∅ : gmap (list N) (list N)).
    induction hs as [|h hs IH]; intros acc; [done|]. simpl.
    apply Forall_cons in Hall as [_ Hall]. by rewrite IH.
  - apply Forall_fmap. eapply Forall_impl; [exact Hall|].
    intros [name value] (Hn & Hc & Hval). simpl in *. split; [done|]. split; [done|].
    rewrite elem_of_cons. intros [?|?]; done.
Qed.

Lemma headers_of_snoc (hs : list (list N * list N)) h :
  headers_of (hs ++ [h]) = <[fst h := snd h]> (headers_of hs).
Proof. unfold headers_of. by rewrite fold_left_app. Qed.

Lemma headers_of_lookup (hs : list (list N * list N)) (name : list N) :
  headers_of hs !! name = last_named name hs.
Proof.
  induction hs as [|[n v] hs IH] using rev_ind; [done|].
  rewrite headers_of_snoc. unfold last_named in *. rewrite filter_app.
  simpl. destruct (decide (n = name)) as [->|Hne].
  - rewrite lookup_insert_eq. rewrite filter_cons_True by done.
    rewrite filter_nil. by rewrite last_snoc.
  - rewrite lookup_insert_ne by done. rewrite filter_cons_False by done.
    rewrite filter_nil, app_nil_r. exact IH.
Qed.

End WellFormed.

Ltac decided := apply (bool_decide_unpack _); vm_compute; reflexivity.

(** X5.  [__parseRequest] reads back what a client wrote: for a request
    line of three fields without spaces, header lines [name: value] whose
    names hold no colon, none of these with a carriage return in it, and a
    body without an empty line, the parser returns the verb, the path, the
    headers and the body unchanged (the version is dropped). *)
Theorem parse_reads_back_request (verb path version : list N)
  (hs : list (list N * list N)) (body : list N) :
  field verb -> field path -> field version ->
  Forall plain_header hs -> no_blank_line body ->
  parseRequest (request_text verb path version hs body)
  = Done (mkRequest verb path (headers_of hs) body None None).
Proof. apply parseRequest_request_text. Qed.

Lemma parse_reads_back_request_witness :
  parseRequest
    (request_text (lit "POST") (lit "/notes") (lit "HTTP/1.1")
       Upload.some_headers (lit "a=1&b=2"))
  = Done (mkRequest (lit "POST") (lit "/notes") (headers_of Upload.some_headers)
            (lit "a=1&b=2") None None).
Proof.
  apply parse_reads_back_request.
  - split; decided.
  - split; decided.
  - split; decided.
  - repeat constructor; decided.
  - unfold no_blank_line. apply find_None_absent. reflexivity.
Defined.

(** X6.  How [__parseRequest] finds a header's value: it starts two
    characters after the first colon of the line ([line[idx+2:]]), whatever
    the character after the colon is.  A line [Host:localhost] gives the
    value [ocalhost], a line [Accept:  text/html] keeps one of the two
    spaces, and a line that ends with its colon gives the empty value. *)
Theorem header_value_skips_one_character (verb path version : list N)
  (raws : list (list N * list N)) (body : list N) :
  field verb -> field path -> field version ->
  Forall plain_header raws -> no_blank_line body ->
  parseRequest (request_lines verb path version (map colon_line raws) body)
  = Done (mkRequest verb path (headers_after_colon raws) body None None).
Proof.
  intros Hv Hp Hr Hall Hbody.
  rewrite parseRequest_colon_lines by done. do 2 f_equal.
  unfold headers_after_colon, headers_of.
  generalize (∅ : gmap (list N) (list N)).
  induction raws as [|h raws IH]; intros acc; [done|].
  apply Forall_cons in Hall as [_ Hall]. simpl. by rewrite IH.
Qed.

Lemma header_value_skips_one_character_witness :
  parseRequest
    (request_lines (lit "GET") (lit "/") (lit "HTTP/1.1")
       (map colon_line Upload.some_colon_lines) [])
  = Done (mkRequest (lit "GET") (lit "/")
            (headers_after_colon Upload.some_colon_lines) [] None None).
Proof.
  apply header_value_skips_one_character.
  - split; decided.
  - split; decided.
  - split; decided.
  - repeat constructor; decided.
  - unfold no_blank_line. apply find_None_absent. reflexivity.
Defined.

(** X7.  A header sent more than once: [__parseRequest] keeps, for each
    name, the value of the last line with that name, and names are compared
    character by character (so [Host] and [host] are two headers). *)
Theorem repeated_header_last_wins (verb path version : list N)
  (hs : list (list N * list N)) (body : list N) :
  field verb -> field path -> field version ->
  Forall plain_header hs -> no_blank_line body ->
  exists request,
    parseRequest (request_text verb path version hs body) = Done request
    /\ forall name, headers request !! name = last_named name hs.
Proof.
  intros Hv Hp Hr Hall Hbody. eexists. split.
  - by apply parseRequest_request_text.
  - intros name. apply headers_of_lookup.
Qed.

Lemma repeated_header_last_wins_witness :
  exists request,
    parseRequest
      (request_text (lit "POST") (lit "/notes") (lit "HTTP/1.1")
         Upload.some_headers (lit "a=1&b=2")) = Done request
    /\ forall name, headers request !! name = last_named name Upload.some_headers.
Proof.
  apply repeated_header_last_wins.
  - split; decided.
  - split; decided.
  - split; decided.
  - repeat constructor; decided.
  - unfold no_blank_line. apply find_None_absent. reflexivity.
Defined.

Section SecondBlankLine.
Context `{Builtins}.

Lemma parseRequest_two_blank_lines (a b1 b2 : list N) :
  parseRequest (a ++ (crlf ++ crlf) ++ b1 ++ (crlf ++ crlf) ++ b2)
  = Raised (Exc ValueError
              [PStr (lit "too many values to unpack (expected 2)")]).
Proof.
  unfold parseRequest.
  pose proof (split_two_occurrences (crlf ++ crlf) a b1 b2 ltac:(done)) as Hlen.
  destruct (split (crlf ++ crlf) (a ++ (crlf ++ crlf) ++ b1 ++ (crlf ++ crlf) ++ b2))
    as [|h [|b [|x rest]]]; simpl in Hlen; try lia.
  reflexivity.
Qed.

End SecondBlankLine.

(** X8.  A body with an empty line in it cannot be received: when the
    request text holds the sequence CR LF CR LF twice (once after the
    headers and once more in the body), the unpacking of
    [reqstr.split(sep + sep)] fails with a [ValueError], which nothing in
    the worker catches: no response is sent and the connection is
    closed. *)
Theorem blank_line_in_body_is_fatal `{Builtins} (self : Server)
  (addr : list N * Z) (c : Conn) (data : string) (rest : list string)
  (head body1 body2 : list N) :
  unread c = data :: rest -> data ≠ EmptyString ->
  decode (rstrip_nul data)
  = Done (head ++ (crlf ++ crlf) ++ body1 ++ (crlf ++ crlf) ++ body2) ->
  handleConnection self addr c
  = (Raised (Exc ValueError
               [PStr (lit "too many values to unpack (expected 2)")]),
     close (after_recv c rest)).
Proof.
  intros Hun Hne Hdec.
  rewrite (handleConnection_first self addr c data rest Hun Hne).
  rewrite (process_unreadable self addr data
             (Exc ValueError [PStr (lit "too many values to unpack (expected 2)")]));
    [done|].
  unfold read_request. by rewrite Hdec, parseRequest_two_blank_lines.
Qed.

Lemma blank_line_in_body_is_fatal_witness :
  handleConnection (H := Example.sample_builtins) Example.server Example.addr
    (Example.connection [Upload.two_paragraphs])
  = (Raised (Exc ValueError
               [PStr (lit "too many values to unpack (expected 2)")]),
     close (after_recv (Example.connection [Upload.two_paragraphs]) [])).
Proof.
  apply (blank_line_in_body_is_fatal (H := Example.sample_builtins) Example.server
           Example.addr (Example.connection [Upload.two_paragraphs])
           Upload.two_paragraphs [] Upload.two_paragraphs_head
           (lit "first paragraph") (lit "second paragraph")).
  - reflexivity.
  - discriminate.
  - reflexivity.
Defined.

(** ** Handlers that raise *)

Section HandlerFaults.
Context `{Builtins}.

Lemma wrapper_catches (name : list N) (func : Handler) (request : Request)
  (w w' : World) (e : exn) :
  func request w = (Raised e, w') -> is_Exception e = true ->
  wrapper name func request w
  = (Done (PTuple [PStr (lit "Internal Server Error: " ++ exn_str e); PInt 500]),
     logged w' [lit "Error in " ++ name ++ lit ": " ++ exn_str e]).
Proof.
  intros Hf He. unfold wrapper, try_except. rewrite Hf, He. done.
Qed.

Lemma wrapper_lets_through (name : list N) (func : Handler) (request : Request)
  (w w' : World) (e : exn) :
  func request w = (Raised e, w') -> is_Exception e = false ->
  wrapper name func request w = (Raised e, w').
Proof. intros Hf He. unfold wrapper, try_except. by rewrite Hf, He. Qed.

Lemma wrapper_transparent (name : list N) (func : Handler) (request : Request)
  (w w' : World) (v : pyobj) :
  func request w = (Done v, w') -> wrapper name func request w = (Done v, w').
Proof. intros Hf. unfold wrapper, try_except. by rewrite Hf. Qed.

Lemma process_handler_raises (self : Server) addr data (request : Request)
  (h : Handler) (c : Conn) (e : exn) (w' : World) :
  read_request addr data = Done request ->
  routes self !! pathkey_of request = Some h ->
  invoke self h request (world c) = (Raised e, w') ->
  process self addr data c = (Raised e, mkConn w' (unread c) (sent c) (closed c)).
Proof.
  intros Hreq Hroute Hinv.
  rewrite (process_routed self addr data request h c Hreq Hroute).
  unfold bind, in_world. by rewrite Hinv.
Qed.

End HandlerFaults.

(** X9.  What [register]'s wrapper does with a failing route function: when
    the function raises an exception [e] that [except Exception] catches,
    the line [Error in <name>: <str(e)>] goes to the log, the client gets
    status 500 with the body [Internal Server Error: <str(e)>] (here for a
    message of ASCII characters), and the worker returns normally and
    closes the connection. *)
Theorem failing_handler_answers_500 `{Builtins} (self : Server)
  (addr : list N * Z) (c : Conn) (data : string) (rest : list string)
  (request : Request) (name : list N) (func : Handler) (e : exn) (w' : World) :
  unread c = data :: rest -> data ≠ EmptyString ->
  read_request addr data = Done request ->
  routes self !! pathkey_of request = Some (wrapper name func) ->
  beforeAllMiddlewares self = [] ->
  func request (world c) = (Raised e, w') ->
  is_Exception e = true -> is_ascii (exn_str e) = true ->
  handleConnection self addr c
  = (Done PNone,
     close (after_send
              (mkConn (logged w' [lit "Error in " ++ name ++ lit ": " ++ exn_str e])
                 rest (sent c) (closed c))
              (of_octets
                 (plain_response 500 (lit "Internal Server Error: " ++ exn_str e))))).
Proof.
  intros Hun Hne Hreq Hroute Hnone Hf He Hascii.
  assert (Hp : process self addr data (after_recv c rest)
               = (Done (Return PNone),
                  after_send
                    (mkConn (logged w' [lit "Error in " ++ name ++ lit ": " ++ exn_str e])
                       rest (sent c) (closed c))
                    (of_octets
                       (plain_response 500
                          (lit "Internal Server Error: " ++ exn_str e))))).
  { rewrite (process_routed self addr data request (wrapper name func) _ Hreq Hroute).
    unfold bind at 1, in_world, invoke. rewrite Hnone. cbn [world after_recv].
    rewrite (wrapper_catches name func request (world c) w' e Hf He).
    cbn [unread sent closed].
    apply deliver_pair_plain. rewrite is_ascii_app. by rewrite Hascii. }
  rewrite (handleConnection_first self addr c data rest Hun Hne).
  by rewrite Hp.
Qed.

(** For a handler that raises [RuntimeError('no database')], and for one
    that raises a [FileNotFoundError], whose text names the file. *)
Lemma failing_handler_answers_500_witness :
  handleConnection (H := Example.sample_builtins) Faulty.server_wrapped
    Example.addr (Example.connection [Example.get_root])
  = (Done PNone,
     close (after_send
              (mkConn (logged Example.world0
                         [lit "Error in broken: no database"])
                 [] [] false)
              (of_octets
                 (plain_response (H := Example.sample_builtins) 500
                    (lit "Internal Server Error: no database")))))
  /\ handleConnection (H := Example.sample_builtins) Faulty.server_reader
       Example.addr (Example.connection [Example.get_root])
     = (Done PNone,
        close (after_send
                 (mkConn (logged Example.world0
                            [lit "Error in reader: [Errno 2] No such file or directory: 'data.csv'"])
                    [] [] false)
                 (of_octets
                    (plain_response (H := Example.sample_builtins) 500
                       (lit "Internal Server Error: [Errno 2] No such file or directory: 'data.csv'"))))).
Proof.
  split.
  - apply (failing_handler_answers_500 (H := Example.sample_builtins)
             Faulty.server_wrapped Example.addr
             (Example.connection [Example.get_root]) Example.get_root []
             Example.root_request (lit "broken") Faulty.broken
             (Exc (UserException "RuntimeError") [PStr (lit "no database")])
             Example.world0).
    + reflexivity.
    + discriminate.
    + vm_compute. reflexivity.
    + vm_compute. reflexivity.
    + reflexivity.
    + reflexivity.
    + reflexivity.
    + reflexivity.
  - apply (failing_handler_answers_500 (H := Example.sample_builtins)
             Faulty.server_reader Example.addr
             (Example.connection [Example.get_root]) Example.get_root []
             Example.root_request (lit "reader") Faulty.reader
             Faulty.no_such_file Example.world0).
    + reflexivity.
    + discriminate.
    + vm_compute. reflexivity.
    + vm_compute. reflexivity.
    + reflexivity.
    + reflexivity.
    + reflexivity.
    + reflexivity.
Defined.

(** X10.  What the worker does not catch: an exception raised by what is
    stored under the route's key leaves [__handleConnection] with no
    response sent and the connection closed.  This is the fate of a handler
    stored by [registerHandler], which gets no wrapper, of a middleware
    that raises around a route, and of a [KeyboardInterrupt] or
    [SystemExit] raised inside a function registered with [register],
    which the wrapper's [except Exception] lets through. *)
Theorem unguarded_fault_closes_connection `{Builtins} (self : Server)
  (addr : list N * Z) (c : Conn) (data : string) (rest : list string)
  (request : Request) (h : Handler) (e : exn) (w' : World) :
  unread c = data :: rest -> data ≠ EmptyString ->
  read_request addr data = Done request ->
  routes self !! pathkey_of request = Some h ->
  beforeAllMiddlewares self = [] ->
  ((h request (world c) = (Raised e, w'))
   \/ (exists name func,
         h = wrapper name func
         /\ func request (world c) = (Raised e, w')
         /\ is_Exception e = false)) ->
  handleConnection self addr c
  = (Raised e, close (mkConn w' rest (sent c) (closed c))).
Proof.
  intros Hun Hne Hreq Hroute Hnone Hcase.
  assert (Hh : h request (world c) = (Raised e, w')).
  { destruct Hcase as [Hh|(name & func & -> & Hf & He)]; [done|].
    by apply wrapper_lets_through. }
  assert (Hp : process self addr data (after_recv c rest)
               = (Raised e, mkConn w' rest (sent c) (closed c))).
  { rewrite (process_handler_raises self addr data request h (after_recv c rest)
               e w' Hreq Hroute); [done|].
    unfold invoke. by rewrite Hnone. }
  rewrite (handleConnection_first self addr c data rest Hun Hne).
  by rewrite Hp.
Qed.

Lemma unguarded_fault_closes_connection_witness :
  handleConnection (H := Example.sample_builtins) Faulty.server_bare
    Example.addr (Example.connection [Example.get_root])
  = (Raised (Exc (UserException "RuntimeError") [PStr (lit "no database")]),
     close (mkConn Example.world0 []
              (sent (Example.connection [Example.get_root]))
              (closed (Example.connection [Example.get_root])))).
Proof.
  apply (unguarded_fault_closes_connection (H := Example.sample_builtins)
           Faulty.server_bare Example.addr
           (Example.connection [Example.get_root]) Example.get_root []
           Example.root_request Faulty.broken).
  - reflexivity.
  - discriminate.
  - vm_compute. reflexivity.
  - vm_compute. reflexivity.
  - reflexivity.
  - left. reflexivity.
Defined.

(** ** The registry and the keys of requests *)

Section Registry.
Context `{Builtins}.

Lemma perform_keys (self self' : Server) (r : registration) :
  (forall key h, routes self !! key = Some h -> isPathValid key = true) ->
  perform self r = Done self' ->
  forall key h, routes self' !! key = Some h -> isPathValid key = true.
Proof.
  intros Hinv Hp key h Hk.
  destruct r as [path handler|path middleware name func|func]; simpl in Hp.
  - unfold registerHandler in Hp.
    destruct (isPathValid path) eqn:Hv; [|discriminate]. simpl in Hp.
    apply Done_inj in Hp. subst self'. simpl in Hk.
    destruct (decide (key = path)) as [->|Hne]; [done|].
    rewrite lookup_insert_ne in Hk by done. by apply (Hinv key h).
  - unfold register in Hp.
    destruct (isPathValid path) eqn:Hv; [|discriminate]. simpl in Hp.
    apply Done_inj in Hp. subst self'. unfold decorator in Hk. simpl in Hk.
    destruct (decide (key = path)) as [->|Hne]; [done|].
    rewrite lookup_insert_ne in Hk by done. by apply (Hinv key h).
  - apply Done_inj in Hp. subst self'. by apply (Hinv key h).
Qed.

Lemma perform_middlewares (self self' : Server) (r : registration) :
  perform self r = Done self' ->
  beforeAllMiddlewares self'
  = beforeAllMiddlewares self
    ++ match r with BeforeAll func => [func] | _ => [] end.
Proof.
  intros Hp. destruct r as [path handler|path middleware name func|func];
    simpl in Hp.
  - unfold registerHandler in Hp. destruct (negb (isPathValid path)); [done|].
    apply Done_inj in Hp. subst self'. simpl. by rewrite app_nil_r.
  - unfold register in Hp. destruct (negb (isPathValid path)); [done|].
    apply Done_inj in Hp. subst self'. simpl. by rewrite app_nil_r.
  - apply Done_inj in Hp. by subst self'.
Qed.

Lemma registered_snoc (rs : list registration) (r : registration) :
  registered (rs ++ [r])
  = match perform (registered rs) r with
    | Done self' => self'
    | Raised _ => registered rs
    end.
Proof. unfold registered. by rewrite fold_left_app. Qed.

Lemma registered_keys (rs : list registration) :
  forall key h, routes (registered rs) !! key = Some h -> isPathValid key = true.
Proof.
  induction rs as [|r rs IH] using rev_ind.
  - intros key h Hk. unfold registered in Hk. simpl in Hk.
    by rewrite lookup_empty in Hk.
  - rewrite registered_snoc.
    destruct (perform (registered rs) r) as [self'|e] eqn:Hp; [|done].
    by apply (perform_keys (registered rs) self' r).
Qed.

Lemma registered_middlewares (rs : list registration) :
  beforeAllMiddlewares (registered rs) = global_middlewares rs.
Proof.
  induction rs as [|r rs IH] using rev_ind; [done|].
  rewrite registered_snoc. unfold global_middlewares in *. rewrite omap_app.
  destruct (perform (registered rs) r) as [self'|e] eqn:Hp.
  - rewrite (perform_middlewares _ _ _ Hp), IH. by destruct r.
  - rewrite IH. destruct r as [path handler|path middleware name func|func];
      simpl in *; by rewrite ?app_nil_r.
Qed.

Lemma elem_of_rev {A} (x : A) (l : list A) : x ∈ rev l <-> x ∈ l.
Proof. rewrite !list_elem_of_In. symmetry. apply in_rev. Qed.

(** A piece cut at a character does not hold the character. *)
Lemma split_aux_char_pieces (x : N) (cur s piece : list N) :
  x ∉ cur -> piece ∈ split_aux [x] 0 cur s -> x ∉ piece.
Proof.
  revert cur. induction s as [|ch s IH]; intros cur Hcur Hin.
  - simpl in Hin. apply list_elem_of_singleton in Hin as ->.
    by rewrite elem_of_rev.
  - cbn [split_aux startswith] in Hin.
    destruct (N.eqb_spec x ch) as [->|Hne].
    + simpl in Hin. apply elem_of_cons in Hin as [->|Hin].
      * by rewrite elem_of_rev.
      * apply (IH []); [apply not_elem_of_nil | done].
    + apply (IH (ch :: cur)); [|done].
      apply not_elem_of_cons. split; [done | done].
Qed.

Lemma parseRequest_verb (reqstr : list N) (parsed : Request) :
  parseRequest reqstr = Done parsed -> space ∉ verb parsed.
Proof.
  unfold parseRequest. intros Hp.
  destruct (split (crlf ++ crlf) reqstr) as [|head [|body [|? ?]]]; try done.
  destruct (split crlf head) as [|first headlines]; [done|].
  destruct (split (lit " ") first) as [|v [|p [|x [|? ?]]]] eqn:Hs; try done.
  destruct (parse_headers headlines ∅); [|done].
  apply Done_inj in Hp. subst parsed. simpl.
  apply (split_aux_char_pieces space [] first); [apply not_elem_of_nil|].
  change (split_aux [space] 0 [] first) with (split (lit " ") first).
  rewrite Hs. by left.
Qed.

Lemma read_request_verb addr data (request : Request) :
  read_request addr data = Done request -> space ∉ verb request.
Proof.
  unfold read_request. intros Hr.
  destruct (decode (rstrip_nul data)) as [reqstr|]; [|done].
  destruct (parseRequest reqstr) as [parsed|] eqn:Hp; [|done].
  destruct (parse_body _); [|done].
  apply Done_inj in Hr. subst request. simpl.
  by apply (parseRequest_verb reqstr).
Qed.

Lemma app_cons_unique {A} (x : A) (a a' b b' : list A) :
  x ∉ a -> x ∉ a' -> a ++ x :: b = a' ++ x :: b' -> a = a' /\ b = b'.
Proof.
  revert a'. induction a as [|y a IH]; intros a' Ha Ha' Heq.
  - destruct a' as [|y' a']; simpl in Heq.
    + by injection Heq as ->.
    + injection Heq as <- _. exfalso. apply Ha'. by left.
  - destruct a' as [|y' a']; simpl in Heq.
    + injection Heq as -> _. exfalso. apply Ha. by left.
    + injection Heq as -> Heq.
      apply not_elem_of_cons in Ha as [_ Ha].
      apply not_elem_of_cons in Ha' as [_ Ha'].
      destruct (IH a' Ha Ha' Heq) as [-> ->]. done.
Qed.

Lemma verbs_without_space (v : list N) : v ∈ verbs -> space ∉ v.
Proof.
  unfold verbs. intros Hv.
  repeat (apply elem_of_cons in Hv as [->|Hv]; [decided|]).
  by apply elem_of_nil in Hv.
Qed.

(** A request can only meet a valid key if its verb is one of the seven
    and its path starts with a slash. *)
Lemma valid_key_of_request (request : Request) :
  space ∉ verb request ->
  isPathValid (pathkey_of request) = true ->
  verb request ∈ verbs /\ startswith (lit "/") (path request) = true.
Proof.
  intros Hsp Hvalid. apply isPathValid_shape in Hvalid.
  destruct Hvalid as (v & rest & Hv & _ & Hshape).
  unfold pathkey_of in Hshape.
  assert (Hcut : exists tl, verb request ++ space :: path request
                            = v ++ space :: 47%N :: tl).
  { destruct Hshape as [Hs|Hs]; [exists rest | exists (rest ++ [LF])]; exact Hs. }
  destruct Hcut as [tl Hcut].
  apply app_cons_unique in Hcut as [Hverb Hpath];
    [|done|by apply verbs_without_space].
  split; [by rewrite Hverb|]. by rewrite Hpath.
Qed.

End Registry.

(** X11.  The registry only ever holds valid keys: after any sequence of
    calls of [registerHandler], of [register] with its decorator applied,
    and of [beforeAll], some of them refused, every key in [routes]
    satisfies [__isPathValid] (one of the seven verbs, a space, a path
    starting with a slash), and [beforeAllMiddlewares] holds the functions
    given to [beforeAll] in the order of the calls. *)
Theorem registry_holds_valid_keys `{Builtins} (rs : list registration) :
  (forall key h,
     routes (registered rs) !! key = Some h ->
     isPathValid key = true /\ route_key_shape key)
  /\ beforeAllMiddlewares (registered rs) = global_middlewares rs.
Proof.
  split; [|apply registered_middlewares].
  intros key h Hk. pose proof (registered_keys rs key h Hk) as Hv.
  split; [done|]. by apply isPathValid_shape.
Qed.

(** X12.  No route for an unknown verb: whatever has been registered, a
    request whose verb is not one of GET, POST, PUT, DELETE, HEAD, OPTIONS
    and PATCH (compared exactly, so [get] is unknown), or whose path does
    not start with a slash, finds no handler; no handler or middleware
    runs, and the client gets status 404 with an empty body. *)
Theorem unknown_verb_gets_404 `{Builtins} (rs : list registration)
  (addr : list N * Z) (c : Conn) (data : string) (rest : list string)
  (request : Request) :
  unread c = data :: rest -> data ≠ EmptyString ->
  read_request addr data = Done request ->
  (verb request ∉ verbs) \/ startswith (lit "/") (path request) = false ->
  routes (registered rs) !! pathkey_of request = None
  /\ handleConnection (registered rs) addr c
     = (Done PNone,
        close (after_send (after_recv c rest) (of_octets (plain_response 404 [])))).
Proof.
  intros Hun Hne Hreq Hodd.
  assert (Hnone : routes (registered rs) !! pathkey_of request = None).
  { destruct (routes (registered rs) !! pathkey_of request) as [h|] eqn:Hk; [|done].
    exfalso. apply registered_keys in Hk.
    apply valid_key_of_request in Hk as [Hverb Hpath];
      [|by apply (read_request_verb addr data)].
    destruct Hodd as [Hodd|Hodd]; [done|]. by rewrite Hpath in Hodd. }
  split; [done|].
  rewrite (handleConnection_first (registered rs) addr c data rest Hun Hne).
  by rewrite (process_unrouted (registered rs) addr data request _ Hreq Hnone).
Qed.

Lemma unknown_verb_gets_404_witness :
  routes (registered (H := Example.sample_builtins) Faulty.setup)
    !! pathkey_of Faulty.trace_request = None
  /\ handleConnection (H := Example.sample_builtins)
       (registered (H := Example.sample_builtins) Faulty.setup) Example.addr
       (Example.connection [Faulty.trace_root])
     = (Done PNone,
        close (after_send (after_recv (Example.connection [Faulty.trace_root]) [])
                 (of_octets (plain_response (H := Example.sample_builtins) 404 [])))).
Proof.
  apply (unknown_verb_gets_404 (H := Example.sample_builtins) Faulty.setup
           Example.addr (Example.connection [Faulty.trace_root])
           Faulty.trace_root [] Faulty.trace_request).
  - reflexivity.
  - discriminate.
  - vm_compute. reflexivity.
  - left. decided.
Defined.

(** ** One connection *)

Section OneExchange.
Context `{Builtins}.

Lemma respond_one_more resp code headers (c : Conn) :
  unread (snd (respond resp code headers c)) = unread c
  /\ one_more (sent c) (sent (snd (respond resp code headers c))).
Proof.
  destruct (respond_shape resp code headers c) as [[d ->]|[e ->]]; simpl.
  - split; [done|]. right. eauto.
  - split; [done|]. by left.
Qed.

Lemma deliver_one_more result (c : Conn) :
  unread (snd (deliver result c)) = unread c
  /\ one_more (sent c) (sent (snd (deliver result c))).
Proof.
  assert (Hchk : forall r code headers,
             let m := (resp <- lift (checkIfResultIsDict r) ;; respond resp code headers)%py in
             unread (snd (m c)) = unread c
             /\ one_more (sent c) (sent (snd (m c)))).
  { intros r code headers. unfold bind, lift.
    destruct (checkIfResultIsDict r); [apply respond_one_more|].
    simpl. split; [done|]. by left. }
  unfold deliver.
  destruct result as [| | | | |items| |]; try apply Hchk.
  destruct items as [|a [|b [|d [|e items]]]]; try apply Hchk;
    unfold bind, lift, sendall, raise;
    destruct (writeReponse _ _ _ _); simpl;
    (split; [done|]); first [by left | right; eauto].
Qed.

Lemma process_one_more (self : Server) addr data (c : Conn) :
  unread (snd (process self addr data c)) = unread c
  /\ one_more (sent c) (sent (snd (process self addr data c))).
Proof.
  destruct (read_request addr data) as [request|e] eqn:Hreq.
  - destruct (routes self !! pathkey_of request) as [h|] eqn:Hroute.
    + rewrite (process_routed self addr data request h c Hreq Hroute).
      unfold bind, in_world.
      destruct (invoke self h request (world c)) as [[result|e] w].
      * apply (deliver_one_more result (mkConn w (unread c) (sent c) (closed c))).
      * simpl. split; [done|]. by left.
    + rewrite (process_unrouted self addr data request c Hreq Hroute).
      simpl. split; [done|]. right. eauto.
  - rewrite (process_unreadable self addr data e c Hreq).
    simpl. split; [done|]. by left.
Qed.

Lemma rstrip_nul_only (k : nat) : rstrip_nul (nuls k) = EmptyString.
Proof. induction k as [|k IH]; [done|]. simpl. by rewrite IH. Qed.

Lemma rstrip_nul_padding (data : string) (k : nat) :
  rstrip_nul (data ++ nuls k) = rstrip_nul data.
Proof.
  induction data as [|a data IH]; simpl.
  - apply rstrip_nul_only.
  - by rewrite IH.
Qed.

Lemma encode_unencodable (a b : list N) :
  utf8 b = None -> encode (a ++ b) = Raised (Exc UnicodeEncodeError []).
Proof.
  intros Hb. unfold encode. rewrite utf8_app, Hb. by destruct (utf8 a).
Qed.

End OneExchange.

(** X13.  One read and at most one write per connection: whatever the peer
    sends and whatever the handlers do, [__handleConnection] takes one
    chunk from the socket (none when there is none), adds at most one
    message to what was sent, and leaves the socket closed, also when it
    ends with an exception.  Chunks after the first are never read. *)
Theorem worker_reads_once_writes_at_most_once `{Builtins} (self : Server)
  (addr : list N * Z) (c : Conn) :
  unread (snd (handleConnection self addr c)) = tail (unread c)
  /\ one_more (sent c) (sent (snd (handleConnection self addr c)))
  /\ closed (snd (handleConnection self addr c)) = true.
Proof.
  destruct (unread c) as [|data rest] eqn:Hun.
  - unfold handleConnection. rewrite Hun. simpl.
    split; [done|]. split; [by left | done].
  - destruct (decide (data = EmptyString)) as [->|Hne].
    + unfold handleConnection. rewrite Hun. simpl.
      split; [done|]. split; [by left | done].
    + rewrite (handleConnection_first self addr c data rest Hun Hne).
      destruct (process_one_more self addr data (after_recv c rest)) as [Hu Hs].
      simpl. split; [by rewrite Hu|]. split; [exact Hs | done].
Qed.

(** X14.  Zero octets at the end of a chunk do not count
    ([data.rstrip(b'\x00')]): a chunk followed by any number of them is
    handled exactly as the chunk alone. *)
Theorem nul_padding_is_ignored `{Builtins} (self : Server) (addr : list N * Z)
  (w : World) (data : string) (k : nat) (rest snt : list string) (cl : bool) :
  data ≠ EmptyString ->
  handleConnection self addr (mkConn w ((data ++ nuls k)%string :: rest) snt cl)
  = handleConnection self addr (mkConn w (data :: rest) snt cl).
Proof.
  intros Hne.
  assert (Hne' : (data ++ nuls k)%string ≠ EmptyString).
  { destruct data; [done | discriminate]. }
  rewrite (handleConnection_first self addr
             (mkConn w ((data ++ nuls k)%string :: rest) snt cl)
             (data ++ nuls k)%string rest eq_refl Hne').
  rewrite (handleConnection_first self addr (mkConn w (data :: rest) snt cl)
             data rest eq_refl Hne).
  assert (Hsame : forall c', process self addr (data ++ nuls k)%string c'
                             = process self addr data c').
  { intros c'. unfold process, read_request. by rewrite rstrip_nul_padding. }
  by rewrite Hsame.
Qed.

Lemma nul_padding_is_ignored_witness :
  handleConnection (H := Example.sample_builtins) Example.server Example.addr
    (mkConn Example.world0 [(Example.get_root ++ nuls 3)%string] [] false)
  = handleConnection (H := Example.sample_builtins) Example.server Example.addr
      (mkConn Example.world0 [Example.get_root] [] false).
Proof.
  apply (nul_padding_is_ignored (H := Example.sample_builtins) Example.server
           Example.addr Example.world0 Example.get_root 3 [] [] false).
  discriminate.
Defined.

(** X15.  A chunk that is not UTF-8 gets no answer: [data.decode()] raises
    [UnicodeDecodeError], nothing catches it, no response is sent and the
    connection is closed. *)
Theorem undecodable_request_is_dropped `{Builtins} (self : Server)
  (addr : list N * Z) (c : Conn) (data : string) (rest : list string) :
  unread c = data :: rest -> data ≠ EmptyString ->
  utf8_decode (octets (rstrip_nul data)) = None ->
  handleConnection self addr c
  = (Raised (Exc UnicodeDecodeError []), close (after_recv c rest)).
Proof.
  intros Hun Hne Hbad.
  rewrite (handleConnection_first self addr c data rest Hun Hne).
  rewrite (process_unreadable self addr data (Exc UnicodeDecodeError [])); [done|].
  unfold read_request, decode. by rewrite Hbad.
Qed.

Lemma undecodable_request_is_dropped_witness :
  handleConnection (H := Example.sample_builtins) Example.server Example.addr
    (Example.connection [Faulty.latin1])
  = (Raised (Exc UnicodeDecodeError []),
     close (after_recv (Example.connection [Faulty.latin1]) [])).
Proof.
  apply (undecodable_request_is_dropped (H := Example.sample_builtins)
           Example.server Example.addr (Example.connection [Faulty.latin1])
           Faulty.latin1 []).
  - reflexivity.
  - discriminate.
  - reflexivity.
Defined.

(** X16.  A response that cannot be encoded is not sent: when the handler
    returns a [str] with a lone surrogate in it, the handler has run, the
    [encode()] at the end of [__writeReponse] raises [UnicodeEncodeError],
    nothing is sent and the exception leaves the worker. *)
Theorem unencodable_response_is_dropped `{Builtins} (self : Server)
  (addr : list N * Z) (c : Conn) (data : string) (rest : list string)
  (request : Request) (h : Handler) (s : list N) (w' : World) :
  unread c = data :: rest -> data ≠ EmptyString ->
  read_request addr data = Done request ->
  routes self !! pathkey_of request = Some h ->
  invoke self h request (world c) = (Done (PStr s), w') ->
  utf8 s = None ->
  handleConnection self addr c
  = (Raised (Exc UnicodeEncodeError []),
     close (mkConn w' rest (sent c) (closed c))).
Proof.
  intros Hun Hne Hreq Hroute Hinv Hbad.
  assert (Hp : process self addr data (after_recv c rest)
               = (Raised (Exc UnicodeEncodeError []),
                  mkConn w' rest (sent c) (closed c))).
  { rewrite (process_routed self addr data request h _ Hreq Hroute).
    unfold bind at 1, in_world. cbn [world after_recv]. rewrite Hinv.
    cbn [unread sent closed].
    unfold deliver, bind, lift, respond, bind, lift. cbn [checkIfResultIsDict].
    unfold writeReponse. change default_code with (PInt 200).
    rewrite response_text_plain.
    unfold plain_response. rewrite !app_assoc.
    by rewrite encode_unencodable. }
  rewrite (handleConnection_first self addr c data rest Hun Hne).
  by rewrite Hp.
Qed.

Lemma unencodable_response_is_dropped_witness :
  handleConnection (H := Example.sample_builtins) Faulty.server_surrogate
    Example.addr (Example.connection [Example.get_root])
  = (Raised (Exc UnicodeEncodeError []),
     close (mkConn Example.world0 []
              (sent (Example.connection [Example.get_root]))
              (closed (Example.connection [Example.get_root])))).
Proof.
  apply (unencodable_response_is_dropped (H := Example.sample_builtins)
           Faulty.server_surrogate Example.addr
           (Example.connection [Example.get_root]) Example.get_root []
           Example.root_request Faulty.surrogate [55296%N] Example.world0).
  - reflexivity.
  - discriminate.
  - vm_compute. reflexivity.
  - vm_compute. reflexivity.
  - reflexivity.
  - reflexivity.
Defined.

(** ** The body of a request *)

Section Bodies.
Context `{Builtins}.

Lemma read_request_text (addr : list N * Z) (data : string)
  (verb path version : list N) (hs : list (list N * list N)) (content : list N) :
  decode (rstrip_nul data) = Done (request_text verb path version hs content) ->
  field verb -> field path -> field version ->
  Forall plain_header hs -> no_blank_line content ->
  read_request addr data
  = match parse_body (mkRequest verb path (headers_of hs) content
                        (Some (fst addr)) None) with
    | Done pb => Done (mkRequest verb path (headers_of hs) content
                         (Some (fst addr)) (Some pb))
    | Raised e => Raised e
    end.
Proof.
  intros Hdec Hv Hp Hr Hall Hbody. unfold read_request.
  rewrite Hdec, parseRequest_request_text by done. done.
Qed.

Lemma dict_set_keys (k v : list N) (d : list (list N * list N)) :
  map fst (dict_set k v d)
  = if decide (k ∈ map fst d) then map fst d else map fst d ++ [k].
Proof.
  induction d as [|[k' v'] d IH]; [done|]. simpl. unfold str_eqb.
  destruct (decide (k' = k)) as [->|Hne].
  - rewrite bool_decide_eq_true_2 by done. simpl.
    rewrite decide_True; [done | by left].
  - rewrite bool_decide_eq_false_2 by done. simpl. rewrite IH.
    destruct (decide (k ∈ map fst d)) as [Hin|Hout].
    + rewrite decide_True; [done | by right].
    + rewrite decide_False; [done|].
      intros [?|?]%elem_of_cons; [by subst | done].
Qed.

Lemma dict_set_items (k v : list N) (d : list (list N * list N)) k' v' :
  NoDup (map fst d) ->
  (k', v') ∈ dict_set k v d
  <-> (k' = k /\ v' = v) \/ (k' ≠ k /\ (k', v') ∈ d).
Proof.
  induction d as [|[k0 v0] d IH]; intros Hnd.
  - simpl. rewrite list_elem_of_singleton. split.
    + intros [= -> ->]. by left.
    + intros [[-> ->]|[_ Hin]]; [done | by apply elem_of_nil in Hin].
  - apply NoDup_cons in Hnd as [Hk0 Hnd]. cbn [dict_set]. unfold str_eqb.
    destruct (decide (k0 = k)) as [->|Hne].
    + rewrite bool_decide_eq_true_2 by done. rewrite !elem_of_cons. split.
      * intros [[= -> ->]|Hin]; [by left|].
        right. split; [|by right]. intros ->. apply Hk0.
        apply list_elem_of_fmap. by exists (k, v').
      * intros [[-> ->]|[Hnk [[= -> ->]|Hin]]]; [by left | done | by right].
    + rewrite bool_decide_eq_false_2 by done. rewrite !elem_of_cons, IH by done.
      split.
      * intros [[= -> ->]|[[-> ->]|[Hnk Hin]]].
        -- right. split; [done | by left].
        -- by left.
        -- right. split; [done | by right].
      * intros [[-> ->]|[Hnk [[= -> ->]|Hin]]].
        -- right. by left.
        -- by left.
        -- right. right. by split.
Qed.

Lemma last_named_snoc (name : list N) (hs : list (list N * list N)) k v :
  last_named name (hs ++ [(k, v)])
  = if decide (k = name) then Some v else last_named name hs.
Proof.
  unfold last_named. rewrite filter_app. simpl.
  destruct (decide (k = name)) as [->|Hne].
  - rewrite filter_cons_True by done. rewrite filter_nil. by rewrite last_snoc.
  - rewrite filter_cons_False by done. by rewrite filter_nil, app_nil_r.
Qed.

Lemma dict_of_pairs_items (pairs : list (list N * list N)) :
  let items := fold_left (fun d '(k, v) => dict_set k v d) pairs [] in
  NoDup (map fst items)
  /\ forall k v, (k, v) ∈ items <-> last_named k pairs = Some v.
Proof.
  induction pairs as [|[k v] pairs IH] using rev_ind.
  - simpl. split; [constructor|]. intros k v. split; [|done].
    by intros ?%elem_of_nil.
  - rewrite fold_left_app. simpl. destruct IH as [Hnd Hitems].
    set (d := fold_left (fun d '(k, v) => dict_set k v d) pairs []) in *.
    split.
    + rewrite dict_set_keys. case_decide as Hin; [done|].
      apply NoDup_app. split; [done|]. split; [|apply NoDup_singleton].
      intros x Hx ->%list_elem_of_singleton. done.
    + intros k' v'. rewrite dict_set_items by done. rewrite last_named_snoc.
      destruct (decide (k = k')) as [->|Hne].
      * split.
        -- intros [[_ ->]|[? _]]; done.
        -- intros [= ->]. by left.
      * rewrite <- Hitems. split.
        -- intros [[-> _]|[_ ?]]; done.
        -- intros Hin. right. split; [by intros -> | done].
Qed.

End Bodies.

(** X17.  How the body of a well-formed request reaches the handler as
    [parsed_body]: [parse_body] looks at the value of the header named
    exactly [Content-Type] (the last one, if repeated; none counts as the
    empty value).  If it contains [application/json], the body goes
    through [json.loads]; if not and it contains
    [application/x-www-form-urlencoded], through [dict(parse_qsl(...))];
    otherwise the body text itself is passed.  The request also carries
    the peer's address as [client_ip]. *)
Theorem body_is_parsed_by_content_type `{Builtins} (addr : list N * Z)
  (data : string) (verb path version : list N) (hs : list (list N * list N))
  (content : list N) :
  decode (rstrip_nul data) = Done (request_text verb path version hs content) ->
  field verb -> field path -> field version ->
  Forall plain_header hs -> no_blank_line content ->
  let content_type := default [] (last_named (lit "Content-Type") hs) in
  let request pb :=
    mkRequest verb path (headers_of hs) content (Some (fst addr)) (Some pb) in
  (contains (lit "application/json") content_type = true ->
   read_request addr data
   = match json_loads content with
     | Done v => Done (request v)
     | Raised e => Raised e
     end)
  /\ (contains (lit "application/json") content_type = false ->
      contains (lit "application/x-www-form-urlencoded") content_type = true ->
      read_request addr data = Done (request (dict_of_pairs (parse_qsl content))))
  /\ (contains (lit "application/json") content_type = false ->
      contains (lit "application/x-www-form-urlencoded") content_type = false ->
      read_request addr data = Done (request (PStr content))).
Proof.
  intros Hdec Hv Hp Hr Hall Hbody content_type request.
  rewrite (read_request_text addr data verb path version hs content) by done.
  unfold parse_body. cbn [headers body].
  rewrite headers_of_lookup. fold content_type.
  split; [|split].
  - intros ->. by destruct (json_loads content).
  - by intros -> ->.
  - by intros -> ->.
Qed.

Lemma body_is_parsed_by_content_type_witness :
  read_request (H := Example.sample_builtins) Example.addr Example.get_root
  = Done (mkRequest (lit "GET") (lit "/")
            (headers_of [(lit "Host", lit "localhost")]) []
            (Some (fst Example.addr)) (Some (PStr []))).
Proof.
  refine (proj2 (proj2
    (body_is_parsed_by_content_type (H := Example.sample_builtins) Example.addr
       Example.get_root (lit "GET") (lit "/") (lit "HTTP/1.1")
       [(lit "Host", lit "localhost")] [] _ _ _ _ _ _)) _ _).
  - reflexivity.
  - split; decided.
  - split; decided.
  - split; decided.
  - repeat constructor; decided.
  - unfold no_blank_line. apply find_None_absent. reflexivity.
  - reflexivity.
  - reflexivity.
Defined.

(** X18.  A body announced as JSON that [json.loads] refuses ends the
    connection without an answer: the exception is raised while the request
    is read, before the route is looked up, so no handler runs and not even
    a 404 is sent, whatever the verb and the path. *)
Theorem bad_json_body_is_dropped `{Builtins} (self : Server) (addr : list N * Z)
  (c : Conn) (data : string) (rest : list string)
  (verb path version : list N) (hs : list (list N * list N)) (content : list N)
  (content_type : list N) (e : exn) :
  unread c = data :: rest -> data ≠ EmptyString ->
  decode (rstrip_nul data) = Done (request_text verb path version hs content) ->
  field verb -> field path -> field version ->
  Forall plain_header hs -> no_blank_line content ->
  last_named (lit "Content-Type") hs = Some content_type ->
  contains (lit "application/json") content_type = true ->
  json_loads content = Raised e ->
  handleConnection self addr c = (Raised e, close (after_recv c rest)).
Proof.
  intros Hun Hne Hdec Hv Hp Hr Hall Hbody Hct Hjson Hbad.
  rewrite (handleConnection_first self addr c data rest Hun Hne).
  rewrite (process_unreadable self addr data e); [done|].
  rewrite (read_request_text addr data verb path version hs content) by done.
  unfold parse_body. cbn [headers body].
  rewrite headers_of_lookup, Hct.
  change (default [] (Some content_type)) with content_type. rewrite Hjson.
  by rewrite Hbad.
Qed.

Lemma bad_json_body_is_dropped_witness :
  handleConnection (H := Forms.refusing_builtins) Example.server Example.addr
    (Example.connection [Forms.post_json])
  = (Raised (Exc JSONDecodeError []),
     close (after_recv (Example.connection [Forms.post_json]) [])).
Proof.
  apply (bad_json_body_is_dropped (H := Forms.refusing_builtins) Example.server
           Example.addr (Example.connection [Forms.post_json]) Forms.post_json []
           (lit "POST") (lit "/nowhere") (lit "HTTP/1.1") Forms.json_headers
           (lit "{not json") (lit "application/json; charset=utf-8")).
  - reflexivity.
  - discriminate.
  - reflexivity.
  - split; decided.
  - split; decided.
  - split; decided.
  - repeat constructor; decided.
  - unfold no_blank_line. apply find_None_absent. reflexivity.
  - reflexivity.
  - reflexivity.
  - reflexivity.
Defined.

(** X19.  A form body keeps one value per field: the [dict] that
    [parse_body] builds from the pairs of [parse_qsl] has each field name
    once, with the value of the last pair of that name; earlier values of a
    repeated field are lost. *)
Theorem form_field_keeps_last_value (pairs : list (list N * list N)) :
  exists items,
    dict_of_pairs pairs = PDict (str_items items)
    /\ NoDup (map fst items)
    /\ forall k v, (k, v) ∈ items <-> last_named k pairs = Some v.
Proof.
  exists (fold_left (fun d '(k, v) => dict_set k v d) pairs []).
  split; [done|]. apply dict_of_pairs_items.
Qed.

(** ** [cors_middleware] *)

Section CorsFacts.
Context `{Builtins} `{Foreign}.

Lemma dict_setitem_str_keyed (k : list N) (v : pyobj) (d : list (list N * pyobj)) :
  dict_setitem k v (str_keyed d) = str_keyed (named_set k v d).
Proof.
  induction d as [|[k' v'] d IH]; [done|]. cbn [str_keyed map dict_setitem named_set fst snd key_is_str].
  destruct (str_eqb k' k); [done|]. cbn [map fst snd]. f_equal. exact IH.
Qed.

Lemma py_update_str_keyed (new d : list (list N * pyobj)) :
  py_update (PDict (str_keyed d)) new
  = Done (PDict (str_keyed (fold_left (fun d '(k, v) => named_set k v d) new d))).
Proof.
  unfold py_update. do 2 f_equal. revert d.
  induction new as [|[k v] new IH]; intros d; [done|]. simpl.
  by rewrite dict_setitem_str_keyed, IH.
Qed.

Lemma str_eqb_spec (a b : list N) : reflect (a = b) (str_eqb a b).
Proof. unfold str_eqb. apply bool_decide_reflect. Qed.

Lemma named_get_set (k k' : list N) (v : pyobj) (d : list (list N * pyobj)) :
  named_get k' (named_set k v d)
  = if decide (k' = k) then Some v else named_get k' d.
Proof.
  induction d as [|[k0 v0] d IH]; cbn [named_set named_get].
  - destruct (str_eqb_spec k k') as [->|Hne].
    + by rewrite decide_True.
    + by rewrite decide_False by done.
  - destruct (str_eqb_spec k0 k) as [->|Hne]; cbn [named_get].
    + destruct (str_eqb_spec k k') as [->|Hne'].
      * by rewrite decide_True.
      * by rewrite decide_False by done.
    + destruct (str_eqb_spec k0 k') as [->|Hne'].
      * by rewrite decide_False by done.
      * exact IH.
Qed.

Lemma with_cors_get (named : list (list N * pyobj)) (k : list N) :
  named_get k (with_cors named)
  = match named_get k cors_headers with
    | Some v => Some v
    | None => named_get k named
    end.
Proof.
  unfold with_cors, cors_headers. cbn [fold_left]. rewrite !named_get_set.
  cbn [named_get].
  destruct (decide (k = lit "Access-Control-Allow-Headers")) as [->|H3];
    [vm_compute; reflexivity|].
  destruct (decide (k = lit "Access-Control-Allow-Methods")) as [->|H2];
    [vm_compute; reflexivity|].
  destruct (decide (k = lit "Access-Control-Allow-Origin")) as [->|H1];
    [vm_compute; reflexivity|].
  destruct (str_eqb_spec (lit "Access-Control-Allow-Origin") k) as [E|_];
    [by destruct H1|].
  destruct (str_eqb_spec (lit "Access-Control-Allow-Methods") k) as [E|_];
    [by destruct H2|].
  destruct (str_eqb_spec (lit "Access-Control-Allow-Headers") k) as [E|_];
    [by destruct H3|].
  done.
Qed.

Lemma str_keyed_no_int (i : nat) (d : list (list N * pyobj)) :
  list_find (fun kv => key_is_int i (fst kv) = true) (str_keyed d) = None.
Proof.
  induction d as [|[k v] d IH]; [done|]. simpl in *. by rewrite IH.
Qed.

Lemma cors_run (f : Handler) (request : Request) (w w' : World)
  (response : pyobj) :
  f request w = (Done response, w') ->
  cors_middleware f request w
  = (match py_len response with
     | Raised e => Raised e
     | Done n =>
         match (if (n =? 3)%nat then py_getitem response 2 else Done (PDict [])) with
         | Raised e => Raised e
         | Done headers =>
             match py_update headers cors_headers with
             | Raised e => Raised e
             | Done headers' =>
                 match py_getitem response 0 with
                 | Raised e => Raised e
                 | Done first =>
                     match py_getitem response 1 with
                     | Raised e => Raised e
                     | Done second => Done (PTuple [first; second; headers'])
                     end
                 end
             end
         end
     end, w').
Proof.
  intros Hf. unfold cors_middleware, bind, lift, ret. rewrite Hf.
  destruct (py_len response) as [n|]; [|done].
  destruct (if (n =? 3)%nat then _ else _) as [headers|]; [|done].
  destruct (py_update headers cors_headers) as [headers'|]; [|done].
  destruct (py_getitem response 0) as [first|]; [|done].
  by destruct (py_getitem response 1) as [second|].
Qed.

Lemma cors_raises (f : Handler) (request : Request) (w w' : World) (e : exn) :
  f request w = (Raised e, w') -> cors_middleware f request w = (Raised e, w').
Proof. intros Hf. unfold cors_middleware, bind. by rewrite Hf. Qed.

Lemma response_text_cors (code : Z) (body : list N) :
  response_text (PStr body) (PInt code) (PDict (str_keyed (with_cors [])))
    default_contentType
  = Done (cors_response code body).
Proof.
  unfold response_text, responses_get, cors_response, reason, cors_lines.
  cbn [hashable py_str extra_headers with_cors cors_headers fold_left named_set
       str_keyed map concat fst snd str_eqb].
  f_equal. repeat rewrite <- app_assoc. reflexivity.
Qed.

Lemma cors_response_ascii (code : Z) (body : list N) :
  is_ascii body = true -> is_ascii (cors_response code body) = true.
Proof.
  intros Hb. unfold cors_response. rewrite !is_ascii_app.
  rewrite Hb, of_Z_ascii, reason_ascii, of_nat_ascii. reflexivity.
Qed.

Lemma deliver_cors_plain (code : Z) (body : list N) (c : Conn) :
  is_ascii body = true ->
  deliver (PTuple [PStr body; PInt code; PDict (str_keyed (with_cors []))]) c
  = (Done (Return PNone), after_send c (of_octets (cors_response code body))).
Proof.
  intros Hb. unfold deliver, bind, lift. cbn [checkIfResultIsDict].
  unfold respond, bind, lift, writeReponse. rewrite response_text_cors.
  by rewrite encode_ascii by by apply cors_response_ascii.
Qed.

End CorsFacts.

(** X20.  What [cors_middleware] does with the results it is written for.
    A handler result [(body, code)] becomes [(body, code, headers)] with the
    three CORS headers; a result [(body, code, headers)] whose headers are a
    [dict] with [str] keys keeps its body and code, and its headers get the
    three CORS headers: each of them is set to the value of the middleware,
    replacing a value the handler gave, and every other header keeps its
    value.  The state the handler left is passed on. *)
Theorem cors_adds_headers_to_tuples `{Foreign} (f : Handler) (request : Request)
  (w w' : World) :
  (forall content code,
     f request w = (Done (PTuple [content; code]), w') ->
     cors_middleware f request w
     = (Done (PTuple [content; code; PDict (str_keyed (with_cors []))]), w'))
  /\ (forall content code named,
        f request w = (Done (PTuple [content; code; PDict (str_keyed named)]), w') ->
        cors_middleware f request w
        = (Done (PTuple [content; code; PDict (str_keyed (with_cors named))]), w'))
  /\ (forall named k,
        named_get k (with_cors named)
        = match named_get k cors_headers with
          | Some v => Some v
          | None => named_get k named
          end)
  /\ with_cors [] = cors_headers.
Proof.
  split; [|split; [|split]].
  - intros content code Hf. rewrite (cors_run f request w w' _ Hf).
    cbn [py_len length Nat.eqb py_getitem lookup list_lookup].
    change (PDict []) with (PDict (str_keyed [])).
    by rewrite py_update_str_keyed.
  - intros content code named Hf. rewrite (cors_run f request w w' _ Hf).
    cbn [py_len length Nat.eqb py_getitem lookup list_lookup].
    by rewrite py_update_str_keyed.
  - apply with_cors_get.
  - reflexivity.
Qed.

Lemma cors_breaks_bare_results_aux `{Foreign} (f : Handler) (request : Request)
  (w w' : World) :
  (forall s,
     f request w = (Done (PStr s), w') ->
     cors_middleware f request w
     = match s with
       | [a; b; c] => (Raised (no_update (PStr [c])), w')
       | a :: b :: _ =>
           (Done (PTuple [PStr [a]; PStr [b]; PDict (str_keyed cors_headers)]), w')
       | _ => (Raised (index_out_of_range (PStr s)), w')
       end)
  /\ (forall named,
        f request w = (Done (PDict (str_keyed named)), w') ->
        cors_middleware f request w
        = (Raised (Exc KeyError
                     [PInt (if (length named =? 3)%nat then 2 else 0)]), w')).
Proof.
  split.
  - intros s Hf. rewrite (cors_run f request w w' _ Hf).
    destruct s as [|a [|b [|c [|d s]]]]; try reflexivity.
  - intros named Hf. rewrite (cors_run f request w w' _ Hf).
    cbn [py_len]. unfold str_keyed at 1. rewrite length_map.
    destruct (length named =? 3)%nat.
    + cbn [py_getitem]. by rewrite str_keyed_no_int.
    + change (PDict []) with (PDict (str_keyed [])).
      rewrite py_update_str_keyed. cbn [py_getitem].
      by rewrite str_keyed_no_int.
Qed.


(** X21.  [cors_middleware] only works on tuples.  A handler that returns a
    bare [str], which the worker itself accepts as a body, does not get its
    body through: a text of three characters raises [AttributeError] (its
    third character has no [update]), a text of fewer than two raises
    [IndexError], and any other text is cut down to its first character as
    the body with its second character as the status.  A handler that
    returns a [dict] with [str] keys, which the worker would send as JSON,
    raises [KeyError]. *)
Theorem cors_breaks_bare_results `{Foreign} (f : Handler) (request : Request)
  (w w' : World) :
  (forall s,
     f request w = (Done (PStr s), w') ->
     cors_middleware f request w
     = match s with
       | [a; b; c] => (Raised (no_update (PStr [c])), w')
       | a :: b :: _ =>
           (Done (PTuple [PStr [a]; PStr [b]; PDict (str_keyed cors_headers)]), w')
       | _ => (Raised (index_out_of_range (PStr s)), w')
       end)
  /\ (forall named,
        f request w = (Done (PDict (str_keyed named)), w') ->
        cors_middleware f request w
        = (Raised (Exc KeyError
                     [PInt (if (length named =? 3)%nat then 2 else 0)]), w')).
Proof. apply cors_breaks_bare_results_aux. Qed.

(** A text of one character under the middleware: the second index is out
    of range. *)
Example cors_on_one_character :
  cors_middleware (H := Shared.no_foreign) (fun _ => ret (PStr (lit "a")))
    Example.root_request Example.world0
  = (Raised (Exc IndexError [PStr (lit "string index out of range")]),
     Example.world0).
Proof. reflexivity. Qed.

(** X22.  The stack of the example in the source, [register] around
    [cors_middleware] around a handler that returns a [dict]: the
    [KeyError] of the middleware is caught by the wrapper of [register],
    and the client gets status 500 with the body
    [Internal Server Error: <repr of the missing key>] instead of the
    data. *)
Theorem cors_on_dict_result_answers_500 `{Builtins} `{Foreign} (self : Server)
  (addr : list N * Z) (c : Conn) (data : string) (rest : list string)
  (request : Request) (name : list N) (f : Handler)
  (named : list (list N * pyobj)) (w' : World) :
  unread c = data :: rest -> data ≠ EmptyString ->
  read_request addr data = Done request ->
  routes self !! pathkey_of request = Some (wrapper name (cors_middleware f)) ->
  beforeAllMiddlewares self = [] ->
  f request (world c) = (Done (PDict (str_keyed named)), w') ->
  let missing := PInt (if (length named =? 3)%nat then 2 else 0) in
  is_ascii (py_repr missing) = true ->
  handleConnection self addr c
  = (Done PNone,
     close (after_send
              (mkConn (logged w' [lit "Error in " ++ name ++ lit ": "
                                  ++ py_repr missing])
                 rest (sent c) (closed c))
              (of_octets
                 (plain_response 500
                    (lit "Internal Server Error: " ++ py_repr missing))))).
Proof.
  intros Hun Hne Hreq Hroute Hnone Hf missing Hascii.
  pose proof (proj2 (cors_breaks_bare_results_aux f request (world c) w')
                named Hf) as Hcors.
  fold missing in Hcors.
  assert (Hp : process self addr data (after_recv c rest)
               = (Done (Return PNone),
                  after_send
                    (mkConn (logged w' [lit "Error in " ++ name ++ lit ": "
                                        ++ py_repr missing])
                       rest (sent c) (closed c))
                    (of_octets
                       (plain_response 500
                          (lit "Internal Server Error: " ++ py_repr missing))))).
  { rewrite (process_routed self addr data request _ _ Hreq Hroute).
    unfold bind at 1, in_world, invoke. rewrite Hnone. cbn [world after_recv].
    rewrite (wrapper_catches name _ request (world c) w' _ Hcors eq_refl).
    cbn [unread sent closed].
    change (exn_str (Exc KeyError [missing])) with (py_repr missing).
    apply deliver_pair_plain. rewrite is_ascii_app. by rewrite Hascii. }
  rewrite (handleConnection_first self addr c data rest Hun Hne).
  by rewrite Hp.
Qed.

Lemma cors_on_dict_result_answers_500_witness :
  handleConnection (H := Example.sample_builtins) Shared.server_cors Example.addr
    (Example.connection [Example.get_root])
  = (Done PNone,
     close (after_send
              (mkConn (logged Example.world0
                         [lit "Error in " ++ lit "get_data" ++ lit ": "
                          ++ py_repr (Builtins := Example.sample_builtins) (PInt 0)])
                 [] (sent (Example.connection [Example.get_root]))
                 (closed (Example.connection [Example.get_root])))
              (of_octets
                 (plain_response (H := Example.sample_builtins) 500
                    (lit "Internal Server Error: "
                     ++ py_repr (Builtins := Example.sample_builtins) (PInt 0)))))).
Proof.
  apply (cors_on_dict_result_answers_500 (H := Example.sample_builtins)
           (H0 := Shared.no_foreign) Shared.server_cors Example.addr
           (Example.connection [Example.get_root]) Example.get_root []
           Example.root_request (lit "get_data") Shared.get_data
           [(lit "message", PStr (lit "This is some API data"))] Example.world0).
  - reflexivity.
  - discriminate.
  - vm_compute. reflexivity.
  - vm_compute. reflexivity.
  - reflexivity.
  - reflexivity.
  - reflexivity.
Defined.

(** X23.  [cors_middleware] and [rate_limit_middleware] stacked, for a
    client that is refused.  With the CORS middleware outside, as in the
    example of the source, the refusal [("Rate limit exceeded", 429)] gets
    the three CORS headers and is sent with them; with the rate limiter
    outside, the refusal is sent without them.  Either way the handler is
    not called and the check is recorded. *)
Theorem refusal_carries_cors_headers `{Builtins} `{Foreign} (f : Handler)
  (request : Request) (ip : list N) (w : World) (conn : Conn) :
  client_ip request = Some ip ->
  fst (is_allowed_at (clock w (ticks w)) (rate_limiter w) ip) = false ->
  cors_middleware (rate_limit_middleware f) request w
  = (Done (PTuple [PStr (lit "Rate limit exceeded"); PInt 429;
                   PDict (str_keyed cors_headers)]),
     after_check w ip)
  /\ deliver (PTuple [PStr (lit "Rate limit exceeded"); PInt 429;
                      PDict (str_keyed cors_headers)]) conn
     = (Done (Return PNone),
        after_send conn
          (of_octets (cors_response 429 (lit "Rate limit exceeded"))))
  /\ rate_limit_middleware (cors_middleware f) request w
     = (Done (PTuple [PStr (lit "Rate limit exceeded"); PInt 429]),
        after_check w ip).
Proof.
  intros Hip Hno.
  assert (Hrefused : forall g,
             rate_limit_middleware g request w
             = (Done (PTuple [PStr (lit "Rate limit exceeded"); PInt 429]),
                after_check w ip)).
  { intros g. rewrite (rate_limit_middleware_run g request ip w Hip).
    by rewrite Hno. }
  split; [|split].
  - rewrite (cors_run _ request w (after_check w ip) _ (Hrefused f)).
    cbn [py_len length Nat.eqb py_getitem lookup list_lookup].
    change (PDict []) with (PDict (str_keyed [])).
    by rewrite py_update_str_keyed.
  - by apply (deliver_cors_plain 429 (lit "Rate limit exceeded") conn).
  - apply Hrefused.
Qed.

Lemma refusal_carries_cors_headers_witness :
  cors_middleware (H := Shared.no_foreign) (rate_limit_middleware Example.home)
    Example.root_request Shared.world_closed
  = (Done (PTuple [PStr (lit "Rate limit exceeded"); PInt 429;
                   PDict (str_keyed cors_headers)]),
     after_check Shared.world_closed (lit "127.0.0.1")).
Proof.
  refine (proj1
    (refusal_carries_cors_headers (H := Example.sample_builtins)
       (H0 := Shared.no_foreign) Example.home Example.root_request
       (lit "127.0.0.1") Shared.world_closed (Example.connection []) _ _)).
  - reflexivity.
  - reflexivity.
Defined.

(** ** Static files *)

Section StaticFacts.
Context `{Builtins} `{Files}.

Lemma hex_digit_high_ascii (c : N) :
  (hex_digit (N.shiftr (N.land c 240) 4) <? 128)%N = true.
Proof.
  rewrite N.shiftr_land. change (N.shiftr 240 4) with 15%N.
  apply hex_digit_ascii.
Qed.

Lemma repr_byte_ascii (q c : N) :
  (q <? 128)%N = true -> is_ascii (repr_byte q c) = true.
Proof.
  intros Hq. unfold repr_byte.
  destruct (N.eqb_spec c q) as [->|_].
  { simpl. by rewrite Hq. }
  destruct (N.eqb_spec c backslash) as [->|_]; [done|]. cbn [orb].
  destruct (N.eqb_spec c 9); [done|].
  destruct (N.eqb_spec c 10); [done|].
  destruct (N.eqb_spec c 13); [done|].
  destruct (c <? 32)%N eqn:Hlow; cbn [orb].
  { unfold is_ascii. cbn [forallb].
    by rewrite hex_digit_high_ascii, hex_digit_ascii. }
  destruct (127 <=? c)%N eqn:Hhigh.
  { unfold is_ascii. cbn [forallb].
    by rewrite hex_digit_high_ascii, hex_digit_ascii. }
  unfold is_ascii. cbn [forallb]. rewrite andb_true_r.
  apply N.leb_gt in Hhigh. apply N.ltb_lt. lia.
Qed.

Lemma repr_byte_nonempty (q c : N) : (1 <= length (repr_byte q c))%nat.
Proof. unfold repr_byte. repeat case_match; simpl; lia. Qed.

Lemma quoted_ascii (q : N) (bs : list N) :
  (q <? 128)%N = true ->
  is_ascii ([98%N; q] ++ concat (map (repr_byte q) bs) ++ [q]) = true.
Proof.
  intros Hq.
  assert (Hbody : is_ascii (concat (map (repr_byte q) bs)) = true).
  { induction bs as [|c bs IH]; [done|].
    cbn [map concat]. by rewrite is_ascii_app, repr_byte_ascii, IH. }
  rewrite !is_ascii_app, Hbody. unfold is_ascii. cbn [forallb].
  by rewrite Hq.
Qed.

Lemma bytes_repr_ascii (b : string) : is_ascii (bytes_repr b) = true.
Proof. unfold bytes_repr. case_match; by apply quoted_ascii. Qed.

Lemma octets_length (b : string) : length (octets b) = String.length b.
Proof.
  unfold octets. rewrite length_map.
  induction b as [|a b IH]; [done|]. simpl. by rewrite IH.
Qed.

Lemma quoted_length (q : N) (bs : list N) :
  (3 + length bs
   <= length ([98%N; q] ++ concat (map (repr_byte q) bs) ++ [q]))%nat.
Proof.
  rewrite !length_app. simpl.
  assert (length bs <= length (concat (map (repr_byte q) bs)))%nat; [|lia].
  induction bs as [|c bs IH]; [done|].
  cbn [map concat]. rewrite length_app.
  pose proof (repr_byte_nonempty q c). simpl. lia.
Qed.

Lemma bytes_repr_length (b : string) :
  (3 + String.length b <= length (bytes_repr b))%nat.
Proof.
  unfold bytes_repr. rewrite <- octets_length. case_match; apply quoted_length.
Qed.

Lemma response_text_file (content_type : list N) (content : string) :
  response_text (PObj (bytes_repr content)) (PInt 200)
    (PDict [(PStr (lit "Content-Type"), PStr content_type)]) default_contentType
  = Done (file_response content_type content).
Proof.
  unfold response_text, responses_get, file_response, reason.
  cbn [hashable py_str extra_headers map concat].
  f_equal. rewrite app_nil_r. repeat rewrite <- app_assoc. reflexivity.
Qed.

Lemma file_response_ascii (content_type : list N) (content : string) :
  is_ascii content_type = true ->
  is_ascii (file_response content_type content) = true.
Proof.
  intros Ht. unfold file_response. rewrite !is_ascii_app.
  by rewrite Ht, reason_ascii, of_nat_ascii, bytes_repr_ascii.
Qed.

Lemma static_route (self self' : Server) (url_path file_path : list N) :
  static self url_path file_path = Done self' ->
  routes self' !! (lit "GET " ++ url_path)
  = Some (wrapper (lit "static_handler") (static_handler file_path))
  /\ beforeAllMiddlewares self' = beforeAllMiddlewares self.
Proof.
  unfold static, register.
  destruct (negb (isPathValid (lit "GET " ++ url_path))); [done|].
  intros Hs. apply Done_inj in Hs. subst self'. unfold decorator. simpl.
  split; [|done]. apply lookup_insert_eq.
Qed.

(** A request for a static route: what the handler returns is delivered. *)
Lemma process_static (self self' : Server) (url_path file_path : list N)
  addr data (request : Request) (c : Conn) (result : pyobj) :
  static self url_path file_path = Done self' ->
  beforeAllMiddlewares self = [] ->
  read_request addr data = Done request ->
  pathkey_of request = lit "GET " ++ url_path ->
  serve_static file_path = Done result ->
  process self' addr data c = deliver result c.
Proof.
  intros Hs Hnone Hreq Hkey Hserve.
  destruct (static_route self self' url_path file_path Hs) as [Hroute Hmw].
  rewrite <- Hkey in Hroute.
  rewrite (process_routed self' addr data request _ c Hreq Hroute).
  unfold bind at 1, in_world, invoke. rewrite Hmw, Hnone.
  rewrite (wrapper_transparent _ _ request (world c) (world c) result).
  - by destruct c.
  - unfold static_handler, lift. by rewrite Hserve.
Qed.

End StaticFacts.

(** X24.  What a static route sends for a file.  After
    [static(url_path, file_path)], a request [GET url_path] for which the
    file exists and can be read is answered with status 200, but the body
    is not the content of the file: it is the text Python prints for the
    [bytes] object, [b'...'] with escapes, at least three characters longer
    than the file.  [Content-Length] counts that text, and the response has
    two [Content-Type] lines, [application/json] first and then the type
    guessed from the name ([application/octet-stream] when there is
    none).  The file is looked for at [os.path.join(STATIC_DIR,
    file_path)]. *)
Theorem static_file_is_sent_as_repr `{Builtins} `{Files} (self self' : Server)
  (url_path file_path : list N) (addr : list N * Z) (c : Conn) (data : string)
  (rest : list string) (request : Request) (content : string) :
  static self url_path file_path = Done self' ->
  beforeAllMiddlewares self = [] ->
  unread c = data :: rest -> data ≠ EmptyString ->
  read_request addr data = Done request ->
  pathkey_of request = lit "GET " ++ url_path ->
  let full_path := path_join STATIC_DIR file_path in
  let content_type :=
    match guess_type full_path with
    | Some (ch :: s) => ch :: s
    | _ => lit "application/octet-stream"
    end in
  path_exists full_path = true ->
  read_file full_path = Done content ->
  is_ascii content_type = true ->
  handleConnection self' addr c
  = (Done PNone,
     close (after_send (after_recv c rest)
              (of_octets (file_response content_type content))))
  /\ (3 + String.length content <= length (bytes_repr content))%nat.
Proof.
  intros Hs Hnone Hun Hne Hreq Hkey full_path content_type Hex Hread Hascii.
  split; [|apply bytes_repr_length].
  assert (Hserve : serve_static file_path
                   = Done (PTuple [PObj (bytes_repr content); PInt 200;
                                   PDict [(PStr (lit "Content-Type"),
                                           PStr content_type)]])).
  { unfold serve_static. fold full_path. by rewrite Hex, Hread. }
  rewrite (handleConnection_first self' addr c data rest Hun Hne).
  rewrite (process_static self self' url_path file_path addr data request _ _
             Hs Hnone Hreq Hkey Hserve).
  unfold deliver, bind, lift. cbn [checkIfResultIsDict].
  unfold respond, bind, lift, writeReponse. rewrite response_text_file.
  by rewrite encode_ascii by by apply file_response_ascii.
Qed.

(** X25.  What a static route sends when there is no file to read.  If
    nothing exists at the path, the answer is status 404 with the body
    [File not found].  If something exists but reading it raises (a
    directory, a file without permission), the wrapper of [register]
    catches the exception: the answer is status 500 with the body
    [Internal Server Error: <str(e)>], and the error is logged under the
    name [static_handler]. *)
Theorem static_route_without_file `{Builtins} `{Files} (self self' : Server)
  (url_path file_path : list N) (addr : list N * Z) (c : Conn) (data : string)
  (rest : list string) (request : Request) :
  static self url_path file_path = Done self' ->
  beforeAllMiddlewares self = [] ->
  unread c = data :: rest -> data ≠ EmptyString ->
  read_request addr data = Done request ->
  pathkey_of request = lit "GET " ++ url_path ->
  let full_path := path_join STATIC_DIR file_path in
  (path_exists full_path = false ->
   handleConnection self' addr c
   = (Done PNone,
      close (after_send (after_recv c rest)
               (of_octets (plain_response 404 (lit "File not found"))))))
  /\ (forall e,
        path_exists full_path = true -> read_file full_path = Raised e ->
        is_Exception e = true -> is_ascii (exn_str e) = true ->
        handleConnection self' addr c
        = (Done PNone,
           close (after_send
                    (mkConn (logged (world c)
                               [lit "Error in static_handler: " ++ exn_str e])
                       rest (sent c) (closed c))
                    (of_octets
                       (plain_response 500
                          (lit "Internal Server Error: " ++ exn_str e)))))).
Proof.
  intros Hs Hnone Hun Hne Hreq Hkey full_path. split.
  - intros Hex.
    assert (Hserve : serve_static file_path
                     = Done (PTuple [PStr (lit "File not found"); PInt 404])).
    { unfold serve_static. fold full_path. by rewrite Hex. }
    rewrite (handleConnection_first self' addr c data rest Hun Hne).
    rewrite (process_static self self' url_path file_path addr data request _ _
               Hs Hnone Hreq Hkey Hserve).
    by rewrite deliver_pair_plain.
  - intros e Hex Hread He Hascii.
    destruct (static_route self self' url_path file_path Hs) as [Hroute Hmw].
    rewrite <- Hkey in Hroute.
    assert (Hp : process self' addr data (after_recv c rest)
                 = (Done (Return PNone),
                    after_send
                      (mkConn (logged (world c)
                                 [lit "Error in static_handler: " ++ exn_str e])
                         rest (sent c) (closed c))
                      (of_octets
                         (plain_response 500
                            (lit "Internal Server Error: " ++ exn_str e))))).
    { rewrite (process_routed self' addr data request _ _ Hreq Hroute).
      unfold bind at 1, in_world, invoke. rewrite Hmw, Hnone.
      cbn [world after_recv].
      rewrite (wrapper_catches (lit "static_handler") _ request (world c)
                 (world c) e); [|by unfold static_handler, lift, serve_static;
                                   fold full_path; rewrite Hex, Hread | done].
      cbn [unread sent closed].
      apply deliver_pair_plain. rewrite is_ascii_app. by rewrite Hascii. }
    rewrite (handleConnection_first self' addr c data rest Hun Hne).
    by rewrite Hp.
Qed.

Lemma static_file_is_sent_as_repr_witness :
  handleConnection (H := Example.sample_builtins) Site.server Example.addr
    (Example.connection [Site.get_file])
  = (Done PNone,
     close (after_send (after_recv (Example.connection [Site.get_file]) [])
              (of_octets
                 (file_response (H := Example.sample_builtins)
                    (lit "text/plain") "hello"))))
  /\ (3 + String.length "hello" <= length (bytes_repr "hello"))%nat.
Proof.
  apply (static_file_is_sent_as_repr (H := Example.sample_builtins)
           (H0 := Site.one_file) Server_init Site.server (lit "/hello")
           (lit "hello.txt") Example.addr (Example.connection [Site.get_file])
           Site.get_file [] Site.file_request "hello").
  - vm_compute. reflexivity.
  - reflexivity.
  - reflexivity.
  - discriminate.
  - vm_compute. reflexivity.
  - reflexivity.
  - reflexivity.
  - reflexivity.
  - reflexivity.
Defined.

(** On the directory with one file: a route for a file that is not there,
    and a route for the directory [private], which cannot be read. *)
Lemma static_route_without_file_witness :
  handleConnection (H := Example.sample_builtins) Site.server_missing Example.addr
    (Example.connection [Site.get_file])
  = (Done PNone,
     close (after_send (after_recv (Example.connection [Site.get_file]) [])
              (of_octets
                 (plain_response (H := Example.sample_builtins) 404
                    (lit "File not found")))))
  /\ handleConnection (H := Example.sample_builtins) Site.server_private
       Example.addr (Example.connection [Site.get_file])
     = (Done PNone,
        close (after_send
                 (mkConn (logged Example.world0
                            [lit "Error in static_handler: [Errno 21] Is a directory: 'static/private'"])
                    [] [] false)
                 (of_octets
                    (plain_response (H := Example.sample_builtins) 500
                       (lit "Internal Server Error: [Errno 21] Is a directory: 'static/private'"))))).
Proof.
  split.
  - refine (proj1
      (static_route_without_file (H := Example.sample_builtins)
         (H0 := Site.one_file) Server_init Site.server_missing (lit "/hello")
         (lit "missing.txt") Example.addr (Example.connection [Site.get_file])
         Site.get_file [] Site.file_request _ _ _ _ _ _) _).
    + vm_compute. reflexivity.
    + reflexivity.
    + reflexivity.
    + discriminate.
    + vm_compute. reflexivity.
    + reflexivity.
    + reflexivity.
  - refine (proj2
      (static_route_without_file (H := Example.sample_builtins)
         (H0 := Site.one_file) Server_init Site.server_private (lit "/hello")
         (lit "private") Example.addr (Example.connection [Site.get_file])
         Site.get_file [] Site.file_request _ _ _ _ _ _)
      Site.is_a_directory _ _ _ _).
    + vm_compute. reflexivity.
    + reflexivity.
    + reflexivity.
    + discriminate.
    + vm_compute. reflexivity.
    + reflexivity.
    + reflexivity.
    + reflexivity.
    + reflexivity.
    + reflexivity.
Defined.
